(** * hobo_vr: the tracking utilities of [virtualreality/util/utilz.py]

    A shallow embedding of the multi-header serial packet reader
    ([SerialReaderMultiBinary]), of the self-calibrating Kalman wrapper
    ([LazyKalman]) and of the colour-blob tracker ([BlobTracker]), followed
    by the properties that the specification states about them.

    Conventions of the embedding.
    - Python exceptions are values: every operation that can raise returns
      in the monad [py], and a [while] loop is driven by fuel that is proved
      sufficient.
    - [bytes] and [bytearray] are lists of [byte].
    - A 32-bit float that travels on the wire is identified with its IEEE
      binary32 bit pattern, a number below [2^32]; [struct] uses the native
      byte order, taken here as little-endian.
    - numpy's float64 is Rocq's primitive binary64 [float].  The
      intermediate results that numpy evaluates as [clongdouble] are pairs
      of long doubles in the 80-bit extended format of x86-64 Linux, with
      numpy's complex product and quotient and with glibc's [csqrtl].
    - pykalman and the blob detector are outside the repository; they enter
      as an interface ([PyKalman]) and as per-cycle inputs.
    - The pose table and the arrays that [get_poses] returns are objects of
      a heap, so that sharing between them can be expressed.
    - The worker thread is followed on its own; what the other thread does
      ([stop]) reaches it as part of its input.
    - Two fields have no counterpart in the source and only record what
      happened: [yielded] in the reader and [refits] in the filter. *)

From Stdlib Require Import ZArith NArith List Bool Lia Floats.
From Stdlib Require Import Strings.Byte Strings.String.
From stdpp Require Import base option list gmap.
Import ListNotations.

Local Open Scope nat_scope.

(** ** Python outcomes *)

Inductive exn : Type :=
| ValueError     (* unpacking a sequence of the wrong length *)
| StructError    (* struct.error: buffer too small *)
| KeyError
| IndexError
| RuntimeError (msg : string)
| TypeError      (* arithmetic on None *)
| DetectorError. (* whatever the blob detector raises on a bad frame *)

(** [Return a]: the call returned [a]; [Raise e]: it raised [e];
    [Unfinished]: the fuel of a loop ran out before the loop ended. *)
Inductive py (A : Type) : Type :=
| Return (a : A)
| Raise (e : exn)
| Unfinished.
Arguments Return {A} a.
Arguments Raise {A} e.
Arguments Unfinished {A}.

#[global] Instance py_ret : MRet py := fun A a => Return a.
#[global] Instance py_bind : MBind py := fun A B f m =>
  match m with
  | Return a => f a
  | Raise e => Raise e
  | Unfinished => Unfinished
  end.

(** ** Byte strings *)

Abbreviation bytes := (list byte).

Fixpoint bytes_eqb (a b : bytes) : bool :=
  match a, b with
  | [], [] => true
  | x :: a', y :: b' => Byte.eqb x y && bytes_eqb a' b'
  | _, _ => false
  end.

(** [s.startswith(sub)] *)
Fixpoint startswith (s sub : bytes) {struct sub} : bool :=
  match sub, s with
  | [], _ => true
  | x :: sub', y :: s' => Byte.eqb x y && startswith s' sub'
  | _ :: _, [] => false
  end.

(** [s.find(sub)]: index of the first occurrence, [None] for Python's -1. *)
Fixpoint bytes_find (s sub : bytes) : option nat :=
  if startswith s sub then Some 0
  else match s with
       | [] => None
       | _ :: s' => S <$> bytes_find s' sub
       end.

(** [sub in s] *)
Definition bytes_in (sub s : bytes) : bool :=
  match bytes_find s sub with Some _ => true | None => false end.

(** [a, b = s.split(sep, 1)]: when [sep] does not occur, [split] returns a
    one-element list and the tuple assignment raises [ValueError]. *)
Definition split_once (s sep : bytes) : py (bytes * bytes) :=
  match bytes_find s sep with
  | Some i => Return (take i s, drop (i + length sep) s)
  | None => Raise ValueError
  end.

(** [x in xs] for a list of byte strings. *)
Definition bytes_mem (x : bytes) (xs : list bytes) : bool :=
  existsb (bytes_eqb x) xs.

(** ** [struct]: formats, sizes, packing and unpacking *)

Inductive fmt_char : Type :=
| Cf  (* 'f': 32-bit float, 4 bytes *)
| Cq. (* '?': bool, 1 byte *)

(** A format string such as ['7f5?'] is a list of (repeat count, character). *)
Definition format := list (nat * fmt_char).

Inductive value : Type :=
| VFloat (bits : N)
| VBool (b : bool).

Definition char_size (c : fmt_char) : nat :=
  match c with Cf => 4 | Cq => 1 end.

Definition expand (form : format) : list fmt_char :=
  flat_map (fun '(n, c) => repeat c n) form.

(** [struct.calcsize(form)]; neither format needs padding. *)
Definition calcsize (form : format) : nat :=
  list_sum (map char_size (expand form)).

Definition le32 (b0 b1 b2 b3 : byte) : N :=
  (Byte.to_N b0 + 256 * (Byte.to_N b1 + 256 * (Byte.to_N b2 + 256 * Byte.to_N b3)))%N.

Definition byte_of_N (n : N) : byte :=
  match Byte.of_N n with Some b => b | None => x00 end.

Definition pack_f32 (bits : N) : bytes :=
  [ byte_of_N (bits mod 256);
    byte_of_N (bits / 256 mod 256);
    byte_of_N (bits / 65536 mod 256);
    byte_of_N (bits / 16777216 mod 256) ]%N.

Fixpoint unpack_chars (cs : list fmt_char) (buf : bytes) : py (list value) :=
  match cs with
  | [] => Return []
  | Cf :: cs' =>
      match buf with
      | b0 :: b1 :: b2 :: b3 :: buf' =>
          vs ← unpack_chars cs' buf'; Return (VFloat (le32 b0 b1 b2 b3) :: vs)
      | _ => Raise StructError
      end
  | Cq :: cs' =>
      match buf with
      | b :: buf' =>
          vs ← unpack_chars cs' buf'; Return (VBool (negb (Byte.eqb b x00)) :: vs)
      | [] => Raise StructError
      end
  end.

(** [struct.unpack_from(form, buf)] *)
Definition unpack_from (form : format) (buf : bytes) : py (list value) :=
  unpack_chars (expand form) buf.

(** [struct.pack(form, *vs)] for values of the right kinds. *)
Fixpoint pack_values (vs : list value) : bytes :=
  match vs with
  | [] => []
  | VFloat bits :: vs' => pack_f32 bits ++ pack_values vs'
  | VBool b :: vs' => (if b then x01 else x00) :: pack_values vs'
  end.

(** The values agree with the format, and every float fits 32 bits. *)
Fixpoint well_formed (cs : list fmt_char) (vs : list value) : Prop :=
  match cs, vs with
  | [], [] => True
  | Cf :: cs', VFloat bits :: vs' => (bits < 2 ^ 32)%N /\ well_formed cs' vs'
  | Cq :: cs', VBool _ :: vs' => well_formed cs' vs'
  | _, _ => False
  end.

(** ** [SerialReaderMultiBinary] *)

Definition b_hmd : bytes := [x68; x6d; x64; x3a].  (* b'hmd:' *)
Definition b_lc : bytes := [x6c; x63; x3a].        (* b'lc:' *)
Definition b_rc : bytes := [x72; x63; x3a].        (* b'rc:' *)

Definition HEADINGS : list bytes := [b_hmd; b_lc; b_rc].

Definition form_4f : format := [(4, Cf)].
Definition form_7f5q : format := [(7, Cf); (5, Cq)].

Definition HEADING_FORMS : list (bytes * format) :=
  [(b_hmd, form_4f); (b_lc, form_7f5q); (b_rc, form_7f5q)].

Definition TERMINATOR : bytes := [x09; x0d; x0a].  (* b'\t\r\n' *)

(** [d[key]] on a dict kept as an association list. *)
Fixpoint dict_get {V} (d : list (bytes * V)) (key : bytes) : py V :=
  match d with
  | [] => Raise KeyError
  | (k, v) :: d' => if bytes_eqb k key then Return v else dict_get d' key
  end.

(** A decoded packet: the tuple [(header, values)]. *)
Definition packet : Type := bytes * list value.

(** The reader object.  [yielded] is a ghost field: the tuples assigned to
    [_last_packet] so far, oldest first. *)
Record reader : Type := {
  buffer : bytes;
  _last_packet : option packet;
  _last_headed_packet : option packet;
  yielded : list packet;
}.

(** [SerialReaderMultiBinary()] on top of [Packetizer.__init__]. *)
Definition new_reader : reader :=
  {| buffer := []; _last_packet := None; _last_headed_packet := None; yielded := [] |}.

Definition set_buffer (r : reader) (b : bytes) : reader :=
  {| buffer := b; _last_packet := _last_packet r;
     _last_headed_packet := _last_headed_packet r; yielded := yielded r |}.

Definition store_packet (r : reader) (p : packet) : reader :=
  {| buffer := buffer r; _last_packet := Some p;
     _last_headed_packet := _last_headed_packet r; yielded := yielded r ++ [p] |}.

Definition last_read (r : reader) : option packet := _last_packet r.

Definition handle_packet (r : reader) (pkt : bytes * bytes) : py reader :=
  let header := pkt.1 in
  let data := pkt.2 in
  if negb (bytes_mem header HEADINGS) then Return r
  else
    form ← dict_get HEADING_FORMS header;
    let check := calcsize form in
    let packet_section := take check data in
    if negb (length packet_section =? check) then Return r
    else
      vals ← unpack_from form packet_section;
      Return (store_packet r (header, vals)).

(** The body of [for h in self.HEADINGS], for the frame [pkt]. *)
Fixpoint for_headings (hs : list bytes) (pkt : bytes) (r : reader) : py reader :=
  match hs with
  | [] => Return r
  | h :: hs' =>
      r' ← (if bytes_in h pkt
            then '(_, p) ← split_once pkt h; handle_packet r (h, p)
            else Return r);
      for_headings hs' pkt r'
  end.

(** [while self.TERMINATOR in self.buffer: ...] *)
Fixpoint frames_loop (fuel : nat) (r : reader) : py reader :=
  if bytes_in TERMINATOR (buffer r) then
    match fuel with
    | 0 => Unfinished
    | S fuel' =>
        '(pkt, rest) ← split_once (buffer r) TERMINATOR;
        r' ← for_headings HEADINGS pkt (set_buffer r rest);
        frames_loop fuel' r'
    end
  else Return r.

(** [data_received(data)].  Every turn of the loop removes a terminator
    from the buffer, so the length of the buffer is fuel enough. *)
Definition data_received (r : reader) (data : bytes) : py reader :=
  let r1 := set_buffer r (buffer r ++ data) in
  frames_loop (length (buffer r1)) r1.

(** *** What one frame makes the reader store *)

(** The packet decoded from the bytes [data] that follow the marker [h], as
    a list of at most one element. *)
Definition decode_payload (h : bytes) (form : format) (data : bytes) : list packet :=
  if calcsize form <=? length data then
    match unpack_from form (take (calcsize form) data) with
    | Return vals => [(h, vals)]
    | _ => []
    end
  else [].

(** The packet decoded for one heading of the table, from its first
    occurrence in the frame. *)
Definition decode_heading (frame : bytes) (hf : bytes * format) : list packet :=
  match bytes_find frame hf.1 with
  | Some i => decode_payload hf.1 hf.2 (drop (i + length hf.1) frame)
  | None => []
  end.

(** All the packets decoded from a frame, in the order of [HEADINGS]. *)
Definition decodes (frame : bytes) : list packet :=
  flat_map (decode_heading frame) HEADING_FORMS.

Definition store_all (r : reader) (ps : list packet) : reader :=
  fold_left store_packet ps r.

(** *** The statements of the specification about one frame *)

(** The heading of the table whose first occurrence in the frame comes
    first, with the index of that occurrence. *)
Fixpoint earliest (frame : bytes) (hfs : list (bytes * format))
    (best : option (nat * (bytes * format))) : option (nat * (bytes * format)) :=
  match hfs with
  | [] => best
  | hf :: hfs' =>
      let best' :=
        match bytes_find frame hf.1, best with
        | Some i, Some (j, _) => if i <? j then Some (i, hf) else best
        | Some i, None => Some (i, hf)
        | None, _ => best
        end in
      earliest frame hfs' best'
  end.

Definition earliest_heading (frame : bytes) : option (bytes * format) :=
  snd <$> earliest frame HEADING_FORMS None.

(** "Only the first match governs": fed to a new reader, the frame yields
    what is decoded for its earliest marker and nothing else, and that is
    the stored packet. *)
Definition first_match_governs (frame : bytes) : Prop :=
  forall hf r',
    earliest_heading frame = Some hf ->
    data_received new_reader (frame ++ TERMINATOR) = Return r' ->
    yielded r' = decode_heading frame hf
    /\ last_read r' = head (decode_heading frame hf).

(** "Marker, payload of the exact length, terminator: exactly one packet,
    with the injected values", for a new reader. *)
Definition exact_frame_decodes (h : bytes) (vals : list value) : Prop :=
  forall r',
    data_received new_reader (h ++ pack_values vals ++ TERMINATOR) = Return r' ->
    yielded r' = [(h, vals)] /\ last_read r' = Some (h, vals).

(** "A frame whose payload after a recognized marker is shorter than the
    marker's layout yields no packet and leaves the stored packet", for a
    new reader. *)
Definition short_payload_is_dropped (frame : bytes) : Prop :=
  (exists h form i,
     In (h, form) HEADING_FORMS
     /\ bytes_find frame h = Some i
     /\ length (drop (i + length h) frame) < calcsize form) ->
  forall r',
    data_received new_reader (frame ++ TERMINATOR) = Return r' ->
    yielded r' = [] /\ last_read r' = None.

(** A frame in which every marker that occurs is followed by fewer bytes
    than its layout needs; a frame without any marker is one. *)
Definition malformed (frame : bytes) : Prop :=
  forall h form i,
    In (h, form) HEADING_FORMS ->
    bytes_find frame h = Some i ->
    length (drop (i + length h) frame) < calcsize form.

(** ** Arrays of floats *)

(** A row of the pose table, and any other array of shape (3,). *)
Definition vec3 : Type := float * float * float.

(** The other numpy arrays that occur: vectors and matrices of float64. *)
Inductive ndarray : Type :=
| Vector (v : list float)
| Matrix (m : list (list float)).

Definition zeros3 : vec3 := (0, 0, 0)%float.                         (* np.zeros(3) *)
Definition eye3 : ndarray :=                                          (* np.eye(3) *)
  Matrix [[1; 0; 0]; [0; 1; 0]; [0; 0; 1]]%float.

(** [np.isnan(pose).any() or np.isinf(pose).any()] *)
Definition has_nan_in_pose (pose : vec3) : bool :=
  let '(x, y, z) := pose in
  (is_nan x || is_nan y || is_nan z) || (is_infinity x || is_infinity y || is_infinity z).

(** [rows[-1]] *)
Definition last_row {A} (rows : list A) : py A :=
  match last rows with
  | Some a => Return a
  | None => Raise IndexError
  end.

(** ** The part of pykalman that [LazyKalman] calls *)

Class PyKalman : Type := {
  (** a [pykalman.KalmanFilter] object *)
  KalmanFilter : Type;
  (** [KalmanFilter(transition_matrices=t, observation_matrices=o, initial_state_mean=m)] *)
  KalmanFilter_new : ndarray -> ndarray -> vec3 -> KalmanFilter;
  (** [kf.filter_update(filtered_state_mean=x, filtered_state_covariance=p, observation=z)] *)
  filter_update : KalmanFilter -> vec3 -> ndarray -> vec3 -> vec3 * ndarray;
  (** [kf.em(X, n_iter=n)] *)
  em : KalmanFilter -> list vec3 -> Z -> KalmanFilter;
  (** [kf.filter(X)]: the rows of the two arrays it returns, side by side *)
  kf_filter : KalmanFilter -> list vec3 -> list (vec3 * ndarray);
  (** [filter] returns one mean and one covariance per observation *)
  kf_filter_length : forall kf X, length (kf_filter kf X) = length X;
}.

(** ** [LazyKalman] *)

Module LazyKalman.
Section WithLibrary.
Context {K : PyKalman}.

(** [obj] is the type of the array objects handed to [apply].  The filter
    keeps the objects themselves in its buffer; what numpy finds in them
    when a call runs is given by that call's [read]. *)
Context {obj : Type}.

(** The attribute [_expected_shape] is written once and never read; it is
    left out.  [refits] is a ghost field: one entry per run of
    [_run_calibration], with the observations and the iteration count
    given to [em]. *)
Record t : Type := {
  _filter : KalmanFilter;
  do_learning : bool;
  _calibration_countdown : Z;
  _calibration_observations : list obj;
  _em_iter : Z;
  _x_now : vec3;
  _p_now : ndarray;
  refits : list (list vec3 * Z);
}.

Definition calibrate (k : t) (observations em_iter : Z) : t :=
  {| _filter := _filter k; do_learning := do_learning k;
     _calibration_countdown := observations;
     _calibration_observations := _calibration_observations k;
     _em_iter := em_iter;
     _x_now := _x_now k; _p_now := _p_now k; refits := refits k |}.

(** [LazyKalman(init_state, transition_matrix, observation_matrix, n_iter, train_size)] *)
Definition init (init_state : vec3) (transition_matrix observation_matrix : ndarray)
    (n_iter train_size : Z) : t :=
  calibrate
    {| _filter := KalmanFilter_new transition_matrix observation_matrix init_state;
       do_learning := true;
       _calibration_countdown := 0;
       _calibration_observations := [];
       _em_iter := n_iter;
       _x_now := zeros3; _p_now := Vector [0; 0; 0]%float; refits := [] |}
    train_size n_iter.

Definition _run_calibration (read : obj -> vec3) (k : t) : py t :=
  let X := map read (_calibration_observations k) in
  let f := em (_filter k) X (_em_iter k) in
  '(m, c) ← last_row (kf_filter f X);
  Return {| _filter := f; do_learning := do_learning k;
            _calibration_countdown := _calibration_countdown k;
            _calibration_observations := [];
            _em_iter := _em_iter k;
            _x_now := m; _p_now := c;
            refits := refits k ++ [(X, _em_iter k)] |}.

Definition set_estimate (k : t) (x : vec3) (p : ndarray) : t :=
  {| _filter := _filter k; do_learning := do_learning k;
     _calibration_countdown := _calibration_countdown k;
     _calibration_observations := _calibration_observations k;
     _em_iter := _em_iter k;
     _x_now := x; _p_now := p; refits := refits k |}.

(** The first statement of [apply]: with learning, [filter_update] gives
    the new mean and covariance; without, only the mean is taken. *)
Definition filter_step (read : obj -> vec3) (k : t) (obz : obj) : t :=
  if do_learning k then
    let '(x, p) := filter_update (_filter k) (_x_now k) (_p_now k) (read obz) in
    set_estimate k x p
  else
    let '(x, _) := filter_update (_filter k) (_x_now k) (_p_now k) (read obz) in
    set_estimate k x (_p_now k).

(** [self._calibration_observations.append(obz)] and
    [self._calibration_countdown -= 1] *)
Definition buffer_observation (k : t) (obz : obj) : t :=
  {| _filter := _filter k; do_learning := do_learning k;
     _calibration_countdown := _calibration_countdown k - 1;
     _calibration_observations := _calibration_observations k ++ [obz];
     _em_iter := _em_iter k;
     _x_now := _x_now k; _p_now := _p_now k; refits := refits k |}.

(** [apply(obz)]: the new state of the filter and the returned [_x_now].
    The countdown is an int, and true as a condition when it is not zero. *)
Definition apply (read : obj -> vec3) (k : t) (obz : obj) : py (t * vec3) :=
  let k := filter_step read k obz in
  k ← (if negb (_calibration_countdown k =? 0)%Z then
         let k := buffer_observation k obz in
         if (_calibration_countdown k =? 0)%Z then _run_calibration read k
         else Return k
       else Return k);
  Return (k, _x_now k).

(** Successive calls of [apply], each with the contents of the arrays at
    the time of the call. *)
Fixpoint apply_all (k : t) (calls : list ((obj -> vec3) * obj)) : py t :=
  match calls with
  | [] => Return k
  | (read, obz) :: calls' => '(k', _) ← apply read k obz; apply_all k' calls'
  end.
End WithLibrary.
Arguments t {_} obj.
End LazyKalman.

(** ** [BlobTracker] *)

(** What [find_blob] returns when it sees the marker: [(center, radius)]. *)
Record blob : Type := { center : float * float; radius : float }.

(** [np.linalg.norm([x, y])] *)
Definition norm2 (x y : float) : float := sqrt (x * x + y * y)%float.

(** ** numpy's long double and complex long double *)

(** [np.longdouble] where the module runs, x86-64 Linux: the 80-bit
    extended format of the x87 unit, 64 bits of significand and a largest
    exponent of 16384, every operation rounded to nearest even.  Not a
    number has no sign or payload here. *)
Module LongDouble.

Definition prec : Z := 64.
Definition emax : Z := 16384.
Abbreviation t := spec_float.

(** The value [x] in the format of the given precision. *)
Definition round_to (prec' emax' : Z) (x : spec_float) : spec_float :=
  match x with
  | S754_finite s m e => binary_normalize prec' emax' (cond_Zopp s (Zpos m)) e s
  | _ => x
  end.

(** float64 to long double: every float64 is a long double. *)
Definition of_float (x : float) : t := round_to prec emax (Prim2SF x).
(** long double to float64, as the store into a float64 array does it. *)
Definition to_float (x : t) : float :=
  SF2Prim (round_to FloatOps.prec FloatOps.emax x).

Definition add : t -> t -> t := SFadd prec emax.
Definition sub : t -> t -> t := SFsub prec emax.
Definition mul : t -> t -> t := SFmul prec emax.
Definition div : t -> t -> t := SFdiv prec emax.
Definition sqrt : t -> t := SFsqrt prec emax.       (* sqrtl *)
Definition zero : t := S754_zero false.
Definition one : t := of_float 1.

(** [copysignl(x, y)] for a [y] of sign [s] *)
Definition copysign (x : t) (s : bool) : t :=
  match x with
  | S754_zero _ => S754_zero s
  | S754_infinity _ => S754_infinity s
  | S754_finite _ m e => S754_finite s m e
  | S754_nan => S754_nan
  end.

End LongDouble.

(** [np.clongdouble]: a real and an imaginary long double, with the
    arithmetic of numpy's scalars. *)
Module CLongDouble.

Definition t : Type := LongDouble.t * LongDouble.t.

(** A Python or float64 number as a complex long double. *)
Definition of_float (x : float) : t := (LongDouble.of_float x, LongDouble.zero).
(** The store into a float64 array drops the imaginary part. *)
Definition to_float (z : t) : float := LongDouble.to_float z.1.

Definition add (a b : t) : t := (LongDouble.add a.1 b.1, LongDouble.add a.2 b.2).

Definition mul (a b : t) : t :=
  let '(ar, ai) := a in
  let '(br, bi) := b in
  (LongDouble.sub (LongDouble.mul ar br) (LongDouble.mul ai bi),
   LongDouble.add (LongDouble.mul ar bi) (LongDouble.mul ai br)).

(** numpy divides complex numbers by Smith's method: the quotient is a
    product by the rounded reciprocal of the divisor. *)
Definition div (a b : t) : t :=
  let '(in1r, in1i) := a in
  let '(in2r, in2i) := b in
  let in2r_abs := SFabs in2r in
  let in2i_abs := SFabs in2i in
  if SFleb in2i_abs in2r_abs then
    if SFeqb in2r_abs LongDouble.zero && SFeqb in2i_abs LongDouble.zero then
      (* divide by zero should yield a complex inf or nan *)
      (LongDouble.div in1r in2r_abs, LongDouble.div in1i in2r_abs)
    else
      let rat := LongDouble.div in2i in2r in
      let scl := LongDouble.div LongDouble.one
                   (LongDouble.add in2r (LongDouble.mul in2i rat)) in
      (LongDouble.mul (LongDouble.add in1r (LongDouble.mul in1i rat)) scl,
       LongDouble.mul (LongDouble.sub in1i (LongDouble.mul in1r rat)) scl)
  else
    let rat := LongDouble.div in2r in2i in
    let scl := LongDouble.div LongDouble.one
                 (LongDouble.add in2i (LongDouble.mul in2r rat)) in
    (LongDouble.mul (LongDouble.add (LongDouble.mul in1r rat) in1i) scl,
     LongDouble.mul (LongDouble.sub (LongDouble.mul in1i rat) in1r) scl).

(** [z ** 2]: numpy's power of a complex number answers zero for a zero
    base and multiplies the base with itself for the exponent two. *)
Definition pow2 (a : t) : t :=
  if SFeqb a.1 LongDouble.zero && SFeqb a.2 LongDouble.zero
  then (LongDouble.zero, LongDouble.zero)
  else mul a a.

(** glibc's [csqrtl], where its result is a function of the operand as
    represented here: an infinite or absent part, or an imaginary part
    that is zero.  [None] stands for the two remaining cases, which are not
    modelled: a finite imaginary part other than zero, where glibc works
    with [hypotl] and scaling, and minus infinity with an imaginary part
    that is not a number, where the sign of the result is the sign bit of
    that part.  [solve_blob_poses] meets neither (lemma
    [triangulate_steps_defined]). *)
Definition sqrt (x : t) : option t :=
  let '(re, im) := x in
  match re, im with
  | _, S754_infinity _ => Some (S754_infinity false, im)
  | S754_infinity true, S754_nan => None
  | S754_infinity true, (S754_zero si | S754_finite si _ _) =>
      Some (LongDouble.zero, S754_infinity si)
  | S754_infinity false, S754_nan => Some (re, S754_nan)
  | S754_infinity false, (S754_zero si | S754_finite si _ _) => Some (re, S754_zero si)
  | S754_nan, _ | _, S754_nan => Some (S754_nan, S754_nan)
  | S754_finite true m e, S754_zero si =>
      Some (LongDouble.zero,
            LongDouble.copysign (LongDouble.sqrt (S754_finite false m e)) si)
  | _, S754_zero si => Some (SFabs (LongDouble.sqrt re), S754_zero si)
  | _, S754_finite _ _ _ => None
  end.

End CLongDouble.

(** The arithmetic of [solve_blob_poses] between the detection and the
    store into [self.poses[key]], with the names of the source: float64 up
    to [l], complex long double from [d_cm] on, float64 again in the
    table.  [l ** 2] on a float64 is taken as the rounded product. *)
Definition triangulate_steps
    (camera_focal_length BALL_RADIUS_CM frame_width frame_height : float)
    (b : blob) : option vec3 :=
  let '(x, y) := center b in
  let w := radius b in
  let f_px := camera_focal_length in
  let x_px := x in
  let y_px := y in
  let a_px := (w / 2)%float in
  let x_px := (x_px - frame_width / 2)%float in
  let y_px := (frame_height / 2 - y_px)%float in
  let l_px := norm2 x_px y_px in
  let k := (l_px / f_px)%float in
  let j := ((l_px + a_px) / f_px)%float in
  let l := ((j - k) / (1 + j * k))%float in
  (* np.sqrt(1 + l ** 2, dtype=np.clongdouble) *)
  match CLongDouble.sqrt (CLongDouble.of_float (1 + l * l)%float) with
  | None => None
  | Some root =>
  let d_cm := CLongDouble.div (CLongDouble.mul (CLongDouble.of_float BALL_RADIUS_CM) root)
                (CLongDouble.of_float l) in
  (* np.divide(f_px, l_px, dtype=np.clongdouble) *)
  let fl := CLongDouble.div (CLongDouble.of_float f_px) (CLongDouble.of_float l_px) in
  (* np.sqrt(1 + fl ** 2, dtype=np.clongdouble) *)
  match CLongDouble.sqrt (CLongDouble.add (CLongDouble.of_float 1) (CLongDouble.pow2 fl)) with
  | None => None
  | Some root' =>
  let z_cm := CLongDouble.div (CLongDouble.mul d_cm fl) root' in
  let l_cm := CLongDouble.mul z_cm (CLongDouble.of_float k) in
  let x_cm := CLongDouble.div (CLongDouble.mul l_cm (CLongDouble.of_float x_px))
                (CLongDouble.of_float l_px) in
  let y_cm := CLongDouble.div (CLongDouble.mul l_cm (CLongDouble.of_float y_px))
                (CLongDouble.of_float l_px) in
  let hundred := CLongDouble.of_float 100 in
  Some (CLongDouble.to_float (CLongDouble.div x_cm hundred),
        CLongDouble.to_float (CLongDouble.div y_cm hundred),
        CLongDouble.to_float (CLongDouble.div z_cm hundred))
  end
  end.

(** The row that is stored.  The steps always give one (lemma
    [triangulate_steps_defined]); the second case is never taken. *)
Definition triangulate (camera_focal_length BALL_RADIUS_CM frame_width frame_height : float)
    (b : blob) : vec3 :=
  match triangulate_steps camera_focal_length BALL_RADIUS_CM frame_width frame_height b with
  | Some pose => pose
  | None => (nan, nan, nan)
  end.

(** Arrays of shape (n, 3) live in a heap; an attribute or a variable that
    names such an array holds its location. *)
Abbreviation loc := positive.
Abbreviation heap := (gmap positive (list vec3)).

(** A colour mask: hue, saturation and value, each with centre and range. *)
Record ColorRange : Type := {
  hue_center : float; hue_range : float;
  sat_center : float; sat_range : float;
  val_center : float; val_range : float;
}.

(** One call of [_try_get_frame] as the worker experiences it. *)
Record acquisition : Type := {
  (** [frame.shape], a tuple with one number per axis of the array;
      [None] when no frame came within the bound *)
  frame_shape : option (list float);
  (** what [blob_finders[key].find_blob] does with that frame *)
  find_blob : nat -> py (option blob);
  (** [stop()] ran in the caller's thread while the worker was busy with this frame *)
  stop_requested : bool;
}.

Section Tracker.
Context {K : PyKalman}.

(** The attributes of the worker that the modelled methods read or write.
    The filter of a channel receives views of that channel's row; a view
    is identified by the index of the row, so the filters are of type
    [LazyKalman.t nat].  [blob_finders] is represented by [find_blob] of
    the acquisitions, one finder per colour mask. *)
Record BlobTracker : Type := {
  _vs : bool;                         (* the video source is open *)
  color_masks : list ColorRange;
  camera_focal_length : float;
  BALL_RADIUS_CM : float;
  frame_height : option float;
  frame_width : option float;
  poses : loc;
  kalmanFilterz : list (option (LazyKalman.t nat));
  alive : bool;
  can_track : bool;
}.

(** [BlobTracker(focal_length_px=f, ball_radius_cm=r, color_masks=masks)] *)
Definition BlobTracker_init (focal_length_px ball_radius_cm : float)
    (masks : list ColorRange) (h : heap) : BlobTracker * heap :=
  let n := length masks in
  let l := fresh (dom h) in
  ({| _vs := false; color_masks := masks;
      camera_focal_length := focal_length_px; BALL_RADIUS_CM := ball_radius_cm;
      frame_height := None; frame_width := None;
      poses := l;
      kalmanFilterz := replicate n None;
      alive := true; can_track := false |},
   <[l := replicate n zeros3]> h).

(** What [__init__] sets up and every cycle keeps: the table of the worker
    is an array of the heap with one row per colour mask, and there is one
    filter slot per colour mask. *)
Definition tracker_inv (t : BlobTracker) (h : heap) : Prop :=
  exists rows,
    h !! poses t = Some rows
    /\ length rows = length (color_masks t)
    /\ length (kalmanFilterz t) = length (color_masks t).

(** [get_poses()]: [self.poses.copy()] is a new array with the same rows. *)
Definition get_poses (t : BlobTracker) (h : heap) : loc * heap :=
  let l := fresh (dom h) in
  (l, <[l := h !!! poses t]> h).

(** What the holder of a returned array can do to it: [arr[i] = row]. *)
Definition array_write (l : loc) (i : nat) (row : vec3) (h : heap) : heap :=
  alter (fun rows => <[i := row]> rows) l h.

Definition set_filters (t : BlobTracker) (fs : list (option (LazyKalman.t nat))) : BlobTracker :=
  {| _vs := _vs t; color_masks := color_masks t;
     camera_focal_length := camera_focal_length t; BALL_RADIUS_CM := BALL_RADIUS_CM t;
     frame_height := frame_height t; frame_width := frame_width t;
     poses := poses t; kalmanFilterz := fs;
     alive := alive t; can_track := can_track t |}.

(** The body of the loop of [solve_blob_poses] for the channel [key], on
    the rows of [self.poses] and on [self.kalmanFilterz].  An exception
    leaves what was written before it. *)
Definition solve_channel (t : BlobTracker) (a : acquisition) (key : nat)
    (s : list vec3 * list (option (LazyKalman.t nat)))
    : (list vec3 * list (option (LazyKalman.t nat))) * py unit :=
  let '(rows, filters) := s in
  (* blob = b.find_blob(image) *)
  match find_blob a key with
  | Raise e => (s, Raise e)
  | Unfinished => (s, Unfinished)
  | Return None => (s, Return tt)
  | Return (Some b) =>
      match frame_width t, frame_height t with
      | Some width, Some height =>
          let pose := triangulate (camera_focal_length t) (BALL_RADIUS_CM t) width height b in
          (* self.poses[key] = np.array((x_cm / 100, y_cm / 100, z_cm / 100)) *)
          match rows !! key with
          | None => (s, Raise IndexError)
          | Some _ =>
              let rows := <[key := pose]> rows in
              (* if not has_nan_in_pose(self.poses[key]): *)
              if negb (has_nan_in_pose pose) then
                match filters !! key with
                | None => ((rows, filters), Raise IndexError)
                | Some None =>
                    (* self.kalmanFilterz[key] = LazyKalman(self.poses[key], eye, eye) *)
                    ((rows, <[key := Some (LazyKalman.init pose eye3 eye3 5 15)]> filters),
                     Return tt)
                | Some (Some k) =>
                    (* self.poses[key] = self.kalmanFilterz[key].apply(self.poses[key]) *)
                    match LazyKalman.apply (fun _ => pose) k key with
                    | Return (k', mean) =>
                        ((<[key := mean]> rows, <[key := Some k']> filters), Return tt)
                    | Raise e => ((rows, filters), Raise e)
                    | Unfinished => ((rows, filters), Unfinished)
                    end
                end
              else ((rows, filters), Return tt)
          end
      | _, _ => (s, Raise TypeError)
      end
  end.

(** The triangulated observation of the channel [key] in a cycle: the
    value that [solve_channel] stores first, when the detector returns a
    blob. *)
Definition observed_pose (t : BlobTracker) (a : acquisition) (key : nat) : option vec3 :=
  match find_blob a key, frame_width t, frame_height t with
  | Return (Some b), Some width, Some height =>
      Some (triangulate (camera_focal_length t) (BALL_RADIUS_CM t) width height b)
  | _, _, _ => None
  end.

Fixpoint solve_channels (t : BlobTracker) (a : acquisition) (keys : list nat)
    (s : list vec3 * list (option (LazyKalman.t nat)))
    : (list vec3 * list (option (LazyKalman.t nat))) * py unit :=
  match keys with
  | [] => (s, Return tt)
  | key :: keys' =>
      match solve_channel t a key s with
      | (s', Return _) => solve_channels t a keys' s'
      | (s', r) => (s', r)
      end
  end.

(** [solve_blob_poses(image)]: one blob finder per colour mask. *)
Definition solve_blob_poses (t : BlobTracker) (h : heap) (a : acquisition)
    : (BlobTracker * heap) * py unit :=
  let keys := seq 0 (length (color_masks t)) in
  let '((rows, filters), r) := solve_channels t a keys (h !!! poses t, kalmanFilterz t) in
  ((set_filters t filters, <[poses t := rows]> h), r).

Definition set_flags (t : BlobTracker) (alive' can_track' : bool) : BlobTracker :=
  {| _vs := _vs t; color_masks := color_masks t;
     camera_focal_length := camera_focal_length t; BALL_RADIUS_CM := BALL_RADIUS_CM t;
     frame_height := frame_height t; frame_width := frame_width t;
     poses := poses t; kalmanFilterz := kalmanFilterz t;
     alive := alive'; can_track := can_track' |}.

(** [stop()] as seen by the worker: the two flags are cleared. *)
Definition stopped_by (a : acquisition) (t : BlobTracker) : BlobTracker :=
  if stop_requested a then set_flags t false false else t.

(** [at_start()]: open the source and look at a first frame.  The last
    statement unpacks [frame.shape] into three names: a shape of another
    length raises [ValueError] before anything is assigned. *)
Definition at_start (t : BlobTracker) (a : acquisition) : BlobTracker * py unit :=
  match frame_shape a with
  | None =>
      ({| _vs := false; color_masks := color_masks t;
          camera_focal_length := camera_focal_length t; BALL_RADIUS_CM := BALL_RADIUS_CM t;
          frame_height := frame_height t; frame_width := frame_width t;
          poses := poses t; kalmanFilterz := kalmanFilterz t;
          alive := alive t; can_track := false |},
       Raise (RuntimeError "invalid video source"))
  | Some [height; width; _] =>
      ({| _vs := true; color_masks := color_masks t;
          camera_focal_length := camera_focal_length t; BALL_RADIUS_CM := BALL_RADIUS_CM t;
          frame_height := Some height; frame_width := Some width;
          poses := poses t; kalmanFilterz := kalmanFilterz t;
          alive := alive t; can_track := true |},
       Return tt)
  | Some _ =>
      ({| _vs := true; color_masks := color_masks t;
          camera_focal_length := camera_focal_length t; BALL_RADIUS_CM := BALL_RADIUS_CM t;
          frame_height := frame_height t; frame_width := frame_width t;
          poses := poses t; kalmanFilterz := kalmanFilterz t;
          alive := alive t; can_track := true |},
       Raise ValueError)
  end.

(** The two statements that end [run]. *)
Definition finish (t : BlobTracker) (h : heap) : (BlobTracker * heap) * py unit :=
  ((set_flags t false false, h), Return tt).

(** [while self.alive and self.can_track: ...].  The list holds the
    acquisitions still to come; when it is used up the loop is still
    running. *)
Fixpoint tracking_loop (script : list acquisition) (t : BlobTracker) (h : heap)
    : (BlobTracker * heap) * py unit :=
  if alive t && can_track t then
    match script with
    | [] => ((t, h), Unfinished)
    | a :: script' =>
        let t1 := set_flags t (alive t) (bool_decide (is_Some (frame_shape a))) in
        let '((t2, h2), r) := solve_blob_poses t1 h a in
        let t3 := stopped_by a t2 in
        match r with
        | Return _ =>
            if negb (can_track t3) then finish t3 h2
            else tracking_loop script' t3 h2
        | Raise _ => finish t3 h2
        | Unfinished => ((t3, h2), Unfinished)
        end
    end
  else finish t h.

(** [run()], on the acquisitions that the video source will deliver. *)
Definition run (script : list acquisition) (t : BlobTracker) (h : heap)
    : (BlobTracker * heap) * py unit :=
  match script with
  | [] => ((t, h), Unfinished)
  | a0 :: script1 =>
      (* self.at_start(), outside the try *)
      match at_start t a0 with
      | (t1, Raise e) => ((stopped_by a0 t1, h), Raise e)
      | (t1, Unfinished) => ((t1, h), Unfinished)
      | (t1, Return _) =>
          let t1 := stopped_by a0 t1 in
          match script1 with
          | [] => ((t1, h), Unfinished)
          | a1 :: script2 =>
              (* _, self.can_track = self._try_get_frame() *)
              let t2 := set_flags t1 (alive t1) (bool_decide (is_Some (frame_shape a1))) in
              let t2 := stopped_by a1 t2 in
              if negb (can_track t2)
              then (* raise ... except: self.alive = False; return *)
                ((set_flags t2 false (can_track t2), h), Return tt)
              else tracking_loop script2 t2 h
          end
      end
  end.
End Tracker.

(** ** The other functions of the module *)

(** *** Strings *)

(** Python's [str]: a sequence of code points. *)
Abbreviation str := (list N).

(** The UTF-8 bytes of one code point.  With the default strict error
    handling a surrogate raises [UnicodeEncodeError], which is a
    [ValueError]; so do the numbers that are no code points. *)
Definition utf8_char (c : N) : py bytes :=
  if (c <? 128)%N then Return [byte_of_N c]
  else if (c <? 2048)%N then
    Return [byte_of_N (192 + c / 64); byte_of_N (128 + c mod 64)]%N
  else if (c <? 65536)%N then
    if ((55296 <=? c) && (c <=? 57343))%N then Raise ValueError
    else Return [byte_of_N (224 + c / 4096); byte_of_N (128 + c / 64 mod 64);
                 byte_of_N (128 + c mod 64)]%N
  else if (c <? 1114112)%N then
    Return [byte_of_N (240 + c / 262144); byte_of_N (128 + c / 4096 mod 64);
            byte_of_N (128 + c / 64 mod 64); byte_of_N (128 + c mod 64)]%N
  else Raise ValueError.

(** [s.encode("utf-8")] *)
Fixpoint utf8_encode (s : str) : py bytes :=
  match s with
  | [] => Return []
  | c :: s' => b ← utf8_char c; bs ← utf8_encode s'; Return (b ++ bs)
  end.

(** [format_str_for_write(input_str)]; 10 is the code point of the newline. *)
Definition format_str_for_write (input_str : str) : py bytes :=
  if length input_str <? 1 then utf8_encode []
  else
    match last input_str with
    | None => Raise IndexError
    | Some c =>
        if negb (c =? 10)%N then utf8_encode (input_str ++ [10%N])
        else utf8_encode input_str
    end.

(** [strings_share_characters(str1, str2)]: [i in str1], for a character
    [i], is membership. *)
Fixpoint strings_share_characters (str1 str2 : str) : bool :=
  match str2 with
  | [] => false
  | i :: str2' =>
      if existsb (N.eqb i) str1 then true
      else strings_share_characters str1 str2'
  end.

(** *** Reading a line from a stream *)

(** [read3(reader, read_len)].  The stream is the list of the chunks that
    the successive [reader.read(read_len)] return; at the end of the stream
    [read] returns [b""].  The result is the data and the chunks not yet
    read. *)
Fixpoint read3 (reader : list bytes) : bytes * list bytes :=
  match reader with
  | [] => ([], [])
  | temp :: reader' =>
      if negb (bytes_in [x0a] temp) && negb (bytes_eqb temp [])
      then let '(data, rest) := read3 reader' in (temp ++ data, rest)
      else (temp, reader')
  end.

(** *** Poses in a packet *)

(** [sys.maxsize] of a 64-bit CPython. *)
Definition sys_maxsize : Z := 2 ^ 63 - 1.

(** [parse_poses_from_packet(packet, struct)].  The iterator over the
    packet is the list of what it has not yet given; [islice(it, 0, i)]
    takes up to [i] elements from it and raises [ValueError] for an [i]
    outside [0 <= i <= sys.maxsize]. *)
Fixpoint parse_poses_from_packet {A : Type} (it : list A) (struct : list Z)
    : py (list (list A)) :=
  match struct with
  | [] => Return []
  | i :: struct' =>
      if ((i <? 0) || (sys_maxsize <? i))%Z then Raise ValueError
      else
        poses ← parse_poses_from_packet (drop (Z.to_nat i) it) struct';
        Return (take (Z.to_nat i) it :: poses)
  end.

(** [get_poses_shape(poses)] *)
Definition get_poses_shape {A : Type} (poses : list (list A)) : list Z :=
  map (fun i => Z.of_nat (length i)) poses.

(** *** [SerialReaderBinary] *)

Module SerialReaderBinary.

(** The attributes that [handle_packet] uses.  [_struct_form] is the format
    string, one character per field. *)
Record t : Type := {
  _last_packet : option (list value);
  _struct_form : list fmt_char;
  _struct_len : nat;
}.

(** [SerialReaderBinary(struct_type, struct_len, type_len)]; the defaults
    are ['f'], 13 and 4. *)
Definition init (struct_type : fmt_char) (struct_len type_len : nat) : t :=
  {| _last_packet := None;
     _struct_form := repeat struct_type struct_len;
     _struct_len := struct_len * type_len |}.

Definition last_read (r : t) : option (list value) := _last_packet r.

Definition handle_packet (r : t) (packet : bytes) : py t :=
  if length packet =? _struct_len r then
    vals ← unpack_chars (_struct_form r) packet;
    Return {| _last_packet := Some vals;
              _struct_form := _struct_form r;
              _struct_len := _struct_len r |}
  else Return r.

End SerialReaderBinary.

(** *** [BlobTracker.set_kalman_learning] *)

Definition set_do_learning {K : PyKalman} {obj : Type} (k : LazyKalman.t obj)
    (do_learning : bool) : LazyKalman.t obj :=
  {| LazyKalman._filter := LazyKalman._filter k;
     LazyKalman.do_learning := do_learning;
     LazyKalman._calibration_countdown := LazyKalman._calibration_countdown k;
     LazyKalman._calibration_observations := LazyKalman._calibration_observations k;
     LazyKalman._em_iter := LazyKalman._em_iter k;
     LazyKalman._x_now := LazyKalman._x_now k;
     LazyKalman._p_now := LazyKalman._p_now k;
     LazyKalman.refits := LazyKalman.refits k |}.

(** The body of the loop, for the index [i].  The second list of the
    source, [kalmanFilterz2], holds [None] in every place from [__init__]
    on and is assigned nowhere: its test never succeeds. *)
Definition set_learning_at {K : PyKalman} (do_learning : bool) (i : nat)
    (filters : list (option (LazyKalman.t nat))) : py (list (option (LazyKalman.t nat))) :=
  match filters !! i with
  | None => Raise IndexError
  | Some None => Return filters
  | Some (Some k) => Return (<[i := Some (set_do_learning k do_learning)]> filters)
  end.

Fixpoint set_learning_loop {K : PyKalman} (do_learning : bool) (keys : list nat)
    (filters : list (option (LazyKalman.t nat))) : py (list (option (LazyKalman.t nat))) :=
  match keys with
  | [] => Return filters
  | i :: keys' =>
      filters' ← set_learning_at do_learning i filters;
      set_learning_loop do_learning keys' filters'
  end.

(** [set_kalman_learning(do_learning)]: [for i in range(markerMasks.shape[0])]. *)
Definition set_kalman_learning {K : PyKalman} (t : BlobTracker) (do_learning : bool)
    : py BlobTracker :=
  filters ← set_learning_loop do_learning (seq 0 (length (color_masks t))) (kalmanFilterz t);
  Return (set_filters t filters).

(** ** Notions used in the further properties *)

(** A byte string read as frames, each closed by the terminator, and the
    bytes after the last terminator. *)
Definition framed (frames : list bytes) (tail : bytes) : bytes :=
  flat_map (fun f => f ++ TERMINATOR) frames ++ tail.

Definition terminator_free (s : bytes) : Prop := bytes_find s TERMINATOR = None.

(** A packet as the reader stores it: a header of the table with values of
    its layout. *)
Definition packet_ok (p : packet) : Prop :=
  exists form, In (p.1, form) HEADING_FORMS /\ well_formed (expand form) p.2.

(** A size that [islice] accepts as its stop. *)
Definition valid_stop (i : Z) : Prop := (0 <= i <= sys_maxsize)%Z.

(** The number of values that a pose structure asks for. *)
Definition struct_total (struct : list Z) : Z := foldr Z.add 0%Z struct.

(** What [set_kalman_learning] is to do to one slot of [kalmanFilterz]. *)
Definition set_slot_learning {K : PyKalman} (do_learning : bool)
    (slot : option (LazyKalman.t nat)) : option (LazyKalman.t nat) :=
  match slot with
  | Some k => Some (set_do_learning k do_learning)
  | None => None
  end.

(** The detectors come back on the frame of [a], with a blob, with [None]
    or with an exception. *)
Definition detectors_come_back (a : acquisition) : Prop :=
  forall key, find_blob a key <> Unfinished.

(** The centre of the blob is the centre of the image: the two offsets
    that [solve_blob_poses] computes are zero. *)
Definition at_image_centre (frame_width frame_height : float) (b : blob) : bool :=
  let '(x, y) := center b in
  ((x - frame_width / 2 =? 0) && (frame_height / 2 - y =? 0))%float.

(** A long double that is a zero or not a number. *)
Definition zero_or_nan (x : LongDouble.t) : Prop :=
  match x with S754_zero _ | S754_nan => True | _ => False end.

(** A long double that is not below zero. *)
Definition not_negative (x : LongDouble.t) : Prop :=
  match x with S754_infinity true | S754_finite true _ _ => False | _ => True end.

(** The code points that UTF-8 encodes: all but the surrogates. *)
Definition encodable (c : N) : Prop :=
  (c < 55296 \/ 57343 < c < 1114112)%N.

(** A chunk after which [read3] goes on reading. *)
Definition open_chunk (temp : bytes) : Prop :=
  bytes_in [x0a] temp = false /\ temp <> [].

(** ** The statement of the specification about the re-fit *)

(** "With the countdown at N > 0, the N-th call re-fits on the N buffered
    observations": the re-fit is a single one, on the observations of
    these N calls and with the configured iteration count. *)
Definition refit_on_the_N_observations {K : PyKalman} {obj : Type}
    (k : LazyKalman.t obj) (calls : list ((obj -> vec3) * obj)) : Prop :=
  (0 < LazyKalman._calibration_countdown k)%Z ->
  Z.of_nat (length calls) = LazyKalman._calibration_countdown k ->
  exists k',
    LazyKalman.apply_all k calls = Return k'
    /\ LazyKalman.refits k'
       = LazyKalman.refits k
         ++ [(map (fun c : (obj -> vec3) * obj => c.1 c.2) calls, LazyKalman._em_iter k)].

(** ** Concrete inputs *)

(** A stand-in for pykalman on which the model can be run: a filter object
    counts its [em] passes, [filter_update] answers with the observation,
    and [filter] with the observations themselves. *)
Definition echo_kalman : PyKalman :=
  {| KalmanFilter := nat;
     KalmanFilter_new := fun _ _ _ => 0;
     filter_update := fun _ _ p z => (z, p);
     em := fun kf _ _ => S kf;
     kf_filter := fun _ X => map (fun x => (x, eye3)) X;
     kf_filter_length := fun _ X => List.length_map _ X |}.

(** A filter built for two observations that has seen one, and is then
    re-armed for two more. *)
Definition rearmed_filter : LazyKalman.t (K := echo_kalman) vec3 :=
  match LazyKalman.apply id (LazyKalman.init zeros3 eye3 eye3 5 2) (1, 1, 1)%float with
  | Return (k, _) => LazyKalman.calibrate k 2 10
  | _ => LazyKalman.init zeros3 eye3 eye3 5 2
  end.

Definition two_calls : list ((vec3 -> vec3) * vec3) :=
  [(id, (2, 2, 2)%float); (id, (3, 3, 3)%float)].

(** Two calls with one array, number 0, which holds (1, 1, 1) at the first
    call and (2, 2, 2) at the second. *)
Definition aliased_calls : list ((nat -> vec3) * nat) :=
  [(fun _ => (1, 1, 1)%float, 0); (fun _ => (2, 2, 2)%float, 0)].

(** An acquisition that brings no frame; the detector fails on it. *)
Definition no_frame : acquisition :=
  {| frame_shape := None;
     find_blob := fun _ => Raise DetectorError;
     stop_requested := false |}.

(** A 640 by 480 colour frame on which the detector finds [b] for channel
    0 and nothing for the others. *)
Definition frame_with (b : blob) : acquisition :=
  {| frame_shape := Some [480; 640; 3]%float;
     find_blob := fun key => match key with 0 => Return (Some b) | _ => Return None end;
     stop_requested := false |}.

(** A blob exactly at the centre of a 640 by 480 image. *)
Definition centred_blob : blob := {| center := (320, 240)%float; radius := 10%float |}.

(** A blob one hundred pixels to the right of the centre. *)
Definition offset_blob : blob := {| center := (420, 240)%float; radius := 20%float |}.

Definition one_mask : list ColorRange :=
  [{| hue_center := 98; hue_range := 10; sat_center := 200; sat_range := 55;
      val_center := 250; val_range := 32 |}]%float.

(** A tracker with the default focal length and ball radius, one colour
    mask, on an empty heap, after [at_start] saw a 640 by 480 frame. *)
Definition started_tracker : BlobTracker (K := echo_kalman) * heap :=
  let '(t, h) := BlobTracker_init 490 2 one_mask ∅ in
  ((at_start t (frame_with centred_blob)).1, h).

(** The frame of the counterexample to C2: [hmd:], sixteen zero bytes,
    [lc:], thirty-three bytes of value one. *)
Definition two_marker_frame : bytes :=
  b_hmd ++ repeat x00 16 ++ b_lc ++ repeat x01 33.

(** The frame of the counterexample to C8: [lc:], then [hmd:] and sixteen
    zero bytes; twenty bytes follow [lc:], whose layout needs thirty-three. *)
Definition short_lc_frame : bytes := b_lc ++ b_hmd ++ repeat x00 16.

(** The injected values of the counterexample to C7: four floats, the
    first with the bit pattern [0x000a0d09], whose bytes on the wire are
    those of the terminator followed by a zero. *)
Definition terminator_floats : list value :=
  [VFloat 658697; VFloat 0; VFloat 0; VFloat 0].

(** The injected values of a second counterexample: seven floats and five
    flags for [lc:], whose first float has the bytes of ['hmd:']. *)
Definition marker_floats : list value :=
  [VFloat 979660136; VFloat 1; VFloat 2; VFloat 3; VFloat 4; VFloat 5; VFloat 6;
   VBool true; VBool false; VBool true; VBool false; VBool true].

(** * Properties *)

(** ** Byte strings *)

Lemma byte_eqb_refl (x : byte) : Byte.eqb x x = true.
Proof. now apply Byte.byte_dec_lb. Qed.

Lemma bytes_eqb_eq (a b : bytes) : bytes_eqb a b = true <-> a = b.
Proof.
  revert b. induction a as [|x a IH]; intros [|y b]; simpl; split; try easy.
  - intros [Hxy Hab]%andb_prop. apply Byte.byte_dec_bl in Hxy. apply IH in Hab. congruence.
  - intros [= -> ->]. rewrite byte_eqb_refl. now apply IH.
Qed.

Lemma startswith_app (sub rest : bytes) : startswith (sub ++ rest) sub = true.
Proof. induction sub as [|x sub IH]; simpl; [easy|]. now rewrite byte_eqb_refl. Qed.

Lemma startswith_inv (s sub : bytes) :
  startswith s sub = true -> s = sub ++ drop (length sub) s.
Proof.
  revert s. induction sub as [|x sub IH]; intros s Hs; simpl in *.
  - now rewrite drop_0.
  - destruct s as [|y s]; [easy|]. apply andb_prop in Hs as [Hxy Hs].
    apply Byte.byte_dec_bl in Hxy. subst y. simpl. f_equal. now apply IH.
Qed.

Lemma bytes_find_unfold (s sub : bytes) :
  bytes_find s sub =
    if startswith s sub then Some 0
    else match s with [] => None | _ :: s' => S <$> bytes_find s' sub end.
Proof. now destruct s. Qed.

Lemma bytes_find_prefix (sub rest : bytes) : bytes_find (sub ++ rest) sub = Some 0.
Proof. rewrite bytes_find_unfold. now rewrite startswith_app. Qed.

(** A found index splits the string around the first occurrence. *)
Lemma bytes_find_Some (s sub : bytes) (i : nat) :
  bytes_find s sub = Some i ->
  s = take i s ++ sub ++ drop (i + length sub) s.
Proof.
  revert i. induction s as [|x s IH]; intros i; rewrite bytes_find_unfold.
  - destruct (startswith [] sub) eqn:Hp; [|easy].
    intros [= <-]. now apply startswith_inv in Hp.
  - destruct (startswith (x :: s) sub) eqn:Hp.
    + intros [= <-]. now apply startswith_inv in Hp.
    + destruct (bytes_find s sub) as [j|] eqn:Hj; [|easy].
      intros [= <-]. simpl. f_equal. now apply IH.
Qed.

Lemma bytes_find_lt (s sub : bytes) (i : nat) :
  bytes_find s sub = Some i -> i + length sub <= length s.
Proof.
  revert i. induction s as [|x s IH]; intros i; rewrite bytes_find_unfold.
  - destruct (startswith [] sub) eqn:Hp; [|easy].
    intros [= <-]. apply startswith_inv in Hp. destruct sub; [simpl; lia|easy].
  - destruct (startswith (x :: s) sub) eqn:Hp.
    + intros [= <-]. apply startswith_inv in Hp.
      apply (f_equal length) in Hp. rewrite length_app in Hp. simpl in *. lia.
    + destruct (bytes_find s sub) as [j|] eqn:Hj; [|easy].
      intros [= <-]. specialize (IH j eq_refl). simpl. lia.
Qed.

(** The terminator cannot begin in a frame that does not contain it and end
    in the terminator that follows the frame. *)
Lemma startswith_TERMINATOR_app (x : byte) (frame rest : bytes) :
  startswith (x :: frame) TERMINATOR = false ->
  startswith (x :: frame ++ TERMINATOR ++ rest) TERMINATOR = false.
Proof.
  unfold TERMINATOR. simpl.
  destruct (Byte.eqb x09 x); [|easy]. simpl.
  destruct frame as [|y [|z frame]]; simpl; try easy.
  all: intros _; now rewrite andb_false_r.
Qed.

Lemma bytes_find_frame (frame rest : bytes) :
  bytes_find frame TERMINATOR = None ->
  bytes_find (frame ++ TERMINATOR ++ rest) TERMINATOR = Some (length frame).
Proof.
  induction frame as [|x frame IH]; intros Hn.
  - exact (bytes_find_prefix TERMINATOR rest).
  - rewrite bytes_find_unfold in Hn.
    destruct (startswith (x :: frame) TERMINATOR) eqn:Hp; [easy|].
    destruct (bytes_find frame TERMINATOR) eqn:Hf; [easy|].
    change ((x :: frame) ++ TERMINATOR ++ rest) with (x :: frame ++ TERMINATOR ++ rest).
    rewrite bytes_find_unfold, (startswith_TERMINATOR_app _ _ _ Hp), IH by easy.
    reflexivity.
Qed.

Lemma split_once_frame (frame rest : bytes) :
  bytes_find frame TERMINATOR = None ->
  split_once (frame ++ TERMINATOR ++ rest) TERMINATOR = Return (frame, rest).
Proof.
  intros Hn. unfold split_once. rewrite (bytes_find_frame _ _ Hn).
  f_equal. f_equal.
  - now rewrite take_app_length.
  - rewrite app_assoc, drop_app_length'; [easy|]. now rewrite length_app.
Qed.

(** ** [struct] *)

Lemma byte_of_N_to_N (n : N) : (n < 256)%N -> Byte.to_N (byte_of_N n) = n.
Proof.
  intros Hn. unfold byte_of_N. destruct (Byte.of_N n) as [b|] eqn:Hb.
  - now apply Byte.to_of_N.
  - apply Byte.of_N_None_iff in Hb. lia.
Qed.

Lemma le32_pack_f32 (bits : N) :
  (bits < 2 ^ 32)%N ->
  le32 (byte_of_N (bits mod 256)) (byte_of_N (bits / 256 mod 256))
       (byte_of_N (bits / 65536 mod 256)) (byte_of_N (bits / 16777216 mod 256)) = bits.
Proof.
  intros Hb. unfold le32. rewrite !byte_of_N_to_N by (apply N.mod_lt; lia).
  change (2 ^ 32)%N with 4294967296%N in Hb.
  assert (H1 := N.div_mod bits 256 ltac:(lia)).
  assert (H2 := N.div_mod (bits / 256) 256 ltac:(lia)).
  assert (H3 := N.div_mod (bits / 256 / 256) 256 ltac:(lia)).
  rewrite !N.Div0.div_div in H3. rewrite !N.Div0.div_div in H2.
  change (256 * 256)%N with 65536%N in *.
  change (65536 * 256)%N with 16777216%N in *.
  assert (H4 : (bits / 16777216 < 256)%N).
  { apply N.Div0.div_lt_upper_bound. lia. }
  rewrite (N.mod_small (bits / 16777216) 256) by easy.
  lia.
Qed.

Lemma unpack_pack (cs : list fmt_char) (vs : list value) (extra : bytes) :
  well_formed cs vs ->
  unpack_chars cs (pack_values vs ++ extra) = Return vs
  /\ length (pack_values vs) = list_sum (map char_size cs).
Proof.
  revert vs. induction cs as [|c cs IH]; intros [|v vs]; simpl; try easy.
  - now destruct c.
  - destruct c, v as [bits|b]; try easy.
    + intros [Hb Hw]. destruct (IH vs Hw) as [IH1 IH2].
      simpl. rewrite IH1, IH2. simpl. now rewrite (le32_pack_f32 bits Hb).
    + intros Hw. destruct (IH vs Hw) as [IH1 IH2]. simpl. rewrite IH1, IH2. simpl.
      now destruct b.
Qed.

(** On a buffer of at least [calcsize] bytes, [unpack_from] does not raise. *)
Lemma unpack_chars_total (cs : list fmt_char) (buf : bytes) :
  list_sum (map char_size cs) <= length buf ->
  exists vs, unpack_chars cs buf = Return vs.
Proof.
  revert buf. induction cs as [|c cs IH]; intros buf Hl; simpl in *; [now eexists|].
  destruct c; simpl in Hl.
  - destruct buf as [|b0 [|b1 [|b2 [|b3 buf]]]]; simpl in Hl; try lia.
    destruct (IH buf ltac:(lia)) as [vs ->]. simpl. now eexists.
  - destruct buf as [|b buf]; simpl in Hl; try lia.
    destruct (IH buf ltac:(lia)) as [vs ->]. simpl. now eexists.
Qed.

(** ** The packet reader *)

Lemma store_all_app (r : reader) (ps qs : list packet) :
  store_all r (ps ++ qs) = store_all (store_all r ps) qs.
Proof. apply fold_left_app. Qed.

Lemma store_all_buffer (r : reader) (ps : list packet) :
  buffer (store_all r ps) = buffer r.
Proof. revert r. induction ps as [|p ps IH]; intros r; simpl; [easy|]. now rewrite IH. Qed.

Lemma store_all_headed (r : reader) (ps : list packet) :
  _last_headed_packet (store_all r ps) = _last_headed_packet r.
Proof. revert r. induction ps as [|p ps IH]; intros r; simpl; [easy|]. now rewrite IH. Qed.

Lemma store_all_yielded (r : reader) (ps : list packet) :
  yielded (store_all r ps) = yielded r ++ ps.
Proof.
  revert r. induction ps as [|p ps IH]; intros r; simpl.
  - now rewrite app_nil_r.
  - rewrite IH. simpl. now rewrite <- app_assoc.
Qed.

Lemma store_all_last (r : reader) (ps : list packet) :
  _last_packet (store_all r ps) =
    match last ps with Some p => Some p | None => _last_packet r end.
Proof.
  revert r. induction ps as [|p ps IH]; intros r; [easy|].
  change (store_all r (p :: ps)) with (store_all (store_packet r p) ps).
  rewrite IH. destruct ps as [|q ps]; [easy|]. rewrite last_cons_cons.
  destruct (last (q :: ps)) eqn:Hq; [easy|]. now apply last_None in Hq.
Qed.

Lemma set_buffer_store_all (r : reader) (b : bytes) (ps : list packet) :
  store_all (set_buffer r b) ps = set_buffer (store_all r ps) b.
Proof. revert r. induction ps as [|p ps IH]; intros r; simpl; [easy|]. now rewrite <- IH. Qed.

Lemma decode_payload_length (h : bytes) (form : format) (data : bytes) :
  length (decode_payload h form data) <= 1.
Proof.
  unfold decode_payload. destruct (_ <=? _); [|simpl; lia].
  destruct (unpack_from _ _); simpl; lia.
Qed.

(** [handle_packet] on a heading of the table: it never raises, and stores
    the decoded packet exactly when enough bytes follow the marker. *)
Lemma handle_packet_spec (r : reader) (h : bytes) (form : format) (data : bytes) :
  bytes_mem h HEADINGS = true ->
  dict_get HEADING_FORMS h = Return form ->
  handle_packet r (h, data) = Return (store_all r (decode_payload h form data)).
Proof.
  intros Hm Hd. unfold handle_packet, decode_payload. simpl fst. simpl snd.
  rewrite Hm, Hd. simpl.
  rewrite length_take.
  destruct (Nat.leb_spec (calcsize form) (length data)) as [Hle|Hlt].
  - replace (calcsize form `min` length data) with (calcsize form) by lia.
    rewrite Nat.eqb_refl. simpl.
    destruct (unpack_chars_total (expand form) (take (calcsize form) data)) as [vs Hvs].
    { rewrite length_take. unfold calcsize in *. lia. }
    unfold unpack_from. now rewrite Hvs.
  - replace (calcsize form `min` length data) with (length data) by lia.
    destruct (Nat.eqb_spec (length data) (calcsize form)); [lia|]. reflexivity.
Qed.

Lemma for_headings_spec (hfs : list (bytes * format)) (frame : bytes) (r : reader) :
  Forall (fun hf => bytes_mem hf.1 HEADINGS = true
                    /\ dict_get HEADING_FORMS hf.1 = Return hf.2) hfs ->
  for_headings (map fst hfs) frame r
  = Return (store_all r (flat_map (decode_heading frame) hfs)).
Proof.
  intros Hall. revert r. induction Hall as [|[h form] hfs [Hm Hd] _ IH]; intros r; [easy|].
  simpl in Hm, Hd. simpl map. simpl flat_map. rewrite store_all_app.
  unfold for_headings; fold for_headings.
  unfold bytes_in, split_once, decode_heading. simpl fst. simpl snd.
  destruct (bytes_find frame h) as [i|]; simpl.
  - rewrite (handle_packet_spec _ _ _ _ Hm Hd). simpl. apply IH.
  - apply IH.
Qed.

Lemma HEADING_FORMS_ok :
  Forall (fun hf => bytes_mem hf.1 HEADINGS = true
                    /\ dict_get HEADING_FORMS hf.1 = Return hf.2) HEADING_FORMS.
Proof. repeat constructor. Qed.

(** One frame: every heading of [HEADINGS] is tried, in that order. *)
Lemma for_headings_HEADINGS (frame : bytes) (r : reader) :
  for_headings HEADINGS frame r = Return (store_all r (decodes frame)).
Proof. exact (for_headings_spec HEADING_FORMS frame r HEADING_FORMS_ok). Qed.

Lemma py_bind_Return {A B} (a : A) (f : A -> py B) : Return a ≫= f = f a.
Proof. reflexivity. Qed.

Lemma frames_loop_0 (r : reader) :
  frames_loop 0 r = if bytes_in TERMINATOR (buffer r) then Unfinished else Return r.
Proof. reflexivity. Qed.

Lemma frames_loop_S (n : nat) (r : reader) :
  frames_loop (S n) r =
    if bytes_in TERMINATOR (buffer r) then
      '(pkt, rest) ← split_once (buffer r) TERMINATOR;
      r' ← for_headings HEADINGS pkt (set_buffer r rest);
      frames_loop n r'
    else Return r.
Proof. reflexivity. Qed.

(** One turn of the loop, when the buffer holds a terminator at [i]. *)
Lemma frames_loop_step (n : nat) (r : reader) (i : nat) :
  bytes_find (buffer r) TERMINATOR = Some i ->
  frames_loop (S n) r =
    frames_loop n (store_all (set_buffer r (drop (i + 3) (buffer r)))
                             (decodes (take i (buffer r)))).
Proof.
  intros Hi. rewrite frames_loop_S. unfold bytes_in, split_once. rewrite Hi.
  rewrite py_bind_Return. cbv beta iota. rewrite for_headings_HEADINGS.
  now rewrite py_bind_Return.
Qed.

Lemma frames_loop_done (n : nat) (r : reader) :
  bytes_find (buffer r) TERMINATOR = None -> frames_loop n r = Return r.
Proof.
  intros Hi. destruct n; [rewrite frames_loop_0|rewrite frames_loop_S];
    unfold bytes_in; now rewrite Hi.
Qed.

(** Fuel beyond the length of the buffer changes nothing. *)
Lemma frames_loop_fuel (n : nat) (r : reader) :
  length (buffer r) <= n ->
  frames_loop n r = frames_loop (length (buffer r)) r.
Proof.
  revert r. induction (lt_wf n) as [n _ IH]. intros r Hn.
  destruct (bytes_find (buffer r) TERMINATOR) as [i|] eqn:Hi.
  - pose proof (bytes_find_lt _ _ _ Hi) as Hlt. simpl in Hlt.
    destruct n as [|n]; [lia|].
    destruct (length (buffer r)) as [|m] eqn:Hlen; [lia|].
    rewrite !(frames_loop_step _ _ _ Hi).
    set (r' := store_all _ _).
    assert (Hr' : length (buffer r') <= m).
    { subst r'. rewrite store_all_buffer. simpl. rewrite length_drop. lia. }
    rewrite (IH n) by lia. rewrite (IH m) by lia. reflexivity.
  - now rewrite !frames_loop_done.
Qed.

(** The loop ends within the fuel that [data_received] gives it, and
    nothing in it raises. *)
Lemma frames_loop_total (n : nat) (r : reader) :
  length (buffer r) <= n -> exists r', frames_loop n r = Return r'.
Proof.
  revert r. induction n as [|n IH]; intros r Hn;
    destruct (bytes_find (buffer r) TERMINATOR) as [i|] eqn:Hi;
    try (rewrite frames_loop_done by easy; now eexists).
  - apply bytes_find_lt in Hi. simpl in Hi. lia.
  - rewrite (frames_loop_step _ _ _ Hi). apply IH.
    rewrite store_all_buffer. simpl. rewrite length_drop.
    apply bytes_find_lt in Hi. simpl in Hi. lia.
Qed.

Lemma data_received_total (r : reader) (data : bytes) :
  exists r', data_received r data = Return r'.
Proof. unfold data_received. now apply frames_loop_total. Qed.

Lemma data_received_nil (r : reader) :
  buffer r = [] -> data_received r [] = Return r.
Proof. intros Hb. destruct r; simpl in *; subst. reflexivity. Qed.

(** Feeding a whole frame, its terminator and more bytes: the frame is
    handled, and the reader goes on with the remaining bytes from an empty
    buffer. *)
Lemma data_received_frame (r : reader) (chunk rest : bytes) :
  bytes_find (buffer r ++ chunk) TERMINATOR = None ->
  data_received r (chunk ++ TERMINATOR ++ rest)
  = data_received (set_buffer (store_all r (decodes (buffer r ++ chunk))) []) rest.
Proof.
  intros Hn. unfold data_received.
  set (frame := buffer r ++ chunk) in *.
  assert (Hb : buffer r ++ chunk ++ TERMINATOR ++ rest = frame ++ TERMINATOR ++ rest).
  { subst frame. now rewrite <- app_assoc. }
  cbn [buffer set_buffer app]. rewrite Hb.
  destruct (length (frame ++ TERMINATOR ++ rest)) as [|n] eqn:Hlen.
  { rewrite !length_app in Hlen. simpl in Hlen. lia. }
  rewrite (frames_loop_step n _ (length frame)).
  2: { cbn [buffer set_buffer]. now apply bytes_find_frame. }
  cbn [buffer set_buffer].
  rewrite take_app_length.
  replace (drop (length frame + 3) (frame ++ TERMINATOR ++ rest)) with rest.
  2: { rewrite app_assoc, drop_app_length'; [easy|]. now rewrite length_app. }
  rewrite !set_buffer_store_all.
  rewrite frames_loop_fuel.
  - reflexivity.
  - cbn [buffer set_buffer]. rewrite !length_app in Hlen. simpl in Hlen. lia.
Qed.

Lemma data_received_one_frame (r : reader) (chunk : bytes) :
  bytes_find (buffer r ++ chunk) TERMINATOR = None ->
  data_received r (chunk ++ TERMINATOR)
  = Return (set_buffer (store_all r (decodes (buffer r ++ chunk))) []).
Proof.
  intros Hn. rewrite <- (app_nil_r TERMINATOR), (data_received_frame r chunk [] Hn).
  now apply data_received_nil.
Qed.

(** *** Frames that start with a marker *)

Lemma bytes_find_cons_ne (x y : byte) (s sub : bytes) :
  Byte.eqb y x = false ->
  bytes_find (x :: s) (y :: sub) = S <$> bytes_find s (y :: sub).
Proof. intros Hxy. rewrite bytes_find_unfold. simpl startswith. now rewrite Hxy. Qed.

Lemma fmap_S_Some (o : option nat) (i : nat) :
  S <$> o = Some i -> exists j, o = Some j /\ i = S j.
Proof. destruct o as [j|]; [|easy]. intros [= <-]. now exists j. Qed.

(** Reduce a search in [marker ++ tail], for a pattern that cannot begin
    inside the marker, to the search in [tail]. *)
Ltac skip_marker :=
  unfold b_hmd, b_lc, b_rc, TERMINATOR; cbn [app];
  rewrite ?bytes_find_cons_ne by reflexivity.

Lemma marker_no_TERMINATOR (h : bytes) (tail : bytes) :
  In h HEADINGS ->
  bytes_find tail TERMINATOR = None ->
  bytes_find (h ++ tail) TERMINATOR = None.
Proof.
  intros Hh Ht. unfold HEADINGS in Hh. cbn [In] in Hh.
  destruct Hh as [<-|[<-|[<-|[]]]]; skip_marker; fold TERMINATOR; now rewrite Ht.
Qed.

(** In [h ++ tail], another marker [h'] can only be found inside [tail]. *)
Lemma marker_other (h h' : bytes) (tail : bytes) (i : nat) :
  In h HEADINGS -> In h' HEADINGS -> h' <> h ->
  bytes_find (h ++ tail) h' = Some i ->
  exists j, bytes_find tail h' = Some j /\ i = length h + j.
Proof.
  intros Hh Hh' Hne. unfold HEADINGS in Hh, Hh'. cbn [In] in Hh, Hh'.
  destruct Hh as [<-|[<-|[<-|[]]]]; destruct Hh' as [<-|[<-|[<-|[]]]];
    try easy; skip_marker; intros Hi;
    repeat (apply fmap_S_Some in Hi as (? & Hi & ->)); eexists; (split; [exact Hi|]);
    simpl; lia.
Qed.

Lemma decode_heading_self (h : bytes) (form : format) (vals : list value) (extra : bytes) :
  well_formed (expand form) vals ->
  decode_heading (h ++ pack_values vals ++ extra) (h, form) = [(h, vals)].
Proof.
  intros Hw. destruct (unpack_pack _ _ [] Hw) as [Hu Hl]. rewrite app_nil_r in Hu.
  unfold decode_heading. cbn [fst snd]. rewrite bytes_find_prefix. cbn [Nat.add].
  rewrite drop_app_length. unfold decode_payload.
  assert (Hc : calcsize form = length (pack_values vals)) by (now rewrite Hl).
  rewrite Hc, take_app_length.
  destruct (Nat.leb_spec (length (pack_values vals)) (length (pack_values vals ++ extra)))
    as [_|Hlt]; [|rewrite length_app in Hlt; lia].
  unfold unpack_from. now rewrite Hu.
Qed.

Lemma decode_heading_absent (frame : bytes) (hf : bytes * format) :
  bytes_find frame hf.1 = None -> decode_heading frame hf = [].
Proof. intros Hn. unfold decode_heading. now rewrite Hn. Qed.

Lemma decode_heading_short (frame : bytes) (hf : bytes * format) :
  (forall i, bytes_find frame hf.1 = Some i ->
             length (drop (i + length hf.1) frame) < calcsize hf.2) ->
  decode_heading frame hf = [].
Proof.
  intros Hs. unfold decode_heading. destruct (bytes_find frame hf.1) as [i|]; [|easy].
  specialize (Hs i eq_refl). unfold decode_payload.
  destruct (Nat.leb_spec (calcsize hf.2) (length (drop (i + length hf.1) frame))); [lia|easy].
Qed.

Lemma decodes_malformed (frame : bytes) : malformed frame -> decodes frame = [].
Proof.
  intros Hm. unfold decodes, HEADING_FORMS. cbn [flat_map].
  rewrite !decode_heading_short; [easy| | |]; intros i Hi; cbn [fst snd] in *;
    (eapply Hm; [|exact Hi]); unfold HEADING_FORMS; cbn [In]; eauto.
Qed.

(** A frame made of a marker and bytes that hold neither the terminator
    nor a marker decodes to the one packet of that marker. *)
Lemma decodes_clean (h : bytes) (form : format) (vals : list value) (extra : bytes) :
  In (h, form) HEADING_FORMS ->
  well_formed (expand form) vals ->
  (forall h', In h' HEADINGS -> bytes_find (pack_values vals ++ extra) h' = None) ->
  decodes (h ++ pack_values vals ++ extra) = [(h, vals)].
Proof.
  intros Hin Hw Hfree.
  assert (Hother : forall h' form', In h' HEADINGS -> h' <> h ->
            decode_heading (h ++ pack_values vals ++ extra) (h', form') = []).
  { intros h' form' Hh' Hne. apply decode_heading_absent. cbn [fst].
    destruct (bytes_find (h ++ pack_values vals ++ extra) h') as [i|] eqn:Hi; [|easy].
    apply marker_other in Hi as (j & Hj & _); try easy.
    - now rewrite Hfree in Hj.
    - unfold HEADING_FORMS in Hin. cbn [In] in Hin. unfold HEADINGS. cbn [In].
      destruct Hin as [[= <- _]|[[= <- _]|[[= <- _]|[]]]]; eauto. }
  unfold HEADING_FORMS in Hin. cbn [In] in Hin.
  destruct Hin as [[= <- <-]|[[= <- <-]|[[= <- <-]|[]]]];
    unfold decodes, HEADING_FORMS; cbn [flat_map];
    rewrite (decode_heading_self _ _ _ _ Hw);
    rewrite !Hother by (unfold HEADINGS; cbn [In]; first [easy | eauto]);
    reflexivity.
Qed.

(** A marker found in [h ++ tail] too close to the end of [tail] decodes
    to nothing. *)
Lemma decode_heading_later (h h' : bytes) (form' : format) (tail : bytes) :
  In h HEADINGS -> In h' HEADINGS -> h' <> h ->
  length tail < length h' + calcsize form' ->
  decode_heading (h ++ tail) (h', form') = [].
Proof.
  intros Hh Hh' Hne Hlen. apply decode_heading_short. cbn [fst snd]. intros i Hi.
  apply marker_other in Hi as (j & Hj & ->); try easy.
  apply bytes_find_lt in Hj. rewrite length_drop, length_app. lia.
Qed.

(** Whatever else a frame [marker ++ payload] makes the reader decode, the
    packet of its own marker is decoded last. *)
Lemma decodes_last (h : bytes) (form : format) (vals : list value) :
  In (h, form) HEADING_FORMS ->
  well_formed (expand form) vals ->
  last (decodes (h ++ pack_values vals)) = Some (h, vals).
Proof.
  intros Hin Hw.
  pose proof (decode_heading_self h form vals [] Hw) as Hself.
  rewrite app_nil_r in Hself.
  destruct (unpack_pack _ _ [] Hw) as [_ Hl]. fold (calcsize form) in Hl.
  unfold HEADING_FORMS in Hin. cbn [In] in Hin.
  destruct Hin as [[= <- <-]|[[= <- <-]|[[= <- <-]|[]]]];
    unfold decodes, HEADING_FORMS; cbn [flat_map]; rewrite Hself;
    rewrite ?app_nil_r.
  - rewrite !decode_heading_later;
      [reflexivity | | | | | | | |];
      try (unfold HEADINGS; cbn [In]; now eauto); try easy;
      rewrite Hl; vm_compute; lia.
  - rewrite (decode_heading_later b_lc b_rc);
      [ | unfold HEADINGS; cbn [In]; now eauto ..| easy | rewrite Hl; vm_compute; lia].
    rewrite app_nil_r. apply last_snoc.
  - rewrite app_assoc. apply last_snoc.
Qed.

(** Feeding a frame whose bytes after the marker hold neither the
    terminator nor a marker. *)
Lemma clean_frame (r : reader) (h : bytes) (form : format) (vals : list value)
    (extra : bytes) :
  In (h, form) HEADING_FORMS ->
  well_formed (expand form) vals ->
  buffer r = [] ->
  bytes_find (pack_values vals ++ extra) TERMINATOR = None ->
  (forall h', In h' HEADINGS -> bytes_find (pack_values vals ++ extra) h' = None) ->
  data_received r (h ++ (pack_values vals ++ extra) ++ TERMINATOR)
  = Return (store_packet r (h, vals)).
Proof.
  intros Hin Hw Hb Ht Hfree.
  assert (Hh : In h HEADINGS).
  { unfold HEADING_FORMS in Hin. cbn [In] in Hin. unfold HEADINGS. cbn [In].
    destruct Hin as [[= <- _]|[[= <- _]|[[= <- _]|[]]]]; eauto. }
  rewrite app_assoc, data_received_one_frame; rewrite Hb; cbn [app].
  - rewrite (decodes_clean h form) by easy. destruct r; simpl in *; now subst.
  - now apply marker_no_TERMINATOR.
Qed.

(** ** Claims about the packet reader *)

(** C2, counterexample.  In [two_marker_frame] the earliest marker is
    [hmd:], yet the reader decodes two packets from it and keeps the [lc:]
    one: the first match does not govern. *)
Lemma first_match_does_not_govern : ~ first_match_governs two_marker_frame.
Proof.
  intros Hc.
  destruct (data_received_total new_reader (two_marker_frame ++ TERMINATOR)) as [r' Hr'].
  destruct (Hc (b_hmd, form_4f) r' eq_refl Hr') as [Hy _].
  vm_compute in Hr'. injection Hr' as <-. vm_compute in Hy. discriminate Hy.
Qed.

(** C2, as amended.  A terminator-delimited frame is offered to every
    heading of [HEADINGS] in turn, in the order [hmd:], [lc:], [rc:] of
    that list and whatever the positions of the markers in the frame: each
    heading that occurs gets one decode attempt, on the bytes after its
    first occurrence, and each successful attempt overwrites the stored
    packet.  The stored packet after the frame is therefore the one decoded
    for the last heading in list order whose payload was long enough, and
    the previous one when there is none. *)
Theorem headings_govern_in_list_order (r : reader) (chunk : bytes) :
  bytes_find (buffer r ++ chunk) TERMINATOR = None ->
  exists r',
    data_received r (chunk ++ TERMINATOR) = Return r'
    /\ buffer r' = []
    /\ yielded r' = yielded r
                    ++ decode_heading (buffer r ++ chunk) (b_hmd, form_4f)
                    ++ decode_heading (buffer r ++ chunk) (b_lc, form_7f5q)
                    ++ decode_heading (buffer r ++ chunk) (b_rc, form_7f5q)
    /\ length (decode_heading (buffer r ++ chunk) (b_hmd, form_4f)) <= 1
    /\ length (decode_heading (buffer r ++ chunk) (b_lc, form_7f5q)) <= 1
    /\ length (decode_heading (buffer r ++ chunk) (b_rc, form_7f5q)) <= 1
    /\ last_read r' =
         match last (decode_heading (buffer r ++ chunk) (b_hmd, form_4f)
                     ++ decode_heading (buffer r ++ chunk) (b_lc, form_7f5q)
                     ++ decode_heading (buffer r ++ chunk) (b_rc, form_7f5q)) with
         | Some p => Some p
         | None => last_read r
         end.
Proof.
  intros Hn. eexists. split; [now apply data_received_one_frame|].
  assert (Hlen : forall hf, length (decode_heading (buffer r ++ chunk) hf) <= 1).
  { intros hf. unfold decode_heading. destruct (bytes_find _ hf.1); [|simpl; lia].
    apply decode_payload_length. }
  unfold last_read. cbn [buffer _last_packet yielded set_buffer].
  rewrite store_all_yielded, store_all_last.
  unfold decodes, HEADING_FORMS. cbn [flat_map]. rewrite !app_nil_r.
  repeat split; auto.
Qed.

(** C2, an instance: the frame with two markers, fed to a new reader. *)
Lemma headings_govern_in_list_order_witness :
  bytes_find (buffer new_reader ++ two_marker_frame) TERMINATOR = None
  /\ exists r',
       data_received new_reader (two_marker_frame ++ TERMINATOR) = Return r'
       /\ length (yielded r') = 2
       /\ last_read r'
          = Some (b_lc, repeat (VFloat 16843009) 7 ++ repeat (VBool true) 5).
Proof.
  split; [reflexivity|].
  destruct (headings_govern_in_list_order new_reader two_marker_frame eq_refl)
    as (r' & Hr' & _ & Hy & _ & _ & _ & Hl).
  exists r'. split; [exact Hr'|]. rewrite Hy, Hl. split; reflexivity.
Defined.

(** C7, counterexample.  Both frames are a marker, a payload of exactly
    the expected length that encodes well-formed values, and the
    terminator.  The first yields no packet at all, because the payload
    contains the bytes of the terminator; the second yields two packets,
    because the payload contains the bytes of another marker. *)
Lemma exact_frame_not_always_decoded :
  (In (b_hmd, form_4f) HEADING_FORMS
   /\ well_formed (expand form_4f) terminator_floats
   /\ length (pack_values terminator_floats) = calcsize form_4f
   /\ ~ exact_frame_decodes b_hmd terminator_floats)
  /\ (In (b_lc, form_7f5q) HEADING_FORMS
      /\ well_formed (expand form_7f5q) marker_floats
      /\ length (pack_values marker_floats) = calcsize form_7f5q
      /\ ~ exact_frame_decodes b_lc marker_floats).
Proof.
  split; (split; [unfold HEADING_FORMS; cbn [In]; now eauto|]);
    (split; [vm_compute; intuition lia|]); (split; [reflexivity|]);
    intros Hc.
  - destruct (data_received_total new_reader
                (b_hmd ++ pack_values terminator_floats ++ TERMINATOR)) as [r' Hr'].
    destruct (Hc r' Hr') as [Hy _].
    vm_compute in Hr'. injection Hr' as <-. discriminate Hy.
  - destruct (data_received_total new_reader
                (b_lc ++ pack_values marker_floats ++ TERMINATOR)) as [r' Hr'].
    destruct (Hc r' Hr') as [Hy _].
    vm_compute in Hr'. injection Hr' as <-. discriminate Hy.
Qed.

(** A frame made of a marker and bytes in which every other marker that
    occurs is followed by too few bytes decodes to the one packet of its
    own marker. *)
Lemma decodes_own (h : bytes) (form : format) (vals : list value) (extra : bytes) :
  In (h, form) HEADING_FORMS ->
  well_formed (expand form) vals ->
  (forall h' form' j,
     In (h', form') HEADING_FORMS -> h' <> h ->
     bytes_find (pack_values vals ++ extra) h' = Some j ->
     length (drop (j + length h') (pack_values vals ++ extra)) < calcsize form') ->
  decodes (h ++ pack_values vals ++ extra) = [(h, vals)].
Proof.
  intros Hin Hw Hshort.
  assert (Hh : In h HEADINGS).
  { unfold HEADING_FORMS in Hin. cbn [In] in Hin. unfold HEADINGS. cbn [In].
    destruct Hin as [[= <- _]|[[= <- _]|[[= <- _]|[]]]]; eauto. }
  assert (Hother : forall h' form', In (h', form') HEADING_FORMS -> h' <> h ->
            decode_heading (h ++ pack_values vals ++ extra) (h', form') = []).
  { intros h' form' Hin' Hne. apply decode_heading_short. cbn [fst snd]. intros i Hi.
    assert (Hh' : In h' HEADINGS).
    { unfold HEADING_FORMS in Hin'. cbn [In] in Hin'. unfold HEADINGS. cbn [In].
      destruct Hin' as [[= <- _]|[[= <- _]|[[= <- _]|[]]]]; eauto. }
    apply marker_other in Hi as (j & Hj & ->); try easy.
    rewrite <- Nat.add_assoc, drop_app_add. now apply (Hshort h' form' j). }
  unfold HEADING_FORMS in Hin. cbn [In] in Hin.
  destruct Hin as [[= <- <-]|[[= <- <-]|[[= <- <-]|[]]]];
    unfold decodes, HEADING_FORMS; cbn [flat_map];
    rewrite (decode_heading_self _ _ _ _ Hw);
    rewrite !Hother by (first [easy | unfold HEADING_FORMS; cbn [In]; now eauto]);
    reflexivity.
Qed.

(** C7, as amended.  For a marker of the table, values that fit its layout
    (floats first, then flags) and any further bytes, such that the bytes
    after the marker do not contain the terminator and every other marker
    that occurs in them is followed by fewer bytes than its own layout
    needs: feeding marker, packed values, further bytes and terminator to a
    reader with an empty buffer yields exactly one packet, whose header is
    the marker and whose fields are the injected values; the bytes beyond
    the expected length are ignored. *)
Theorem clean_frame_yields_its_packet (r : reader) (h : bytes) (form : format)
    (vals : list value) (extra : bytes) :
  In (h, form) HEADING_FORMS ->
  well_formed (expand form) vals ->
  buffer r = [] ->
  bytes_find (pack_values vals ++ extra) TERMINATOR = None ->
  (forall h' form' j,
     In (h', form') HEADING_FORMS -> h' <> h ->
     bytes_find (pack_values vals ++ extra) h' = Some j ->
     length (drop (j + length h') (pack_values vals ++ extra)) < calcsize form') ->
  length (pack_values vals) = calcsize form
  /\ exists r',
       data_received r (h ++ (pack_values vals ++ extra) ++ TERMINATOR) = Return r'
       /\ yielded r' = yielded r ++ [(h, vals)]
       /\ last_read r' = Some (h, vals)
       /\ buffer r' = [].
Proof.
  intros Hin Hw Hb Ht Hshort. split.
  - now destruct (unpack_pack _ _ [] Hw).
  - assert (Hh : In h HEADINGS).
    { unfold HEADING_FORMS in Hin. cbn [In] in Hin. unfold HEADINGS. cbn [In].
      destruct Hin as [[= <- _]|[[= <- _]|[[= <- _]|[]]]]; eauto. }
    eexists. split.
    + rewrite app_assoc, data_received_one_frame; rewrite Hb; cbn [app].
      * rewrite (decodes_own h form) by easy. reflexivity.
      * now apply marker_no_TERMINATOR.
    + now cbn.
Qed.

(** C7, an instance: after [hmd:], four floats of which the first has the
    bytes of ['lc:'] and a zero, and two bytes too many.  The marker [lc:]
    is found in the frame, fifteen bytes before its end. *)
Lemma clean_frame_yields_its_packet_witness :
  let vals := [VFloat 3826540; VFloat 0; VFloat 3212836864; VFloat 1073741824] in
  let extra := [x2a; x2a] in
  In (b_hmd, form_4f) HEADING_FORMS
  /\ well_formed (expand form_4f) vals
  /\ buffer new_reader = []
  /\ bytes_find (pack_values vals ++ extra) TERMINATOR = None
  /\ bytes_find (pack_values vals ++ extra) b_lc = Some 0
  /\ (forall h' form' j,
        In (h', form') HEADING_FORMS -> h' <> b_hmd ->
        bytes_find (pack_values vals ++ extra) h' = Some j ->
        length (drop (j + length h') (pack_values vals ++ extra)) < calcsize form')
  /\ exists r',
       data_received new_reader (b_hmd ++ (pack_values vals ++ extra) ++ TERMINATOR)
       = Return r'
       /\ yielded r' = [(b_hmd, vals)]
       /\ last_read r' = Some (b_hmd, vals).
Proof.
  intros vals extra.
  assert (Hin : In (b_hmd, form_4f) HEADING_FORMS) by (unfold HEADING_FORMS; cbn [In]; eauto).
  assert (Hw : well_formed (expand form_4f) vals) by (vm_compute; intuition lia).
  assert (Hshort : forall h' form' j,
            In (h', form') HEADING_FORMS -> h' <> b_hmd ->
            bytes_find (pack_values vals ++ extra) h' = Some j ->
            length (drop (j + length h') (pack_values vals ++ extra)) < calcsize form').
  { intros h' form' j Hin' Hne Hj. unfold HEADING_FORMS in Hin'. cbn [In] in Hin'.
    destruct Hin' as [[= <- <-]|[[= <- <-]|[[= <- <-]|[]]]]; [easy| |].
    - vm_compute in Hj. injection Hj as <-. vm_compute. lia.
    - vm_compute in Hj. discriminate Hj. }
  repeat (split; [first [assumption | reflexivity]|]).
  destruct (clean_frame_yields_its_packet new_reader b_hmd form_4f vals extra
              Hin Hw eq_refl eq_refl Hshort) as (_ & r' & Hr' & Hy & Hl & _).
  exists r'. auto.
Defined.

(** C8, counterexample.  In [short_lc_frame] the marker [lc:] is followed
    by too few bytes, and the frame still yields a packet, the one of the
    [hmd:] that these bytes begin with. *)
Lemma short_payload_not_always_dropped : ~ short_payload_is_dropped short_lc_frame.
Proof.
  intros Hc.
  destruct (data_received_total new_reader (short_lc_frame ++ TERMINATOR)) as [r' Hr'].
  assert (Hshort : exists h form i,
            In (h, form) HEADING_FORMS
            /\ bytes_find short_lc_frame h = Some i
            /\ length (drop (i + length h) short_lc_frame) < calcsize form).
  { exists b_lc, form_7f5q, 0. split; [unfold HEADING_FORMS; cbn [In]; now eauto|].
    split; [reflexivity|]. vm_compute. lia. }
  destruct (Hc Hshort r' Hr') as [Hy _].
  vm_compute in Hr'. injection Hr' as <-. discriminate Hy.
Qed.

(** C8, as amended.  A frame in which every marker that occurs is followed
    by fewer bytes than its layout needs, and so a frame without any marker:
    the reader returns normally, yields no packet and keeps the stored packet;
    what is fed after the frame is decoded as by a reader that never saw
    the frame, and in particular a well-formed frame that follows yields
    its packet. *)
Theorem malformed_frame_is_dropped (r : reader) (chunk : bytes) :
  bytes_find (buffer r ++ chunk) TERMINATOR = None ->
  malformed (buffer r ++ chunk) ->
  data_received r (chunk ++ TERMINATOR) = Return (set_buffer r [])
  /\ yielded (set_buffer r []) = yielded r
  /\ last_read (set_buffer r []) = last_read r
  /\ (forall rest,
        data_received r (chunk ++ TERMINATOR ++ rest)
        = data_received (set_buffer r []) rest)
  /\ (forall h form vals,
        In (h, form) HEADING_FORMS ->
        well_formed (expand form) vals ->
        bytes_find (pack_values vals) TERMINATOR = None ->
        (forall h', In h' HEADINGS -> bytes_find (pack_values vals) h' = None) ->
        exists r',
          data_received r (chunk ++ TERMINATOR ++ h ++ pack_values vals ++ TERMINATOR)
          = Return r'
          /\ yielded r' = yielded r ++ [(h, vals)]
          /\ last_read r' = Some (h, vals)).
Proof.
  intros Hn Hm.
  assert (Hrest : forall rest, data_received r (chunk ++ TERMINATOR ++ rest)
                               = data_received (set_buffer r []) rest).
  { intros rest. rewrite (data_received_frame r chunk rest Hn).
    now rewrite (decodes_malformed _ Hm). }
  repeat split; try easy.
  - rewrite (data_received_one_frame r chunk Hn). now rewrite (decodes_malformed _ Hm).
  - intros h form vals Hin Hw Ht Hfree. rewrite Hrest.
    pose proof (clean_frame (set_buffer r []) h form vals [] Hin Hw eq_refl) as Hc.
    rewrite !app_nil_r in Hc. rewrite (Hc Ht Hfree). eexists. split; [reflexivity|].
    now split.
Qed.

(** C8, an instance: [lc:] with ten bytes, fed to a reader that holds an
    [hmd:] packet. *)
Lemma malformed_frame_is_dropped_witness :
  let chunk := b_lc ++ repeat x07 10 in
  let r := store_packet new_reader (b_hmd, repeat (VFloat 0) 4) in
  bytes_find (buffer r ++ chunk) TERMINATOR = None
  /\ malformed (buffer r ++ chunk)
  /\ data_received r (chunk ++ TERMINATOR) = Return (set_buffer r [])
  /\ last_read (set_buffer r []) = Some (b_hmd, repeat (VFloat 0) 4).
Proof.
  intros chunk r.
  assert (Hm : malformed (buffer r ++ chunk)).
  { intros h form i Hin. unfold HEADING_FORMS in Hin. cbn [In] in Hin.
    destruct Hin as [[= <- <-]|[[= <- <-]|[[= <- <-]|[]]]]; vm_compute;
      try discriminate; intros [= <-]; lia. }
  split; [reflexivity|]. split; [exact Hm|].
  destruct (malformed_frame_is_dropped r chunk eq_refl Hm) as (Hd & _ & Hl & _).
  split; [exact Hd|exact Hl].
Defined.

(** C10.  The reader has one slot, [_last_packet], for all three headers.
    A successful decode stores its packet there whatever the slot held,
    also a packet of another header; and after a valid [hmd:] frame
    followed by a valid [lc:] frame the packet read back is the [lc:]
    packet, the [hmd:] packet being gone: the only other attribute that
    could hold a packet, [_last_headed_packet], is never written. *)
Theorem one_slot_for_all_headers (r : reader) (vals_hmd vals_lc : list value) :
  buffer r = [] ->
  well_formed (expand form_4f) vals_hmd ->
  well_formed (expand form_7f5q) vals_lc ->
  bytes_find (pack_values vals_hmd) TERMINATOR = None ->
  bytes_find (pack_values vals_lc) TERMINATOR = None ->
  (exists r1 r2,
     data_received r (b_hmd ++ pack_values vals_hmd ++ TERMINATOR) = Return r1
     /\ last_read r1 = Some (b_hmd, vals_hmd)
     /\ data_received r1 (b_lc ++ pack_values vals_lc ++ TERMINATOR) = Return r2
     /\ last_read r2 = Some (b_lc, vals_lc)
     /\ last_read r2 <> Some (b_hmd, vals_hmd)
     /\ _last_headed_packet r2 = _last_headed_packet r)
  /\ (forall r0 h form data,
        In (h, form) HEADING_FORMS ->
        calcsize form <= length data ->
        exists vals,
          unpack_from form (take (calcsize form) data) = Return vals
          /\ handle_packet r0 (h, data) = Return (store_packet r0 (h, vals))
          /\ last_read (store_packet r0 (h, vals)) = Some (h, vals)).
Proof.
  intros Hb Hw1 Hw2 Ht1 Ht2. split.
  - assert (Hf1 : bytes_find (buffer r ++ b_hmd ++ pack_values vals_hmd) TERMINATOR = None).
    { rewrite Hb. cbn [app].
      apply (marker_no_TERMINATOR b_hmd); [unfold HEADINGS; cbn [In]; eauto|easy]. }
    eexists. eexists. split.
    { rewrite app_assoc. now apply data_received_one_frame. }
    rewrite Hb. cbn [app]. unfold last_read at 1.
    cbn [buffer _last_packet set_buffer]. rewrite store_all_last.
    rewrite (decodes_last b_hmd form_4f) by (try easy; unfold HEADING_FORMS; cbn [In]; eauto).
    split; [reflexivity|].
    assert (Hf2 : bytes_find (b_lc ++ pack_values vals_lc) TERMINATOR = None).
    { apply (marker_no_TERMINATOR b_lc); [unfold HEADINGS; cbn [In]; eauto|easy]. }
    split.
    { rewrite app_assoc. now apply data_received_one_frame. }
    cbn [app buffer set_buffer]. unfold last_read.
    cbn [buffer _last_packet set_buffer]. rewrite store_all_last.
    rewrite (decodes_last b_lc form_7f5q) by (try easy; unfold HEADING_FORMS; cbn [In]; eauto).
    split; [reflexivity|]. split.
    + intros Hx.
      apply (f_equal (fun o : option packet => length <$> (fst <$> o))) in Hx.
      discriminate Hx.
    + cbn [set_buffer _last_headed_packet]. rewrite store_all_headed.
      cbn [set_buffer _last_headed_packet]. now rewrite store_all_headed.
  - intros r0 h form data Hin Hlen.
    destruct (unpack_chars_total (expand form) (take (calcsize form) data)) as [vals Hv].
    { rewrite length_take. unfold calcsize in *. lia. }
    exists vals. split; [exact Hv|]. split; [|reflexivity].
    rewrite (handle_packet_spec r0 h form data).
    + unfold decode_payload. destruct (Nat.leb_spec (calcsize form) (length data)); [|lia].
      unfold unpack_from in *. now rewrite Hv.
    + unfold HEADING_FORMS in Hin. cbn [In] in Hin.
      destruct Hin as [[= <- _]|[[= <- _]|[[= <- _]|[]]]]; reflexivity.
    + unfold HEADING_FORMS in Hin. cbn [In] in Hin.
      destruct Hin as [[= <- <-]|[[= <- <-]|[[= <- <-]|[]]]]; reflexivity.
Qed.

(** C10, an instance: a new reader, an [hmd:] frame, an [lc:] frame. *)
Lemma one_slot_for_all_headers_witness :
  let vals_hmd := [VFloat 1065353216; VFloat 0; VFloat 0; VFloat 0] in
  let vals_lc := repeat (VFloat 1073741824) 7 ++ [VBool true; VBool false; VBool false;
                                                 VBool true; VBool false] in
  exists r1 r2,
    data_received new_reader (b_hmd ++ pack_values vals_hmd ++ TERMINATOR) = Return r1
    /\ last_read r1 = Some (b_hmd, vals_hmd)
    /\ data_received r1 (b_lc ++ pack_values vals_lc ++ TERMINATOR) = Return r2
    /\ last_read r2 = Some (b_lc, vals_lc).
Proof.
  intros vals_hmd vals_lc.
  assert (Hw1 : well_formed (expand form_4f) vals_hmd) by (vm_compute; intuition lia).
  assert (Hw2 : well_formed (expand form_7f5q) vals_lc) by (vm_compute; intuition lia).
  destruct (one_slot_for_all_headers new_reader vals_hmd vals_lc
              eq_refl Hw1 Hw2 eq_refl eq_refl) as [(r1 & r2 & H1 & H2 & H3 & H4 & _) _].
  exists r1, r2. auto.
Defined.

(** ** [LazyKalman] *)

Section KalmanFacts.
Context {K : PyKalman} {obj : Type}.
Implicit Types (k : LazyKalman.t obj) (read : obj -> vec3) (obz : obj).

(** Name the state that a call has computed. *)
Ltac exists_state :=
  match goal with
  | |- exists k', Return (?r, _) = Return (k', _) /\ _ => exists r
  end.

Lemma last_row_kf_filter (kf : KalmanFilter) (X : list vec3) :
  X <> [] -> exists m c, last (kf_filter kf X) = Some (m, c).
Proof.
  intros HX. destruct (last (kf_filter kf X)) as [[m c]|] eqn:Hl; [now eauto|].
  apply last_None in Hl. apply (f_equal length) in Hl.
  rewrite kf_filter_length in Hl. now destruct X.
Qed.

(** The filtering statement touches the estimate and nothing else. *)
Lemma filter_step_frame read k obz :
  LazyKalman._calibration_countdown (LazyKalman.filter_step read k obz)
  = LazyKalman._calibration_countdown k
  /\ LazyKalman._calibration_observations (LazyKalman.filter_step read k obz)
     = LazyKalman._calibration_observations k
  /\ LazyKalman.refits (LazyKalman.filter_step read k obz) = LazyKalman.refits k
  /\ LazyKalman._filter (LazyKalman.filter_step read k obz) = LazyKalman._filter k
  /\ LazyKalman._em_iter (LazyKalman.filter_step read k obz) = LazyKalman._em_iter k.
Proof.
  unfold LazyKalman.filter_step.
  destruct (LazyKalman.do_learning k), (filter_update _ _ _ _) as [x p]; now cbn.
Qed.

(** A call with the countdown at zero: the observation is filtered and
    nothing else happens. *)
Lemma apply_idle read k obz :
  LazyKalman._calibration_countdown k = 0%Z ->
  exists k',
    LazyKalman.apply read k obz = Return (k', LazyKalman._x_now k')
    /\ LazyKalman._calibration_countdown k' = 0%Z
    /\ LazyKalman._calibration_observations k' = LazyKalman._calibration_observations k
    /\ LazyKalman.refits k' = LazyKalman.refits k
    /\ LazyKalman._filter k' = LazyKalman._filter k
    /\ LazyKalman._em_iter k' = LazyKalman._em_iter k.
Proof.
  intros H0. unfold LazyKalman.apply.
  destruct (filter_step_frame read k obz) as (Hc & Ho & Hr & Hf & He).
  set (k1 := LazyKalman.filter_step read k obz) in *.
  rewrite Hc, H0. cbn. exists k1. repeat split; congruence.
Qed.

(** A call with the countdown above one: the observation joins the buffer
    and the countdown drops by one. *)
Lemma apply_counting read k obz :
  LazyKalman._calibration_countdown k <> 0%Z ->
  LazyKalman._calibration_countdown k <> 1%Z ->
  exists k',
    LazyKalman.apply read k obz = Return (k', LazyKalman._x_now k')
    /\ LazyKalman._calibration_countdown k' = (LazyKalman._calibration_countdown k - 1)%Z
    /\ LazyKalman._calibration_observations k'
       = LazyKalman._calibration_observations k ++ [obz]
    /\ LazyKalman.refits k' = LazyKalman.refits k
    /\ LazyKalman._filter k' = LazyKalman._filter k
    /\ LazyKalman._em_iter k' = LazyKalman._em_iter k.
Proof.
  intros H0 H1. unfold LazyKalman.apply.
  destruct (filter_step_frame read k obz) as (Hc & Ho & Hr & Hf & He).
  set (k1 := LazyKalman.filter_step read k obz) in *.
  cbn [LazyKalman.buffer_observation LazyKalman._calibration_countdown].
  rewrite Hc.
  destruct (Z.eqb_spec (LazyKalman._calibration_countdown k) 0); [easy|].
  destruct (Z.eqb_spec (LazyKalman._calibration_countdown k - 1) 0); [lia|].
  cbn. exists (LazyKalman.buffer_observation k1 obz). cbn.
  repeat split; congruence.
Qed.

(** The call that brings the countdown to zero: one run of
    [_run_calibration], on the buffer with this observation at its end. *)
Lemma apply_refit read k obz :
  LazyKalman._calibration_countdown k = 1%Z ->
  let X := map read (LazyKalman._calibration_observations k ++ [obz]) in
  exists k',
    LazyKalman.apply read k obz = Return (k', LazyKalman._x_now k')
    /\ LazyKalman._calibration_countdown k' = 0%Z
    /\ LazyKalman._calibration_observations k' = []
    /\ LazyKalman.refits k' = LazyKalman.refits k ++ [(X, LazyKalman._em_iter k)]
    /\ LazyKalman._filter k' = em (LazyKalman._filter k) X (LazyKalman._em_iter k)
    /\ last (kf_filter (LazyKalman._filter k') X)
       = Some (LazyKalman._x_now k', LazyKalman._p_now k')
    /\ LazyKalman._em_iter k' = LazyKalman._em_iter k.
Proof.
  intros H1 X. unfold LazyKalman.apply.
  destruct (filter_step_frame read k obz) as (Hc & Ho & Hr & Hf & He).
  set (k1 := LazyKalman.filter_step read k obz) in *.
  cbn [LazyKalman.buffer_observation LazyKalman._calibration_countdown].
  rewrite Hc, H1. change (1 =? 0)%Z with false. change (1 - 1 =? 0)%Z with true.
  cbv iota. cbn [negb]. unfold LazyKalman._run_calibration, LazyKalman.buffer_observation.
  cbn [LazyKalman._calibration_observations LazyKalman._filter LazyKalman._em_iter
       LazyKalman.do_learning LazyKalman._calibration_countdown LazyKalman.refits].
  rewrite Ho, Hf, He, Hr. fold X.
  destruct (last_row_kf_filter (em (LazyKalman._filter k) X (LazyKalman._em_iter k)) X)
    as (m & c & Hl).
  { subst X. rewrite map_app. now destruct (map read _). }
  unfold last_row. rewrite Hl. cbn. exists_state. cbn.
  repeat split; try easy. lia.
Qed.

Lemma apply_all_app k (calls1 calls2 : list ((obj -> vec3) * obj)) :
  LazyKalman.apply_all k (calls1 ++ calls2)
  = LazyKalman.apply_all k calls1 ≫= fun k' => LazyKalman.apply_all k' calls2.
Proof.
  revert k. induction calls1 as [|[read obz] calls1 IH]; intros k; [easy|].
  cbn [app LazyKalman.apply_all].
  destruct (LazyKalman.apply read k obz) as [[k' x]| |]; cbn; [apply IH|easy|easy].
Qed.

(** Fewer calls than the countdown: every call buffers its observation. *)
Lemma apply_all_counting k (calls : list ((obj -> vec3) * obj)) :
  (Z.of_nat (length calls) < LazyKalman._calibration_countdown k)%Z ->
  exists k',
    LazyKalman.apply_all k calls = Return k'
    /\ LazyKalman._calibration_countdown k'
       = (LazyKalman._calibration_countdown k - Z.of_nat (length calls))%Z
    /\ LazyKalman._calibration_observations k'
       = LazyKalman._calibration_observations k ++ map snd calls
    /\ LazyKalman.refits k' = LazyKalman.refits k
    /\ LazyKalman._filter k' = LazyKalman._filter k
    /\ LazyKalman._em_iter k' = LazyKalman._em_iter k.
Proof.
  revert k. induction calls as [|[read obz] calls IH]; intros k Hlt.
  - exists k. cbn. rewrite app_nil_r. repeat split; lia.
  - cbn [length] in Hlt.
    destruct (apply_counting read k obz) as (k1 & Ha & Hc & Ho & Hr & Hf & He); [lia..|].
    destruct (IH k1) as (k' & Ha' & Hc' & Ho' & Hr' & Hf' & He'); [lia|].
    exists k'. cbn [LazyKalman.apply_all]. rewrite Ha. cbn.
    split; [exact Ha'|]. rewrite Hc', Ho', Hr', Hf', He', Hc, Ho, Hr, Hf, He.
    cbn [map length snd]. rewrite <- app_assoc. repeat split; lia.
Qed.

(** With the countdown at zero, calls neither buffer nor re-fit. *)
Lemma apply_all_idle k (calls : list ((obj -> vec3) * obj)) :
  LazyKalman._calibration_countdown k = 0%Z ->
  exists k',
    LazyKalman.apply_all k calls = Return k'
    /\ LazyKalman._calibration_countdown k' = 0%Z
    /\ LazyKalman._calibration_observations k' = LazyKalman._calibration_observations k
    /\ LazyKalman.refits k' = LazyKalman.refits k
    /\ LazyKalman._filter k' = LazyKalman._filter k.
Proof.
  revert k. induction calls as [|[read obz] calls IH]; intros k H0.
  - now exists k.
  - destruct (apply_idle read k obz H0) as (k1 & Ha & Hc & Ho & Hr & Hf & He).
    destruct (IH k1 Hc) as (k' & Ha' & Hc' & Ho' & Hr' & Hf').
    exists k'. cbn [LazyKalman.apply_all]. rewrite Ha. cbn.
    split; [exact Ha'|]. now rewrite Ho', Hr', Hf', Ho, Hr, Hf.
Qed.

(** A call that does not end a countdown. *)
Lemma apply_no_refit read k obz :
  LazyKalman._calibration_countdown k <> 1%Z ->
  let est := filter_update (LazyKalman._filter k) (LazyKalman._x_now k)
               (LazyKalman._p_now k) (read obz) in
  exists k',
    LazyKalman.apply read k obz = Return (k', est.1)
    /\ LazyKalman._x_now k' = est.1
    /\ LazyKalman._p_now k'
       = (if LazyKalman.do_learning k then est.2 else LazyKalman._p_now k)
    /\ LazyKalman.do_learning k' = LazyKalman.do_learning k
    /\ LazyKalman._filter k' = LazyKalman._filter k
    /\ LazyKalman._calibration_countdown k'
       = (if (LazyKalman._calibration_countdown k =? 0)%Z then 0
          else LazyKalman._calibration_countdown k - 1)%Z.
Proof.
  intros H1 est. unfold LazyKalman.apply, LazyKalman.filter_step. fold est.
  destruct est as [x p]. cbn [fst snd].
  destruct (LazyKalman.do_learning k) eqn:Hl;
    cbn [LazyKalman.set_estimate LazyKalman._calibration_countdown
         LazyKalman.buffer_observation];
    (destruct (Z.eqb_spec (LazyKalman._calibration_countdown k) 0) as [H0|H0]; cbn [negb];
     [|destruct (Z.eqb_spec (LazyKalman._calibration_countdown k - 1) 0); [lia|]]);
    rewrite py_bind_Return; eexists; (split; [reflexivity|]); cbn; now rewrite ?Hl.
Qed.

End KalmanFacts.

(** ** Claims about the filter *)


(** The same statement fails on a new filter when the caller hands in
    one array twice and changes it in between: the buffer holds the array,
    and the re-fit reads the later contents for both observations. *)
Lemma refit_reads_the_arrays_late :
  ~ refit_on_the_N_observations
      (LazyKalman.init (K := echo_kalman) (obj := nat) zeros3 eye3 eye3 5 2) aliased_calls.
Proof.
  intros Hc. destruct Hc as (k' & Ha & Hr); [reflexivity..|].
  vm_compute in Ha. injection Ha as <-. vm_compute in Hr. discriminate Hr.
Qed.

Section Calibration.
Context {K : PyKalman} {obj : Type}.


End Calibration.


(** ** The tracker: the pose table *)

Section PoseTable.
Context {K : PyKalman}.

Lemma BlobTracker_init_inv (f r : float) (masks : list ColorRange) (h : heap) :
  let '(t, h') := BlobTracker_init f r masks h in
  tracker_inv t h'
  /\ h' !! poses t = Some (replicate (length masks) zeros3)
  /\ kalmanFilterz t = replicate (length masks) None
  /\ color_masks t = masks
  /\ alive t = true
  /\ forall l, l <> poses t -> h' !! l = h !! l.
Proof.
  cbn. repeat split.
  - eexists. rewrite lookup_insert_eq. cbn. rewrite !length_replicate. now repeat split.
  - now rewrite lookup_insert_eq.
  - intros l Hl. now rewrite lookup_insert_ne.
Qed.

Lemma solve_channel_length (t : BlobTracker) (a : acquisition) (key : nat)
    (s : list vec3 * list (option (LazyKalman.t nat))) :
  length (solve_channel t a key s).1.1 = length s.1
  /\ length (solve_channel t a key s).1.2 = length s.2.
Proof.
  destruct s as [rows filters]. unfold solve_channel.
  destruct (find_blob a key) as [[b|]| |]; cbn; try easy.
  destruct (frame_width t), (frame_height t); cbn; try easy.
  destruct (rows !! key); cbn; [|easy].
  destruct (has_nan_in_pose _); cbn; [now rewrite length_insert|].
  destruct (filters !! key) as [[k|]|]; cbn; rewrite ?length_insert; try easy.
  destruct (LazyKalman.apply _ _ _) as [[k' m]| |]; cbn; now rewrite ?length_insert.
Qed.

Lemma solve_channels_length (t : BlobTracker) (a : acquisition) (keys : list nat)
    (s : list vec3 * list (option (LazyKalman.t nat))) :
  length (solve_channels t a keys s).1.1 = length s.1
  /\ length (solve_channels t a keys s).1.2 = length s.2.
Proof.
  revert s. induction keys as [|key keys IH]; intros s; [easy|].
  cbn [solve_channels]. pose proof (solve_channel_length t a key s) as [H1 H2].
  destruct (solve_channel t a key s) as [s' [[]| |]]; cbn [fst snd] in *;
    try easy. destruct (IH s') as [H3 H4]. now rewrite H3, H4.
Qed.

(** A cycle of the worker writes to the table of the worker and to no
    other array, and keeps the shape of the table. *)
Lemma solve_blob_poses_inv (t : BlobTracker) (h : heap) (a : acquisition) :
  tracker_inv t h ->
  let '((t', h'), _) := solve_blob_poses t h a in
  tracker_inv t' h'
  /\ poses t' = poses t
  /\ color_masks t' = color_masks t
  /\ forall l, l <> poses t -> h' !! l = h !! l.
Proof.
  intros (rows & Hrows & Hlen & Hfl). unfold solve_blob_poses.
  pose proof (solve_channels_length t a (seq 0 (length (color_masks t)))
                (h !!! poses t, kalmanFilterz t)) as [H1 H2].
  destruct (solve_channels _ _ _ _) as [[rows' filters'] r]. cbn [fst snd] in *.
  rewrite (lookup_total_correct _ _ _ Hrows) in H1.
  repeat split; try easy.
  - exists rows'. cbn. rewrite lookup_insert_eq. repeat split; congruence.
  - intros l Hl. now rewrite lookup_insert_ne.
Qed.

Lemma get_poses_fresh (t : BlobTracker) (h : heap) : h !! (get_poses t h).1 = None.
Proof. cbn. apply not_elem_of_dom, is_fresh. Qed.

End PoseTable.

(** C9.  [get_poses] returns a new array that holds the rows of the
    worker's table, one per colour mask and in the order of the masks.
    Writing into the returned array changes neither the table nor what a
    later [get_poses] returns, and a later cycle of the worker does not
    change the returned array. *)
Theorem get_poses_is_a_copy {K : PyKalman} (t : BlobTracker) (h : heap)
    (rows : list vec3) :
  tracker_inv t h ->
  h !! poses t = Some rows ->
  let l := (get_poses t h).1 in
  let h1 := (get_poses t h).2 in
  length rows = length (color_masks t)
  /\ l <> poses t
  /\ h1 !! l = Some rows
  /\ h1 !! poses t = Some rows
  /\ (forall i row,
        let h2 := array_write l i row h1 in
        h2 !! l = Some (<[i := row]> rows)
        /\ h2 !! poses t = Some rows
        /\ h2 !! (get_poses t h2).1 = None
        /\ (get_poses t h2).2 !! (get_poses t h2).1 = Some rows)
  /\ (forall a,
        let '((t', h2), _) := solve_blob_poses t h1 a in
        poses t' = poses t /\ h2 !! l = Some rows).
Proof.
  intros (rows0 & Hrows0 & Hlen & Hfl) Hrows l h1.
  assert (rows0 = rows) as -> by congruence.
  assert (Hl : l <> poses t).
  { intros Heq. pose proof (get_poses_fresh t h) as Hf. fold l in Hf. congruence. }
  assert (H1l : h1 !! l = Some rows).
  { subst l h1. cbn. rewrite lookup_insert_eq. now rewrite (lookup_total_correct _ _ _ Hrows). }
  assert (H1p : h1 !! poses t = Some rows).
  { subst h1. cbn. rewrite lookup_insert_ne; [easy|]. exact Hl. }
  repeat split; try easy.
  - unfold array_write. rewrite lookup_alter_eq, H1l. reflexivity.
  - unfold array_write. rewrite lookup_alter_ne; [easy|exact Hl].
  - apply get_poses_fresh.
  - cbn. rewrite lookup_insert_eq. f_equal. apply lookup_total_correct.
    unfold array_write. rewrite lookup_alter_ne; [easy|exact Hl].
  - intros a.
    assert (Hinv : tracker_inv t h1) by (exists rows; now repeat split).
    pose proof (solve_blob_poses_inv t h1 a Hinv) as Hs.
    destruct (solve_blob_poses t h1 a) as [[t' h2] r].
    destruct Hs as (_ & Hp & _ & Hother). split; [easy|]. now rewrite Hother.
Qed.

(** C9, an instance: the started tracker with one channel. *)
Lemma get_poses_is_a_copy_witness :
  let '(t, h) := started_tracker in
  tracker_inv t h
  /\ h !! poses t = Some [zeros3]
  /\ (get_poses t h).1 <> poses t
  /\ array_write (get_poses t h).1 0 (1, 1, 1)%float (get_poses t h).2 !! poses t
     = Some [zeros3].
Proof.
  assert (Hinv : tracker_inv started_tracker.1 started_tracker.2).
  { exists [zeros3]. now repeat split. }
  destruct (get_poses_is_a_copy started_tracker.1 started_tracker.2 [zeros3] Hinv eq_refl)
    as (_ & Hl & _ & _ & Hw & _).
  destruct (Hw 0 (1, 1, 1)%float) as (_ & Hp & _).
  exact (conj Hinv (conj eq_refl (conj Hl Hp))).
Defined.

(** ** The tracker: the worker *)

Section Worker.
Context {K : PyKalman}.

(** The loop never lets an exception out, and when it ends both flags are
    cleared. *)
Lemma tracking_loop_end (script : list acquisition) (t : BlobTracker) (h : heap) :
  let '((t', _), r) := tracking_loop script t h in
  (r = Return tt /\ alive t' = false /\ can_track t' = false) \/ r = Unfinished.
Proof.
  revert t h. induction script as [|a script IH]; intros t h; cbn [tracking_loop].
  - destruct (alive t && can_track t); cbn; auto.
  - destruct (alive t && can_track t); cbn [finish]; auto.
    destruct (solve_blob_poses _ h a) as [[t2 h2] r].
    destruct r as [[]|e|]; cbn [finish]; auto.
    destruct (negb (can_track (stopped_by a t2))); cbn [finish]; auto.
    apply IH.
Qed.

(** Where [run] returns, the worker is marked dead. *)
Lemma run_returns_dead (script : list acquisition) (t : BlobTracker) (h : heap) :
  forall t' h', run script t h = ((t', h'), Return tt) -> alive t' = false.
Proof.
  intros t' h'. unfold run. destruct script as [|a0 [|a1 script]].
  - easy.
  - destruct (at_start t a0) as [t1 [[]| |]]; easy.
  - destruct (at_start t a0) as [t1 [[]| |]]; try easy. cbv zeta.
    match goal with |- context [if ?c then _ else _] => destruct c end.
    + now intros [= <- _].
    + intros Hl. match type of Hl with tracking_loop ?s ?x ?y = _ =>
        pose proof (tracking_loop_end s x y) as He end.
      rewrite Hl in He. now destruct He as [(_ & Ha & _)|].
Qed.

(** When [at_start] raises, the source gave no frame, or a frame whose
    shape is not three numbers; the liveness flag is untouched. *)
Lemma at_start_raises (t t1 : BlobTracker) (a : acquisition) (e : exn) :
  at_start t a = (t1, Raise e) ->
  alive t1 = alive t
  /\ (e = RuntimeError "invalid video source" /\ frame_shape a = None
      \/ e = ValueError
         /\ exists shape, frame_shape a = Some shape /\ length shape <> 3).
Proof.
  unfold at_start.
  destruct (frame_shape a) as [[|hh [|ww [|c [|d shape]]]]|]; intros [= <- <-];
    (split; [reflexivity|]); try (now left);
    right; (split; [reflexivity|]); eexists; (split; [reflexivity|]); cbn; lia.
Qed.

(** Where [run] raises, it is [at_start] that raised, on the first
    acquisition, and the liveness flag is what it was, or what a
    concurrent [stop] made it. *)
Lemma run_raises_from_at_start (script : list acquisition) (t : BlobTracker) (h : heap) :
  forall t' h' e, run script t h = ((t', h'), Raise e) ->
  exists a0 script', script = a0 :: script'
    /\ (at_start t a0).2 = Raise e
    /\ (e = RuntimeError "invalid video source" /\ frame_shape a0 = None
        \/ e = ValueError
           /\ exists shape, frame_shape a0 = Some shape /\ length shape <> 3)
    /\ alive t' = alive t && negb (stop_requested a0).
Proof.
  intros t' h' e. unfold run. destruct script as [|a0 script]; [easy|].
  destruct (at_start t a0) as [t1 r] eqn:Hstart. destruct r as [[]|e0|].
  - cbv zeta. destruct script as [|a1 script]; [easy|].
    match goal with |- context [if ?c then _ else _] => destruct c end; [easy|].
    intros Hl. match type of Hl with tracking_loop ?s ?x ?y = _ =>
      pose proof (tracking_loop_end s x y) as He end.
    rewrite Hl in He. now destruct He as [(? & _)|].
  - intros [= <- <- <-]. destruct (at_start_raises t t1 a0 e0 Hstart) as [Ha Hcase].
    exists a0, script. split; [reflexivity|]. split; [now rewrite Hstart|].
    split; [exact Hcase|].
    unfold stopped_by. destruct (stop_requested a0); cbn;
      [now rewrite andb_false_r|now rewrite andb_true_r, Ha].
  - easy.
Qed.

End Worker.

(** C3, the failing case.  The video source gives no frame to [at_start]:
    [run] ends with the exception of [at_start], outside every [try], and
    the worker still says that it is alive. *)
Theorem run_dies_alive :
  let '(t, h) := BlobTracker_init (K := echo_kalman) 490 2 one_mask ∅ in
  exists t' h',
    run [no_frame] t h = ((t', h'), Raise (RuntimeError "invalid video source"))
    /\ alive t = true
    /\ alive t' = true.
Proof. cbn. eexists. eexists. split; [reflexivity|]. now split. Qed.

(** ** The tracker: one cycle, channel by channel *)

Section Cycle.
Context {K : PyKalman}.
Implicit Types (t : BlobTracker) (a : acquisition) (key : nat)
  (rows : list vec3) (filters : list (option (LazyKalman.t nat))).

(** [apply] does not raise. *)
Lemma apply_total {obj : Type} (read : obj -> vec3) (k : LazyKalman.t obj) (obz : obj) :
  exists k', LazyKalman.apply read k obz = Return (k', LazyKalman._x_now k').
Proof.
  destruct (Z.eq_dec (LazyKalman._calibration_countdown k) 0%Z) as [H0|H0].
  { destruct (apply_idle read k obz H0) as (k' & Ha & _). now exists k'. }
  destruct (Z.eq_dec (LazyKalman._calibration_countdown k) 1%Z) as [H1|H1].
  { destruct (apply_refit read k obz H1) as (k' & Ha & _). now exists k'. }
  destruct (apply_counting read k obz H0 H1) as (k' & Ha & _). now exists k'.
Qed.

(** The observations that the filter of a channel buffers are views of one
    and the same row of the table.  When the re-fit reads them, every one
    shows what the row holds then: [em] and [filter] receive the latest
    observation, once per buffered view. *)
Lemma refit_reads_the_row (pose : vec3) (k : LazyKalman.t nat) (key : nat) :
  LazyKalman._calibration_countdown k = 1%Z ->
  exists k',
    LazyKalman.apply (fun _ => pose) k key = Return (k', LazyKalman._x_now k')
    /\ LazyKalman.refits k'
       = LazyKalman.refits k
         ++ [(replicate (S (length (LazyKalman._calibration_observations k))) pose,
              LazyKalman._em_iter k)].
Proof.
  intros H1. destruct (apply_refit (fun _ => pose) k key H1) as (k' & Ha & _ & _ & Hr & _).
  exists k'. split; [exact Ha|]. rewrite Hr. do 3 f_equal.
  rewrite map_app. cbn [map]. clear.
  induction (LazyKalman._calibration_observations k) as [|o obs IH]; [reflexivity|].
  cbn [map app length]. rewrite IH. reflexivity.
Qed.

(** The turn of another channel leaves the row and the filter of [key]. *)
Lemma solve_channel_other t a key key' rows filters :
  key <> key' ->
  (solve_channel t a key' (rows, filters)).1.1 !! key = rows !! key
  /\ (solve_channel t a key' (rows, filters)).1.2 !! key = filters !! key.
Proof.
  intros Hne. unfold solve_channel.
  destruct (find_blob a key') as [[b|]| |]; cbn; try easy.
  destruct (frame_width t), (frame_height t); cbn; try easy.
  destruct (rows !! key'); cbn; [|easy].
  destruct (has_nan_in_pose _); cbn; [now rewrite list_lookup_insert_ne|].
  destruct (filters !! key') as [[k|]|]; cbn;
    rewrite ?list_lookup_insert_ne by easy; try easy.
  destruct (LazyKalman.apply _ _ _) as [[k' m]| |]; cbn;
    now rewrite ?list_lookup_insert_ne by easy.
Qed.

Lemma solve_channels_other t a key (keys : list nat) rows filters :
  key ∉ keys ->
  (solve_channels t a keys (rows, filters)).1.1 !! key = rows !! key
  /\ (solve_channels t a keys (rows, filters)).1.2 !! key = filters !! key.
Proof.
  revert rows filters. induction keys as [|key' keys IH]; intros rows filters Hnot; [easy|].
  apply not_elem_of_cons in Hnot as [Hne Hnot]. cbn [solve_channels].
  pose proof (solve_channel_other t a key key' rows filters Hne) as [H1 H2].
  destruct (solve_channel t a key' (rows, filters)) as [[rows' filters'] [[]| |]];
    cbn [fst snd] in *; try easy.
  destruct (IH rows' filters' Hnot) as [H3 H4]. now rewrite H3, H4.
Qed.

(** With a frame and a detector that returns, the turn of a channel ends
    normally. *)
Lemma solve_channel_returns t a key rows filters :
  (exists ob, find_blob a key = Return ob) ->
  is_Some (frame_width t) -> is_Some (frame_height t) ->
  key < length rows -> key < length filters ->
  (solve_channel t a key (rows, filters)).2 = Return tt.
Proof.
  intros [ob Hob] [w Hw] [hh Hh] Hrow Hkey. unfold solve_channel. rewrite Hob, Hw, Hh.
  destruct ob as [b|]; [|easy].
  destruct (lookup_lt_is_Some_2 rows key Hrow) as [row ->].
  destruct (has_nan_in_pose _); [easy|]. cbn.
  destruct (lookup_lt_is_Some_2 filters key Hkey) as [f Hf]. rewrite Hf.
  destruct f as [k|]; [|easy].
  destruct (apply_total (fun _ => triangulate (camera_focal_length t) (BALL_RADIUS_CM t) w hh b)
              k key) as [k' ->]. reflexivity.
Qed.

(** What the turn of a channel does to its own row and filter. *)
Lemma solve_channel_key t a key rows filters :
  key < length rows -> key < length filters ->
  let s' := (solve_channel t a key (rows, filters)).1 in
  match observed_pose t a key with
  | None => s'.1 !! key = rows !! key /\ s'.2 !! key = filters !! key
  | Some pose =>
      if has_nan_in_pose pose
      then s'.1 !! key = Some pose /\ s'.2 !! key = filters !! key
      else match filters !! key with
           | Some None =>
               s'.1 !! key = Some pose
               /\ s'.2 !! key = Some (Some (LazyKalman.init pose eye3 eye3 5 15))
           | Some (Some k) =>
               exists k', LazyKalman.apply (fun _ => pose) k key
                          = Return (k', LazyKalman._x_now k')
                          /\ s'.1 !! key = Some (LazyKalman._x_now k')
                          /\ s'.2 !! key = Some (Some k')
           | None => False
           end
  end.
Proof.
  intros Hr Hf. unfold observed_pose, solve_channel.
  destruct (find_blob a key) as [[b|]| |]; cbn; try easy.
  destruct (frame_width t) as [w|], (frame_height t) as [hh|]; cbn; try easy.
  destruct (lookup_lt_is_Some_2 rows key Hr) as [row ->].
  destruct (has_nan_in_pose _); cbn; [now rewrite list_lookup_insert_eq|].
  destruct (lookup_lt_is_Some_2 filters key Hf) as [f Hfk]. rewrite Hfk.
  destruct f as [k|]; cbn.
  - destruct (apply_total (fun _ => triangulate (camera_focal_length t) (BALL_RADIUS_CM t) w hh b)
                k key) as [k' Hk]. rewrite Hk. cbn. exists k'.
    split; [easy|]. rewrite !list_lookup_insert_eq; [easy|easy|].
    now rewrite length_insert.
  - now rewrite !list_lookup_insert_eq.
Qed.

(** With a frame and a detector that returns for every channel, the cycle
    ends normally. *)
Lemma solve_channels_returns t a (keys : list nat) rows filters :
  (forall key', key' ∈ keys ->
     key' < length rows /\ key' < length filters /\ exists ob, find_blob a key' = Return ob) ->
  is_Some (frame_width t) -> is_Some (frame_height t) ->
  (solve_channels t a keys (rows, filters)).2 = Return tt.
Proof.
  intros Hok Hw Hh. revert rows filters Hok.
  induction keys as [|key0 keys IH]; intros rows filters Hok; [easy|].
  cbn [solve_channels].
  destruct (Hok key0 ltac:(left)) as (Hrow & Hlt & Hob).
  pose proof (solve_channel_returns t a key0 rows filters Hob Hw Hh Hrow Hlt) as Hret.
  pose proof (solve_channel_length t a key0 (rows, filters)) as [Hl1 Hl2].
  destruct (solve_channel t a key0 (rows, filters)) as [[rows' filters'] r].
  cbn [fst snd] in *. subst r. apply IH.
  intros key' Hk'. rewrite Hl1, Hl2. apply Hok. now right.
Qed.

(** For a channel among the keys, the effect of the cycle is that of the
    channel's own turn, taken in a state whose row and filter for this
    channel are those at the start of the cycle. *)
Lemma solve_channels_key t a key (keys : list nat) rows filters :
  NoDup keys -> key ∈ keys ->
  (forall key', key' ∈ keys ->
     key' < length rows /\ key' < length filters /\ exists ob, find_blob a key' = Return ob) ->
  is_Some (frame_width t) -> is_Some (frame_height t) ->
  exists rows1 filters1,
    rows1 !! key = rows !! key /\ filters1 !! key = filters !! key
    /\ length rows1 = length rows /\ length filters1 = length filters
    /\ (solve_channels t a keys (rows, filters)).1.1 !! key
       = (solve_channel t a key (rows1, filters1)).1.1 !! key
    /\ (solve_channels t a keys (rows, filters)).1.2 !! key
       = (solve_channel t a key (rows1, filters1)).1.2 !! key.
Proof.
  intros Hnd Hin Hok Hw Hh. revert rows filters Hok.
  induction keys as [|key0 keys IH]; intros rows filters Hok; [now apply elem_of_nil in Hin|].
  apply NoDup_cons in Hnd as [Hnot Hnd].
  cbn [solve_channels].
  destruct (Hok key0 ltac:(left)) as (Hrow & Hlt & Hob).
  pose proof (solve_channel_returns t a key0 rows filters Hob Hw Hh Hrow Hlt) as Hret.
  pose proof (solve_channel_length t a key0 (rows, filters)) as [Hl1 Hl2].
  destruct (solve_channel t a key0 (rows, filters)) as [[rows' filters'] r] eqn:Hs.
  cbn [fst snd] in *. subst r.
  assert (Hok' : forall key', key' ∈ keys ->
            key' < length rows' /\ key' < length filters'
            /\ exists ob, find_blob a key' = Return ob).
  { intros key' Hk'. rewrite Hl1, Hl2. apply Hok. now right. }
  apply elem_of_cons in Hin as [->|Hin].
  - exists rows, filters. rewrite Hs. cbn [fst snd].
    destruct (solve_channels_other t a key0 keys rows' filters' Hnot) as [H1 H2].
    now repeat split.
  - destruct (IH Hnd Hin rows' filters' Hok')
      as (rows1 & filters1 & H1 & H2 & H3 & H4 & H5 & H6).
    exists rows1, filters1.
    assert (Hne : key <> key0) by (intros ->; contradiction).
    pose proof (solve_channel_other t a key key0 rows filters Hne) as [G1 G2].
    rewrite Hs in G1, G2. cbn [fst snd] in G1, G2.
    repeat split; congruence.
Qed.

(** One cycle of the worker, seen from the channel [key]. *)
Lemma solve_blob_poses_key t (h : heap) a key rows :
  tracker_inv t h -> h !! poses t = Some rows ->
  is_Some (frame_width t) -> is_Some (frame_height t) ->
  key < length (color_masks t) ->
  (forall key', key' < length (color_masks t) -> exists ob, find_blob a key' = Return ob) ->
  exists t' h' rows',
    solve_blob_poses t h a = ((t', h'), Return tt)
    /\ h' !! poses t = Some rows' /\ poses t' = poses t
    /\ match observed_pose t a key with
       | None => rows' !! key = rows !! key
                 /\ kalmanFilterz t' !! key = kalmanFilterz t !! key
       | Some pose =>
           if has_nan_in_pose pose
           then rows' !! key = Some pose
                /\ kalmanFilterz t' !! key = kalmanFilterz t !! key
           else match kalmanFilterz t !! key with
                | Some None =>
                    rows' !! key = Some pose
                    /\ kalmanFilterz t' !! key
                       = Some (Some (LazyKalman.init pose eye3 eye3 5 15))
                | Some (Some k) =>
                    exists k', LazyKalman.apply (fun _ => pose) k key
                               = Return (k', LazyKalman._x_now k')
                               /\ rows' !! key = Some (LazyKalman._x_now k')
                               /\ kalmanFilterz t' !! key = Some (Some k')
                | None => False
                end
       end.
Proof.
  intros (rows0 & Hrows0 & Hlen & Hfl) Hrows Hw Hh Hkey Hdet.
  assert (rows0 = rows) as -> by congruence.
  set (keys := seq 0 (length (color_masks t))).
  assert (Hok : forall key', key' ∈ keys ->
            key' < length rows /\ key' < length (kalmanFilterz t)
            /\ exists ob, find_blob a key' = Return ob).
  { intros key' Hk'. apply elem_of_seq in Hk'. rewrite Hfl, Hlen.
    split; [lia|]. split; [lia|]. apply Hdet. lia. }
  assert (Hin : key ∈ keys) by (apply elem_of_seq; lia).
  pose proof (solve_channels_returns t a keys rows (kalmanFilterz t) Hok Hw Hh) as Hret.
  destruct (solve_channels_key t a key keys rows (kalmanFilterz t)
              (NoDup_seq _ _) Hin Hok Hw Hh)
    as (rows1 & filters1 & H1 & H2 & H3 & H4 & H5 & H6).
  pose proof (solve_channel_key t a key rows1 filters1 ltac:(lia) ltac:(lia)) as Hstep.
  cbv zeta in Hstep. rewrite <- H5, <- H6, H1, H2 in Hstep.
  unfold solve_blob_poses. fold keys. rewrite (lookup_total_correct _ _ _ Hrows).
  destruct (solve_channels t a keys (rows, kalmanFilterz t)) as [[rows' filters'] r].
  cbn [fst snd] in *. subst r.
  eexists _, _, rows'. split; [reflexivity|]. rewrite lookup_insert_eq.
  split; [reflexivity|]. split; [reflexivity|]. exact Hstep.
Qed.

End Cycle.

(** ** Claims about a cycle of the worker *)

(** A non-finite observation is not given to the filter of its channel,
    and it is what the table holds for the channel after the cycle. *)
Lemma nonfinite_pose_in_table {K : PyKalman} (t : BlobTracker) (h : heap)
    (a : acquisition) (key : nat) (rows : list vec3) (pose : vec3) :
  tracker_inv t h -> h !! poses t = Some rows ->
  is_Some (frame_width t) -> is_Some (frame_height t) ->
  key < length (color_masks t) ->
  (forall key', key' < length (color_masks t) -> exists ob, find_blob a key' = Return ob) ->
  observed_pose t a key = Some pose ->
  has_nan_in_pose pose = true ->
  exists t' h' rows',
    solve_blob_poses t h a = ((t', h'), Return tt)
    /\ h' !! poses t' = Some rows'
    /\ rows' !! key = Some pose
    /\ kalmanFilterz t' !! key = kalmanFilterz t !! key.
Proof.
  intros Hinv Hrows Hw Hh Hkey Hdet Hobs Hnan.
  destruct (solve_blob_poses_key t h a key rows Hinv Hrows Hw Hh Hkey Hdet)
    as (t' & h' & rows' & Hs & Hr' & Hp & Hcase).
  rewrite Hobs, Hnan in Hcase. destruct Hcase as [H1 H2].
  exists t', h', rows'. rewrite Hp. auto.
Qed.

(** C1, the failing case.  A blob exactly at the centre of the image: the
    radial distance is zero, the triangulated point is not a number in
    every coordinate, and after the cycle this point is the row of the
    channel, where [get_poses] reads it; the row held zeros before.  The
    filter of the channel is not touched. *)
Theorem centred_blob_is_published :
  let '(t, h) := started_tracker in
  exists t' h',
    solve_blob_poses t h (frame_with centred_blob) = ((t', h'), Return tt)
    /\ h !! poses t = Some [zeros3]
    /\ h' !! poses t' = Some [(nan, nan, nan)]
    /\ (get_poses t' h').2 !! (get_poses t' h').1 = Some [(nan, nan, nan)]
    /\ has_nan_in_pose (nan, nan, nan) = true
    /\ kalmanFilterz t' = kalmanFilterz t.
Proof. vm_compute. eexists. eexists. repeat split. Qed.

(** Lazy creation.  A tracker starts without filters.  In a cycle, the filter of a
    channel that has none stays absent unless the channel has a finite
    triangulated observation; with one, the filter is created by
    [LazyKalman(observation, eye(3), eye(3))], that is around a pykalman
    filter whose [initial_state_mean] is the observation and whose
    transition and observation matrices are the identity, and the
    observation itself is published, unfiltered.  For a channel that has a
    filter, a finite observation goes through [apply], and the mean that
    [apply] returns is published.  (The running estimate [_x_now] of a
    new [LazyKalman] is [zeros(3)], whatever the observation.) *)
Theorem filter_is_created_lazily {K : PyKalman} (t : BlobTracker) (h : heap)
    (a : acquisition) (key : nat) (rows : list vec3) :
  tracker_inv t h -> h !! poses t = Some rows ->
  is_Some (frame_width t) -> is_Some (frame_height t) ->
  key < length (color_masks t) ->
  (forall key', key' < length (color_masks t) -> exists ob, find_blob a key' = Return ob) ->
  (forall f r masks h0,
     kalmanFilterz (BlobTracker_init f r masks h0).1 = replicate (length masks) None)
  /\ exists t' h' rows',
       solve_blob_poses t h a = ((t', h'), Return tt)
       /\ h' !! poses t' = Some rows'
       /\ (kalmanFilterz t !! key = Some None ->
           (forall pose, observed_pose t a key = Some pose -> has_nan_in_pose pose = true) ->
           kalmanFilterz t' !! key = Some None)
       /\ (forall pose,
             kalmanFilterz t !! key = Some None ->
             observed_pose t a key = Some pose ->
             has_nan_in_pose pose = false ->
             let k := LazyKalman.init pose eye3 eye3 5 15 in
             kalmanFilterz t' !! key = Some (Some k)
             /\ LazyKalman._filter k = KalmanFilter_new eye3 eye3 pose
             /\ LazyKalman._x_now k = zeros3
             /\ rows' !! key = Some pose)
       /\ (forall pose k,
             kalmanFilterz t !! key = Some (Some k) ->
             observed_pose t a key = Some pose ->
             has_nan_in_pose pose = false ->
             exists k',
               LazyKalman.apply (fun _ => pose) k key = Return (k', LazyKalman._x_now k')
               /\ kalmanFilterz t' !! key = Some (Some k')
               /\ rows' !! key = Some (LazyKalman._x_now k'))
       /\ (forall pose k,
             kalmanFilterz t !! key = Some (Some k) ->
             observed_pose t a key = Some pose ->
             has_nan_in_pose pose = true ->
             kalmanFilterz t' !! key = Some (Some k)).
Proof.
  intros Hinv Hrows Hw Hh Hkey Hdet. split; [reflexivity|].
  destruct (solve_blob_poses_key t h a key rows Hinv Hrows Hw Hh Hkey Hdet)
    as (t' & h' & rows' & Hs & Hr' & Hp & Hcase).
  exists t', h', rows'. rewrite Hp. repeat (split; [easy|]).
  split; [|split; [|split]].
  - intros Hnone Hnonfinite.
    destruct (observed_pose t a key) as [pose|]; [|now rewrite (proj2 Hcase)].
    rewrite (Hnonfinite pose eq_refl) in Hcase. now rewrite (proj2 Hcase).
  - intros pose Hnone Hobs Hfin k. rewrite Hobs, Hfin, Hnone in Hcase.
    destruct Hcase as [H1 H2]. now repeat split.
  - intros pose k Hsome Hobs Hfin. rewrite Hobs, Hfin, Hsome in Hcase.
    destruct Hcase as (k' & Ha & H1 & H2). now exists k'.
  - intros pose k Hsome Hobs Hnan. rewrite Hobs, Hnan in Hcase.
    now rewrite (proj2 Hcase).
Qed.

(** Lazy creation, an instance: the first finite observation of the only
    channel. *)
Lemma filter_is_created_lazily_witness :
  let '(t, h) := started_tracker in
  let pose := triangulate 490 2 640 480 offset_blob in
  tracker_inv t h
  /\ h !! poses t = Some [zeros3]
  /\ is_Some (frame_width t) /\ is_Some (frame_height t)
  /\ 0 < length (color_masks t)
  /\ kalmanFilterz t !! 0 = Some None
  /\ exists t' h' rows',
       solve_blob_poses t h (frame_with offset_blob) = ((t', h'), Return tt)
       /\ kalmanFilterz t' !! 0 = Some (Some (LazyKalman.init pose eye3 eye3 5 15))
       /\ h' !! poses t' = Some rows'
       /\ rows' !! 0 = Some pose.
Proof.
  assert (Hinv : tracker_inv started_tracker.1 started_tracker.2).
  { exists [zeros3]. now repeat split. }
  assert (Hw : is_Some (frame_width started_tracker.1)) by (now eexists).
  assert (Hh : is_Some (frame_height started_tracker.1)) by (now eexists).
  assert (Hkey : 0 < length (color_masks started_tracker.1)) by (cbn; lia).
  assert (Hdet : forall key', key' < length (color_masks started_tracker.1) ->
            exists ob, find_blob (frame_with offset_blob) key' = Return ob).
  { intros [|key'] _; now eexists. }
  destruct (filter_is_created_lazily started_tracker.1 started_tracker.2
              (frame_with offset_blob) 0 [zeros3] Hinv eq_refl Hw Hh Hkey Hdet)
    as (_ & t' & h' & rows' & Hs & Hr' & _ & Hcreate & _).
  destruct (Hcreate (triangulate 490 2 640 480 offset_blob) eq_refl eq_refl eq_refl)
    as (Hk & _ & _ & Hrow).
  refine (conj Hinv (conj eq_refl (conj Hw (conj Hh (conj Hkey (conj eq_refl _)))))).
  exists t', h', rows'. exact (conj Hs (conj Hk (conj Hr' Hrow))).
Defined.

(** ** The filter of a channel, from its creation on *)

Section NewFilter.
Context {K : PyKalman}.

(** A cycle changes the filters and nothing else of the tracker. *)
Lemma solve_blob_poses_tracker (t : BlobTracker) (h : heap) (a : acquisition) :
  exists filters, (solve_blob_poses t h a).1.1 = set_filters t filters.
Proof.
  unfold solve_blob_poses.
  destruct (solve_channels _ _ _ _) as [[rows filters] r]. now exists filters.
Qed.

(** C6.  The filter of a channel is created on the first finite
    observation of the channel, by [LazyKalman(observation, eye(3),
    eye(3))]: the observation is given to pykalman as
    [initial_state_mean], and it is published as it is.  The mean from
    which the filter then works is not that observation: [__init__] sets
    the running estimate [_x_now] to [zeros(3)] after it has built the
    pykalman filter, and [apply] hands [_x_now] to [filter_update].  On the
    next finite observation the published pose is what [filter_update]
    makes of that observation from the mean (0, 0, 0) and the covariance
    [zeros(3)]. *)
Theorem new_filter_starts_from_zero (t : BlobTracker) (h : heap)
    (a1 a2 : acquisition) (key : nat) (rows : list vec3) (pose1 pose2 : vec3) :
  tracker_inv t h -> h !! poses t = Some rows ->
  is_Some (frame_width t) -> is_Some (frame_height t) ->
  key < length (color_masks t) ->
  (forall key', key' < length (color_masks t) -> exists ob, find_blob a1 key' = Return ob) ->
  (forall key', key' < length (color_masks t) -> exists ob, find_blob a2 key' = Return ob) ->
  kalmanFilterz t !! key = Some None ->
  observed_pose t a1 key = Some pose1 -> has_nan_in_pose pose1 = false ->
  observed_pose t a2 key = Some pose2 -> has_nan_in_pose pose2 = false ->
  let k1 := LazyKalman.init pose1 eye3 eye3 5 15 in
  let filtered :=
    (filter_update (KalmanFilter_new eye3 eye3 pose1) zeros3 (Vector [0; 0; 0]%float) pose2).1 in
  exists t1 h1 rows1 t2 h2 rows2 k2,
    solve_blob_poses t h a1 = ((t1, h1), Return tt)
    /\ h1 !! poses t1 = Some rows1
    /\ rows1 !! key = Some pose1
    /\ kalmanFilterz t1 !! key = Some (Some k1)
    /\ LazyKalman._filter k1 = KalmanFilter_new eye3 eye3 pose1
    /\ LazyKalman._x_now k1 = zeros3
    /\ solve_blob_poses t1 h1 a2 = ((t2, h2), Return tt)
    /\ h2 !! poses t2 = Some rows2
    /\ kalmanFilterz t2 !! key = Some (Some k2)
    /\ LazyKalman._x_now k2 = filtered
    /\ rows2 !! key = Some filtered.
Proof.
  intros Hinv Hrows Hw Hh Hkey Hdet1 Hdet2 Hnone Hobs1 Hfin1 Hobs2 Hfin2 k1 filtered.
  subst k1 filtered.
  destruct (solve_blob_poses_key t h a1 key rows Hinv Hrows Hw Hh Hkey Hdet1)
    as (t1 & h1 & rows1 & Hs1 & Hr1 & Hp1 & Hcase1).
  rewrite Hobs1, Hfin1, Hnone in Hcase1. destruct Hcase1 as [Hrow1 Hk1].
  pose proof (solve_blob_poses_inv t h a1 Hinv) as Hinv1.
  destruct (solve_blob_poses_tracker t h a1) as [filters1 Ht1].
  rewrite Hs1 in Hinv1, Ht1. cbn [fst] in Ht1.
  destruct Hinv1 as (Hinv1 & _ & Hm1 & _).
  assert (Hobs2' : observed_pose t1 a2 key = Some pose2) by (now rewrite Ht1).
  destruct (solve_blob_poses_key t1 h1 a2 key rows1 Hinv1)
    as (t2 & h2 & rows2 & Hs2 & Hr2 & Hp2 & Hcase2);
    [now rewrite Hp1|now rewrite Ht1|now rewrite Ht1|now rewrite Hm1|now rewrite Hm1|].
  rewrite Hobs2', Hfin2, Hk1 in Hcase2. destruct Hcase2 as (k2 & Ha & Hrow2 & Hk2).
  destruct (apply_no_refit (fun _ => pose2) (LazyKalman.init pose1 eye3 eye3 5 15) key)
    as (k2' & Ha' & Hx & _); [easy|].
  rewrite Ha in Ha'. injection Ha' as <- Hx'.
  exists t1, h1, rows1, t2, h2, rows2, k2.
  rewrite Hp2, Hp1. rewrite Hp1 in Hr2. rewrite Hrow2, Hx'.
  repeat (split; [easy|]). reflexivity.
Qed.

End NewFilter.

(** C6, an instance: the started tracker sees the same blob in two
    successive frames. *)
Lemma new_filter_starts_from_zero_witness :
  let '(t, h) := started_tracker in
  let pose := triangulate 490 2 640 480 offset_blob in
  tracker_inv t h
  /\ kalmanFilterz t !! 0 = Some None
  /\ observed_pose t (frame_with offset_blob) 0 = Some pose
  /\ has_nan_in_pose pose = false
  /\ exists (t1 : BlobTracker) (h1 : heap) (t2 : BlobTracker) (h2 : heap)
           (rows2 : list vec3),
       solve_blob_poses t h (frame_with offset_blob) = ((t1, h1), Return tt)
       /\ solve_blob_poses t1 h1 (frame_with offset_blob) = ((t2, h2), Return tt)
       /\ h2 !! poses t2 = Some rows2
       /\ rows2 !! 0
          = Some (filter_update (KalmanFilter_new (PyKalman := echo_kalman) eye3 eye3 pose)
                    zeros3 (Vector [0; 0; 0]%float) pose).1.
Proof.
  assert (Hinv : tracker_inv started_tracker.1 started_tracker.2).
  { exists [zeros3]. now repeat split. }
  assert (Hw : is_Some (frame_width started_tracker.1)) by (now eexists).
  assert (Hh : is_Some (frame_height started_tracker.1)) by (now eexists).
  assert (Hkey : 0 < length (color_masks started_tracker.1)) by (cbn; lia).
  assert (Hdet : forall key', key' < length (color_masks started_tracker.1) ->
            exists ob, find_blob (frame_with offset_blob) key' = Return ob).
  { intros [|key'] _; now eexists. }
  assert (Hfin : has_nan_in_pose (triangulate 490 2 640 480 offset_blob) = false)
    by (vm_compute; reflexivity).
  assert (Hobs : observed_pose started_tracker.1 (frame_with offset_blob) 0
                 = Some (triangulate 490 2 640 480 offset_blob)) by reflexivity.
  destruct (new_filter_starts_from_zero started_tracker.1 started_tracker.2
              (frame_with offset_blob) (frame_with offset_blob) 0 [zeros3]
              (triangulate 490 2 640 480 offset_blob)
              (triangulate 490 2 640 480 offset_blob)
              Hinv eq_refl Hw Hh Hkey Hdet Hdet eq_refl Hobs Hfin Hobs Hfin)
    as (t1 & h1 & rows1 & t2 & h2 & rows2 & k2 & Hs1 & _ & _ & _ & _ & _ & Hs2 & Hr2 & _ & _ & Hrow).
  refine (conj Hinv (conj eq_refl (conj Hobs (conj Hfin _)))).
  exists t1, h1, t2, h2, rows2. exact (conj Hs1 (conj Hs2 (conj Hr2 Hrow))).
Defined.

(** * Further properties of the module *)

(** ** The packet reader on any input *)

Lemma startswith_app_l (s rest sub : bytes) :
  startswith s sub = true -> startswith (s ++ rest) sub = true.
Proof.
  revert s. induction sub as [|x sub IH]; intros s Hs; [easy|].
  destruct s as [|y s]; [easy|]. simpl in *.
  apply andb_prop in Hs as [-> Hs]. now rewrite (IH _ Hs).
Qed.

(** What precedes the first occurrence of a pattern does not contain it. *)
Lemma bytes_find_take (s : bytes) (x : byte) (sub : bytes) (i : nat) :
  bytes_find s (x :: sub) = Some i -> bytes_find (take i s) (x :: sub) = None.
Proof.
  revert i. induction s as [|y s IH]; intros i; rewrite bytes_find_unfold.
  - simpl. discriminate.
  - destruct (startswith (y :: s) (x :: sub)) eqn:Hp.
    + now intros [= <-].
    + destruct (bytes_find s (x :: sub)) as [j|] eqn:Hj; [|easy].
      intros [= <-]. cbn [take]. rewrite bytes_find_unfold.
      destruct (startswith (y :: take j s) (x :: sub)) eqn:Hq.
      * apply (startswith_app_l _ (drop j s)) in Hq.
        change ((y :: take j s) ++ drop j s) with (y :: (take j s ++ drop j s)) in Hq.
        rewrite take_drop in Hq. congruence.
      * now rewrite (IH j eq_refl).
Qed.

Lemma framed_exists (s : bytes) :
  exists frames tail,
    s = framed frames tail /\ Forall terminator_free frames /\ terminator_free tail.
Proof.
  remember (length s) as n eqn:Hn. assert (Hle : length s <= n) by lia. clear Hn.
  revert s Hle. induction n as [|n IH]; intros s Hle;
    (destruct (bytes_find s TERMINATOR) as [i|] eqn:Hi; [|exists [], s; now repeat split]);
    pose proof (bytes_find_Some _ _ _ Hi) as Hs;
    pose proof (bytes_find_lt _ _ _ Hi) as Hl; simpl in Hl; [lia|].
  destruct (IH (drop (i + 3) s)) as (frames & tail & Hd & Hf & Ht).
  { rewrite length_drop. lia. }
  exists (take i s :: frames), tail. repeat split; [|constructor|]; try easy.
  - unfold framed in *. cbn [flat_map]. rewrite <- !app_assoc, <- Hd. exact Hs.
  - exact (bytes_find_take _ _ _ _ Hi).
Qed.

(** The loop on a framed buffer: the frames are decoded one after the
    other, and the tail stays. *)
Lemma frames_loop_framed (frames : list bytes) (tail : bytes) (r : reader) (n : nat) :
  buffer r = framed frames tail ->
  Forall terminator_free frames -> terminator_free tail ->
  length (buffer r) <= n ->
  frames_loop n r = Return (set_buffer (store_all r (flat_map decodes frames)) tail).
Proof.
  revert r n. induction frames as [|f frames IH]; intros r n Hb Hf Ht Hn.
  - unfold framed in Hb. cbn in Hb. rewrite frames_loop_done by (now rewrite Hb).
    destruct r; cbn in *; now subst.
  - apply Forall_cons in Hf as [Hf Hfs].
    assert (Hb' : buffer r = f ++ TERMINATOR ++ framed frames tail).
    { rewrite Hb. unfold framed. cbn [flat_map]. now rewrite <- !app_assoc. }
    destruct n as [|n].
    { rewrite Hb', !length_app in Hn. simpl in Hn. lia. }
    rewrite (frames_loop_step n r (length f)) by (rewrite Hb'; now apply bytes_find_frame).
    rewrite Hb', take_app_length.
    replace (drop (length f + 3) (f ++ TERMINATOR ++ framed frames tail))
      with (framed frames tail)
      by (rewrite app_assoc, drop_app_length'; [easy|now rewrite length_app]).
    rewrite IH; try easy.
    + cbn [flat_map]. now rewrite store_all_app, !set_buffer_store_all.
    + now rewrite store_all_buffer.
    + rewrite store_all_buffer. cbn. rewrite Hb', !length_app in Hn. simpl in Hn. lia.
Qed.

Lemma data_received_framed (r : reader) (data : bytes) (frames : list bytes) (tail : bytes) :
  buffer r ++ data = framed frames tail ->
  Forall terminator_free frames -> terminator_free tail ->
  data_received r data
  = Return (set_buffer (store_all r (flat_map decodes frames)) tail).
Proof.
  intros Hb Hf Ht. unfold data_received.
  rewrite (frames_loop_framed frames tail); try easy.
  now rewrite !set_buffer_store_all.
Qed.

(** The values that [unpack_from] returns have the kinds of the format, and
    every float is a 32-bit pattern. *)
Lemma unpack_chars_well_formed (cs : list fmt_char) (buf : bytes) (vals : list value) :
  unpack_chars cs buf = Return vals -> well_formed cs vals.
Proof.
  revert buf vals. induction cs as [|c cs IH]; intros buf vals; simpl.
  - now intros [= <-].
  - destruct c.
    + destruct buf as [|b0 [|b1 [|b2 [|b3 buf]]]]; try easy.
      destruct (unpack_chars cs buf) as [vs| |] eqn:Hu; try easy.
      intros [= <-]. simpl. split; [|now apply (IH buf)].
      unfold le32.
      pose proof (Byte.to_N_bounded b0). pose proof (Byte.to_N_bounded b1).
      pose proof (Byte.to_N_bounded b2). pose proof (Byte.to_N_bounded b3).
      change (2 ^ 32)%N with 4294967296%N. lia.
    + destruct buf as [|b buf]; try easy.
      destruct (unpack_chars cs buf) as [vs| |] eqn:Hu; try easy.
      intros [= <-]. simpl. now apply (IH buf).
Qed.

Lemma decodes_ok (frame : bytes) : Forall packet_ok (decodes frame).
Proof.
  unfold decodes. apply Forall_flat_map, Forall_forall. intros [h form] Hin.
  apply list_elem_of_In in Hin.
  unfold decode_heading. cbn [fst snd].
  destruct (bytes_find frame h) as [i|]; [|constructor].
  unfold decode_payload. destruct (_ <=? _); [|constructor].
  destruct (unpack_from _ _) as [vals| |] eqn:Hu; constructor; [|constructor].
  exists form. split; [exact Hin|]. now apply unpack_chars_well_formed in Hu.
Qed.

(** X1.  Whatever the state of the reader and whatever the bytes,
    [data_received] returns: nothing in it raises and its loop ends.  The
    buffer it leaves holds no terminator, and it is the end of the bytes
    received so far. *)
Theorem data_received_leaves_a_partial_frame (r : reader) (data : bytes) :
  exists r' consumed,
    data_received r data = Return r'
    /\ buffer r ++ data = consumed ++ buffer r'
    /\ bytes_find (buffer r') TERMINATOR = None
    /\ (bytes_find (buffer r ++ data) TERMINATOR = None -> consumed = []).
Proof.
  destruct (framed_exists (buffer r ++ data)) as (frames & tail & Hb & Hf & Ht).
  exists (set_buffer (store_all r (flat_map decodes frames)) tail),
         (flat_map (fun f => f ++ TERMINATOR) frames).
  split; [now apply data_received_framed|]. split; [exact Hb|]. split; [exact Ht|].
  intros Hn. destruct frames as [|f frames]; [easy|].
  apply Forall_cons in Hf as [Hf _]. rewrite Hb in Hn. unfold framed in Hn.
  cbn [flat_map] in Hn. rewrite <- !app_assoc in Hn.
  rewrite (bytes_find_frame f _ Hf) in Hn. discriminate.
Qed.

(** Read the shape of a list of values off its well-formedness. *)
Ltac shape_of vals Hw :=
  repeat (destruct vals as [|[?|?] vals]; cbn in Hw; try contradiction;
          try (apply proj2 in Hw)).

(** X3.  Every packet that [data_received] stores has a header of
    [HEADINGS] and exactly the values of that header's layout: four floats
    for [hmd:], seven floats then five flags for [lc:] and [rc:]. *)
Theorem stored_packets_have_their_layout (r : reader) (data : bytes) :
  exists r' new,
    data_received r data = Return r'
    /\ yielded r' = yielded r ++ new
    /\ Forall packet_ok new
    /\ Forall (fun p : packet =>
                 (p.1 = b_hmd /\ exists f0 f1 f2 f3,
                    p.2 = [VFloat f0; VFloat f1; VFloat f2; VFloat f3])
                 \/ ((p.1 = b_lc \/ p.1 = b_rc) /\ exists f0 f1 f2 f3 f4 f5 f6 q0 q1 q2 q3 q4,
                    p.2 = [VFloat f0; VFloat f1; VFloat f2; VFloat f3; VFloat f4;
                           VFloat f5; VFloat f6; VBool q0; VBool q1; VBool q2;
                           VBool q3; VBool q4])) new.
Proof.
  destruct (framed_exists (buffer r ++ data)) as (frames & tail & Hb & Hf & Ht).
  exists (set_buffer (store_all r (flat_map decodes frames)) tail), (flat_map decodes frames).
  split; [now apply data_received_framed|].
  cbn [set_buffer yielded]. split; [apply store_all_yielded|].
  assert (Hok : Forall packet_ok (flat_map decodes frames)).
  { apply Forall_flat_map, Forall_forall. intros f _. apply decodes_ok. }
  split; [exact Hok|].
  eapply Forall_impl; [exact Hok|]. intros [h vals] (form & Hin & Hw). cbn [fst snd] in *.
  unfold HEADING_FORMS in Hin. cbn [In] in Hin.
  destruct Hin as [[= <- <-]|[[= <- <-]|[[= <- <-]|[]]]]; cbn in Hw.
  - left. split; [easy|]. shape_of vals Hw. now do 4 eexists.
  - right. split; [now left|]. shape_of vals Hw. now do 12 eexists.
  - right. split; [now right|]. shape_of vals Hw. now do 12 eexists.
Qed.

(** X4.  How the bytes are cut into calls does not matter: feeding [a] and
    then [b] leaves the reader as feeding [a ++ b] at once does, with the
    same packets decoded in the same order. *)
Theorem data_received_app (r : reader) (a b : bytes) :
  data_received r (a ++ b) = data_received r a ≫= fun r' => data_received r' b.
Proof.
  destruct (framed_exists (buffer r ++ a)) as (fa & ta & Ha & Hfa & Hta).
  rewrite (data_received_framed r a fa ta Ha Hfa Hta), py_bind_Return.
  destruct (framed_exists (ta ++ b)) as (fb & tb & Hb & Hfb & Htb).
  rewrite (data_received_framed _ b fb tb); try easy.
  rewrite (data_received_framed r (a ++ b) (fa ++ fb) tb).
  - rewrite flat_map_app, store_all_app. f_equal.
    now rewrite !set_buffer_store_all.
  - rewrite app_assoc, Ha. unfold framed in *.
    rewrite flat_map_app, <- !app_assoc. f_equal. exact Hb.
  - now apply Forall_app.
  - exact Htb.
Qed.

(** X5.  Complete frames are handled one by one in the order of arrival,
    each on its own: when the buffer followed by the new bytes reads as
    frames closed by terminators and a tail, the reader stores what each
    frame decodes to, frame after frame, and keeps the tail as its buffer. *)
Theorem frames_are_decoded_in_order (r : reader) (data : bytes)
    (frames : list bytes) (tail : bytes) :
  buffer r ++ data = framed frames tail ->
  Forall terminator_free frames ->
  terminator_free tail ->
  exists r',
    data_received r data = Return r'
    /\ buffer r' = tail
    /\ yielded r' = yielded r ++ flat_map decodes frames
    /\ last_read r' = match last (flat_map decodes frames) with
                      | Some p => Some p
                      | None => last_read r
                      end.
Proof.
  intros Hb Hf Ht. eexists. split; [now apply (data_received_framed r data frames tail)|].
  unfold last_read. cbn [set_buffer buffer yielded _last_packet].
  split; [reflexivity|]. split; [apply store_all_yielded|apply store_all_last].
Qed.

(** X5, an instance: an [hmd:] frame, a frame of noise and the beginning of
    an [lc:] frame, in one call. *)
Lemma frames_are_decoded_in_order_witness :
  let f1 := b_hmd ++ repeat x01 16 in
  let f2 := [x2a; x2a; x2a] in
  let tail := b_lc ++ repeat x02 5 in
  buffer new_reader ++ (f1 ++ TERMINATOR ++ f2 ++ TERMINATOR ++ tail) = framed [f1; f2] tail
  /\ Forall terminator_free [f1; f2]
  /\ terminator_free tail
  /\ exists r',
       data_received new_reader (f1 ++ TERMINATOR ++ f2 ++ TERMINATOR ++ tail) = Return r'
       /\ buffer r' = tail
       /\ yielded r' = [(b_hmd, repeat (VFloat 16843009) 4)].
Proof.
  intros f1 f2 tail.
  assert (Hf : Forall terminator_free [f1; f2]) by (repeat constructor).
  destruct (frames_are_decoded_in_order new_reader
              (f1 ++ TERMINATOR ++ f2 ++ TERMINATOR ++ tail) [f1; f2] tail
              eq_refl Hf eq_refl) as (r' & Hr & Hb & Hy & _).
  refine (conj eq_refl (conj Hf (conj eq_refl _))).
  exists r'. exact (conj Hr (conj Hb Hy)).
Defined.

(** ** [SerialReaderBinary] *)

Lemma size_repeat (c : fmt_char) (n : nat) :
  list_sum (map char_size (repeat c n)) = n * char_size c.
Proof. induction n as [|n IH]; simpl; [easy|]. rewrite IH. lia. Qed.

(** A buffer shorter than the format makes [unpack_from] raise. *)
Lemma unpack_chars_short (cs : list fmt_char) (buf : bytes) :
  length buf < list_sum (map char_size cs) ->
  unpack_chars cs buf = Raise StructError.
Proof.
  revert buf. induction cs as [|c cs IH]; intros buf Hl; simpl in *; [lia|].
  destruct c; simpl in Hl.
  - destruct buf as [|b0 [|b1 [|b2 [|b3 buf]]]]; try easy.
    rewrite IH; [easy|]. simpl in Hl. lia.
  - destruct buf as [|b buf]; try easy.
    rewrite IH; [easy|]. simpl in Hl. lia.
Qed.

(** X6.  A [SerialReaderBinary] whose [type_len] is at least the size of
    its field type never raises in [handle_packet]: a packet of another
    length than [struct_len * type_len] is ignored and the stored packet
    kept, and a packet of that length stores [struct_len] values.  With
    [type_len] equal to the size of the type, the packed values of the
    format are read back as they were. *)
Theorem binary_reader_reads_back (struct_type : fmt_char) (struct_len type_len : nat)
    (r : SerialReaderBinary.t) :
  char_size struct_type <= type_len ->
  SerialReaderBinary._struct_form r = repeat struct_type struct_len ->
  SerialReaderBinary._struct_len r = struct_len * type_len ->
  (forall packet,
     length packet <> struct_len * type_len ->
     SerialReaderBinary.handle_packet r packet = Return r)
  /\ (forall packet,
        length packet = struct_len * type_len ->
        exists r' vals,
          SerialReaderBinary.handle_packet r packet = Return r'
          /\ SerialReaderBinary.last_read r' = Some vals
          /\ length vals = struct_len
          /\ well_formed (repeat struct_type struct_len) vals)
  /\ (forall vals,
        type_len = char_size struct_type ->
        well_formed (repeat struct_type struct_len) vals ->
        exists r',
          SerialReaderBinary.handle_packet r (pack_values vals) = Return r'
          /\ SerialReaderBinary.last_read r' = Some vals).
Proof.
  intros Hsize Hform Hlen. unfold SerialReaderBinary.handle_packet.
  rewrite Hform, Hlen. repeat split.
  - intros packet Hne. now destruct (Nat.eqb_spec (length packet) (struct_len * type_len)).
  - intros packet Heq. rewrite Heq, Nat.eqb_refl.
    destruct (unpack_chars_total (repeat struct_type struct_len) packet) as [vals Hv].
    { rewrite size_repeat, Heq. nia. }
    rewrite Hv. cbn. eexists _, vals. repeat split.
    + clear -Hv. revert packet vals Hv.
      induction struct_len as [|n IH]; intros packet vals; simpl.
      * now intros [= <-].
      * destruct struct_type.
        -- destruct packet as [|b0 [|b1 [|b2 [|b3 packet]]]]; try easy.
           destruct (unpack_chars (repeat Cf n) packet) as [vs| |] eqn:Hu; try easy.
           intros [= <-]. simpl. f_equal. now apply (IH packet).
        -- destruct packet as [|b packet]; try easy.
           destruct (unpack_chars (repeat Cq n) packet) as [vs| |] eqn:Hu; try easy.
           intros [= <-]. simpl. f_equal. now apply (IH packet).
    + now apply unpack_chars_well_formed in Hv.
  - intros vals -> Hw. destruct (unpack_pack _ _ [] Hw) as [Hu Hl].
    rewrite app_nil_r in Hu. rewrite size_repeat in Hl.
    rewrite Hl, Nat.eqb_refl, Hu. cbn. now eexists.
Qed.

(** X6, an instance: the default reader of thirteen floats. *)
Lemma binary_reader_reads_back_witness :
  let r := SerialReaderBinary.init Cf 13 4 in
  let vals := repeat (VFloat 1065353216) 13 in
  char_size Cf <= 4
  /\ SerialReaderBinary._struct_form r = repeat Cf 13
  /\ SerialReaderBinary._struct_len r = 13 * 4
  /\ exists r',
       SerialReaderBinary.handle_packet r (pack_values vals) = Return r'
       /\ SerialReaderBinary.last_read r' = Some vals.
Proof.
  intros r vals.
  assert (Hsize : char_size Cf <= 4) by (cbn; lia).
  destruct (binary_reader_reads_back Cf 13 4 r Hsize eq_refl eq_refl)
    as (_ & _ & Hback).
  refine (conj Hsize (conj eq_refl (conj eq_refl _))).
  apply Hback; [reflexivity|]. vm_compute. intuition lia.
Defined.

(** X7.  A [SerialReaderBinary] whose [type_len] is smaller than the size
    of its field type raises [struct.error] on every packet that it
    accepts by length. *)
Theorem binary_reader_short_type_len (struct_type : fmt_char) (struct_len type_len : nat)
    (packet : bytes) :
  type_len < char_size struct_type ->
  0 < struct_len ->
  length packet = struct_len * type_len ->
  SerialReaderBinary.handle_packet
    (SerialReaderBinary.init struct_type struct_len type_len) packet
  = Raise StructError.
Proof.
  intros Hsmall Hpos Hlen. unfold SerialReaderBinary.handle_packet, SerialReaderBinary.init.
  cbn [SerialReaderBinary._struct_len SerialReaderBinary._struct_form].
  rewrite Hlen, Nat.eqb_refl, unpack_chars_short; [easy|].
  rewrite size_repeat, Hlen. nia.
Qed.

(** X7, an instance: thirteen floats announced as two bytes each. *)
Lemma binary_reader_short_type_len_witness :
  2 < char_size Cf
  /\ 0 < 13
  /\ length (repeat x00 26) = 13 * 2
  /\ SerialReaderBinary.handle_packet (SerialReaderBinary.init Cf 13 2) (repeat x00 26)
     = Raise StructError.
Proof.
  assert (Hsmall : 2 < char_size Cf) by (cbn; lia).
  assert (Hpos : 0 < 13) by lia.
  refine (conj Hsmall (conj Hpos (conj eq_refl _))).
  exact (binary_reader_short_type_len Cf 13 2 (repeat x00 26) Hsmall Hpos eq_refl).
Defined.

(** ** Strings and lines *)

Lemma utf8_char_encodable (c : N) :
  encodable c -> exists b, utf8_char c = Return b /\ b <> [].
Proof.
  unfold encodable, utf8_char. intros Hc.
  destruct (N.ltb_spec c 128); [now eexists|].
  destruct (N.ltb_spec c 2048); [now eexists|].
  destruct (N.ltb_spec c 65536).
  - destruct (N.leb_spec 55296 c), (N.leb_spec c 57343); cbn [andb]; try (now eexists); lia.
  - destruct (N.ltb_spec c 1114112); [now eexists|lia].
Qed.

Lemma utf8_char_surrogate (c : N) :
  ~ encodable c -> utf8_char c = Raise ValueError.
Proof.
  unfold encodable, utf8_char. intros Hc.
  destruct (N.ltb_spec c 128); [lia|].
  destruct (N.ltb_spec c 2048); [lia|].
  destruct (N.ltb_spec c 65536).
  - destruct (N.leb_spec 55296 c), (N.leb_spec c 57343); cbn [andb]; try easy; lia.
  - destruct (N.ltb_spec c 1114112); [lia|easy].
Qed.

Lemma encodable_dec (c : N) : encodable c \/ ~ encodable c.
Proof.
  unfold encodable.
  destruct (N.ltb_spec c 55296); [left; lia|].
  destruct (N.ltb_spec 57343 c); [|right; lia].
  destruct (N.ltb_spec c 1114112); [left; lia|right; lia].
Qed.

Lemma utf8_encode_app (s1 s2 : str) :
  utf8_encode (s1 ++ s2)
  = b1 ← utf8_encode s1; b2 ← utf8_encode s2; Return (b1 ++ b2).
Proof.
  induction s1 as [|c s1 IH]; cbn [app utf8_encode].
  - rewrite py_bind_Return. now destruct (utf8_encode s2).
  - destruct (utf8_char c) as [b| |]; try easy. rewrite !py_bind_Return, IH.
    destruct (utf8_encode s1) as [b1| |]; try easy. rewrite !py_bind_Return.
    destruct (utf8_encode s2) as [b2| |]; try easy.
    now rewrite !py_bind_Return, app_assoc.
Qed.

Lemma utf8_encode_encodable (s : str) :
  Forall encodable s -> exists b, utf8_encode s = Return b /\ (s <> [] -> b <> []).
Proof.
  induction 1 as [|c s Hc _ (bs & Hbs & _)]; [now exists []|].
  destruct (utf8_char_encodable c Hc) as (b & Hb & Hne).
  exists (b ++ bs). cbn [utf8_encode]. rewrite Hb, py_bind_Return, Hbs, py_bind_Return.
  split; [easy|]. intros _ Happ. now apply app_eq_nil in Happ.
Qed.

Lemma utf8_encode_surrogate (s : str) :
  Exists (fun c => ~ encodable c) s -> utf8_encode s = Raise ValueError.
Proof.
  induction s as [|c s IH]; intros Hex; [now apply Exists_nil in Hex|].
  cbn [utf8_encode]. destruct (encodable_dec c) as [Hc|Hc].
  - destruct (utf8_char_encodable c Hc) as (b & -> & _). rewrite py_bind_Return.
    rewrite IH; [easy|]. apply Exists_cons in Hex as [Hex|Hex]; easy.
  - now rewrite utf8_char_surrogate.
Qed.

(** X8.  For a string without surrogates, [format_str_for_write] returns
    bytes: none for the empty string, and otherwise the UTF-8 encoding of
    the string closed by one newline byte, which is added when the string
    does not end with a newline and is the string's own when it does. *)
Theorem format_str_for_write_ends_the_line (input_str : str) :
  Forall encodable input_str ->
  exists b,
    format_str_for_write input_str = Return b
    /\ (input_str = [] -> b = [])
    /\ (input_str <> [] ->
        exists body,
          b = body ++ [x0a]
          /\ (last input_str = Some 10%N -> utf8_encode input_str = Return b)
          /\ (last input_str <> Some 10%N -> utf8_encode input_str = Return body)).
Proof.
  intros Hs. unfold format_str_for_write.
  destruct input_str as [|c0 s0] using rev_ind; [now exists []|]. clear IHs0.
  rewrite length_app, last_snoc. cbn [length]. replace (_ + 1 <? 1) with false
    by (symmetry; apply Nat.ltb_ge; lia).
  apply Forall_app in Hs as [Hs0 Hc].
  destruct (utf8_encode_encodable s0 Hs0) as (b0 & Hb0 & _).
  destruct (N.eqb_spec c0 10) as [->|Hne]; cbn [negb].
  - exists (b0 ++ [x0a]). rewrite utf8_encode_app, Hb0, py_bind_Return.
    repeat split; [now destruct s0|]. intros _. exists b0. repeat split; congruence.
  - destruct (utf8_encode_encodable (s0 ++ [c0])) as (b1 & Hb1 & _);
      [now apply Forall_app|].
    exists (b1 ++ [x0a]). rewrite utf8_encode_app, Hb1, py_bind_Return.
    repeat split; [now destruct s0|]. intros _. exists b1. repeat split; congruence.
Qed.

(** X8, an instance: a command of three letters. *)
Lemma format_str_for_write_ends_the_line_witness :
  Forall encodable [110; 105; 120]%N
  /\ format_str_for_write [110; 105; 120]%N = Return [x6e; x69; x78; x0a].
Proof.
  assert (Hs : Forall encodable [110; 105; 120]%N)
    by (repeat constructor; unfold encodable; lia).
  split; [exact Hs|].
  destruct (format_str_for_write_ends_the_line _ Hs) as (b & Hb & _).
  rewrite Hb. vm_compute in Hb. symmetry. exact Hb.
Defined.

(** X9.  A string that holds a surrogate code point anywhere makes
    [format_str_for_write] raise ([UnicodeEncodeError], a [ValueError]),
    whether or not a newline has to be added. *)
Theorem format_str_for_write_surrogate (input_str : str) :
  Exists (fun c => ~ encodable c) input_str ->
  format_str_for_write input_str = Raise ValueError.
Proof.
  intros Hex. unfold format_str_for_write.
  destruct input_str as [|c0 s0] using rev_ind; [now apply Exists_nil in Hex|]. clear IHs0.
  rewrite length_app, last_snoc. cbn [length]. replace (_ + 1 <? 1) with false
    by (symmetry; apply Nat.ltb_ge; lia).
  destruct (negb (c0 =? 10)%N).
  - apply utf8_encode_surrogate, Exists_app. now left.
  - now apply utf8_encode_surrogate.
Qed.

(** X9, an instance: a lone high surrogate after a letter. *)
Lemma format_str_for_write_surrogate_witness :
  Exists (fun c => ~ encodable c) [97; 55357]%N
  /\ format_str_for_write [97; 55357]%N = Raise ValueError.
Proof.
  assert (Hex : Exists (fun c => ~ encodable c) [97; 55357]%N)
    by (apply Exists_cons_tl, Exists_cons_hd; unfold encodable; lia).
  exact (conj Hex (format_str_for_write_surrogate _ Hex)).
Defined.

(** X10.  [strings_share_characters] answers [True] exactly when some
    character occurs in both strings; the order of the arguments does not
    matter, and the empty string shares nothing. *)
Theorem strings_share_characters_spec (str1 str2 : str) :
  (strings_share_characters str1 str2 = true <-> exists c, In c str1 /\ In c str2)
  /\ strings_share_characters str1 str2 = strings_share_characters str2 str1
  /\ strings_share_characters [] str2 = false
  /\ strings_share_characters str1 [] = false.
Proof.
  assert (Hspec : forall s1 s2,
             strings_share_characters s1 s2 = true <-> exists c, In c s1 /\ In c s2).
  { intros s1 s2. induction s2 as [|i s2 IH]; cbn [strings_share_characters].
    - split; [easy|]. now intros (c & _ & []).
    - destruct (existsb (N.eqb i) s1) eqn:Hex.
      + split; [|easy]. intros _. apply existsb_exists in Hex as (c & Hc & Heq).
        apply N.eqb_eq in Heq as <-. exists i. split; [easy|now left].
      + rewrite IH. split.
        * intros (c & H1 & H2). exists c. split; [easy|now right].
        * intros (c & H1 & [<-|H2]); [|now exists c].
          assert (existsb (N.eqb i) s1 = true); [|congruence].
          apply existsb_exists. exists i. split; [easy|apply N.eqb_refl]. }
  repeat split.
  - apply Hspec.
  - apply Hspec.
  - destruct (strings_share_characters str1 str2) eqn:H1,
             (strings_share_characters str2 str1) eqn:H2; try easy.
    + apply Hspec in H1 as (c & Ha & Hb).
      assert (strings_share_characters str2 str1 = true) by (apply Hspec; now exists c).
      congruence.
    + apply Hspec in H2 as (c & Ha & Hb).
      assert (strings_share_characters str1 str2 = true) by (apply Hspec; now exists c).
      congruence.
  - induction str2 as [|i s2 IH]; [easy|exact IH].
Qed.

(** X11.  [read3] loses no byte and reads no further than it must: its
    data are the chunks that it has read, joined; every chunk before the
    last one read is non-empty and free of newlines; and it stops on the
    first chunk that holds a newline or is empty, or at the end of the
    stream. *)
Theorem read3_reads_one_line (reader : list bytes) :
  exists used,
    reader = used ++ (read3 reader).2
    /\ (read3 reader).1 = concat used
    /\ Forall open_chunk (removelast used)
    /\ match last used with
       | Some temp => ~ open_chunk temp \/ (read3 reader).2 = []
       | None => reader = []
       end.
Proof.
  induction reader as [|temp reader (used & Hs & Hd & Ho & Hl)]; [now exists []|].
  cbn [read3]. destruct (bytes_in [x0a] temp) eqn:Hnl; cbn [negb andb].
  { exists [temp]. cbn. rewrite app_nil_r. repeat split; [constructor|].
    left. unfold open_chunk. intros [? _]. congruence. }
  destruct temp as [|b temp]; cbn [bytes_eqb negb].
  { exists [[]]. cbn. repeat split; [constructor|]. left. now intros [_ ?]. }
  destruct (read3 reader) as [data rest] eqn:Hr. cbn [fst snd] in *.
  destruct used as [|u used].
  - cbn in Hl, Hs, Hd. subst reader data. exists [b :: temp]. cbn.
    repeat split; [constructor|now right].
  - exists ((b :: temp) :: u :: used). cbn [app concat fst snd]. repeat split.
    + now rewrite Hs.
    + now rewrite Hd.
    + change (removelast ((b :: temp) :: u :: used))
        with ((b :: temp) :: removelast (u :: used)).
      constructor; [now split|exact Ho].
    + change (last ((b :: temp) :: u :: used)) with (last (u :: used)).
      destruct (last (u :: used)) eqn:Hlast; [exact Hl|].
      now apply last_None in Hlast.
Qed.

(** ** Poses in a packet *)

Lemma valid_stop_test (i : Z) :
  valid_stop i -> ((i <? 0) || (sys_maxsize <? i))%Z = false.
Proof.
  unfold valid_stop. intros Hi. apply orb_false_iff. split; apply Z.ltb_ge; lia.
Qed.

Lemma struct_total_nonneg (struct : list Z) :
  Forall valid_stop struct -> (0 <= struct_total struct)%Z.
Proof.
  induction 1 as [|i struct Hi _ IH]; cbn; [lia|]. unfold valid_stop in Hi.
  unfold struct_total in IH. lia.
Qed.

(** X12.  With sizes that [islice] accepts, [parse_poses_from_packet]
    returns one pose per size; the poses, joined, are the beginning of the
    packet, of as many values as the sizes ask for, so that no value is
    skipped, repeated or reordered; each pose is no longer than its size;
    and when the packet holds enough values the shape of the result is the
    structure. *)
Theorem parse_poses_cuts_a_prefix {A : Type} (packet : list A) (struct : list Z) :
  Forall valid_stop struct ->
  exists poses,
    parse_poses_from_packet packet struct = Return poses
    /\ length poses = length struct
    /\ concat poses = take (Z.to_nat (struct_total struct)) packet
    /\ Forall2 (fun pose i => (Z.of_nat (length pose) <= i)%Z) poses struct
    /\ ((struct_total struct <= Z.of_nat (length packet))%Z ->
        get_poses_shape poses = struct).
Proof.
  intros Hs. revert packet.
  induction Hs as [|i struct Hi Hs IH]; intros packet.
  { exists []. cbn. now rewrite take_0. }
  cbn [parse_poses_from_packet]. rewrite (valid_stop_test i Hi).
  destruct (IH (drop (Z.to_nat i) packet)) as (poses & -> & Hlen & Hcat & Hle & Hshape).
  rewrite py_bind_Return. eexists. split; [reflexivity|].
  pose proof (struct_total_nonneg struct Hs) as Hpos.
  unfold valid_stop in Hi. change (struct_total (i :: struct)) with (i + struct_total struct)%Z.
  repeat split.
  - cbn. now rewrite Hlen.
  - cbn [concat]. rewrite Hcat, take_take_drop. f_equal. lia.
  - constructor; [|exact Hle]. rewrite length_take. lia.
  - intros Hfit. cbn [get_poses_shape map]. f_equal.
    + rewrite length_take. lia.
    + apply Hshape. rewrite length_drop. lia.
Qed.

(** X12, an instance: a packet of seven values read as a pose of three and
    a pose of four. *)
Lemma parse_poses_cuts_a_prefix_witness :
  Forall valid_stop [3; 4]%Z
  /\ parse_poses_from_packet [1; 2; 3; 4; 5; 6; 7] [3; 4]%Z
     = Return [[1; 2; 3]; [4; 5; 6; 7]].
Proof.
  assert (Hs : Forall valid_stop [3; 4]%Z)
    by (repeat constructor; unfold valid_stop, sys_maxsize; lia).
  split; [exact Hs|].
  destruct (parse_poses_cuts_a_prefix [1; 2; 3; 4; 5; 6; 7] [3; 4]%Z Hs)
    as (poses & Hp & _).
  rewrite Hp. vm_compute in Hp. symmetry. exact Hp.
Defined.

(** X13.  One size that [islice] refuses, a negative one for instance,
    anywhere in the structure makes [parse_poses_from_packet] raise
    [ValueError], whatever the packet and the other sizes: no partial
    result comes back. *)
Theorem parse_poses_refuses_a_bad_size {A : Type} (packet : list A) (struct : list Z) :
  Exists (fun i => ~ valid_stop i) struct ->
  parse_poses_from_packet packet struct = Raise ValueError.
Proof.
  revert packet. induction struct as [|i struct IH]; intros packet Hex;
    [now apply Exists_nil in Hex|].
  cbn [parse_poses_from_packet].
  destruct ((i <? 0) || (sys_maxsize <? i))%Z eqn:Htest; [reflexivity|].
  apply orb_false_iff in Htest as [H1%Z.ltb_ge H2%Z.ltb_ge].
  apply Exists_cons in Hex as [Hbad|Hex].
  - destruct Hbad. unfold valid_stop. lia.
  - now rewrite IH.
Qed.

(** X13, an instance: a negative size after a good one. *)
Lemma parse_poses_refuses_a_bad_size_witness :
  Exists (fun i => ~ valid_stop i) [2; -1]%Z
  /\ parse_poses_from_packet [1; 2; 3] [2; -1]%Z = Raise ValueError.
Proof.
  assert (Hex : Exists (fun i => ~ valid_stop i) [2; -1]%Z)
    by (apply Exists_cons_tl, Exists_cons_hd; unfold valid_stop; lia).
  exact (conj Hex (parse_poses_refuses_a_bad_size [1; 2; 3] [2; -1]%Z Hex)).
Defined.

(** X14.  [get_poses_shape] and [parse_poses_from_packet] are inverse to
    each other on poses laid end to end: parsing the joined poses, with
    whatever follows them, by their own shape gives the poses back. *)
Theorem parse_poses_of_their_shape {A : Type} (poses : list (list A)) (rest : list A) :
  Forall (fun pose => (Z.of_nat (length pose) <= sys_maxsize)%Z) poses ->
  parse_poses_from_packet (concat poses ++ rest) (get_poses_shape poses) = Return poses.
Proof.
  induction 1 as [|pose poses Hpose _ IH]; [reflexivity|].
  cbn [get_poses_shape map parse_poses_from_packet concat].
  rewrite valid_stop_test by (unfold valid_stop; lia).
  rewrite Nat2Z.id, <- app_assoc, take_app_length, drop_app_length.
  fold (get_poses_shape poses). now rewrite IH.
Qed.

(** X14, an instance: a pose of two values and an empty one, followed by
    one more value. *)
Lemma parse_poses_of_their_shape_witness :
  Forall (fun pose => (Z.of_nat (length pose) <= sys_maxsize)%Z) [[5; 6]; []]
  /\ parse_poses_from_packet [5; 6; 7] (get_poses_shape [[5; 6]; []])
     = Return [[5; 6]; []].
Proof.
  assert (Hs : Forall (fun pose => (Z.of_nat (length pose) <= sys_maxsize)%Z) [[5; 6]; []])
    by (repeat constructor; unfold sys_maxsize; cbn; lia).
  exact (conj Hs (parse_poses_of_their_shape [[5; 6]; []] [7] Hs)).
Defined.

(** ** [LazyKalman] outside a calibration *)

Section KalmanFurther.
Context {K : PyKalman} {obj : Type}.
Implicit Types (k : LazyKalman.t obj) (read : obj -> vec3) (obz : obj).

(** X15.  A countdown that is zero or negative never ends: whatever the
    calls, [apply] never re-fits and keeps the pykalman filter it has.
    With zero nothing is buffered; with a negative countdown, which
    [calibrate] and the constructor accept, every observation is added to
    the buffer and the countdown moves further from zero. *)
Theorem nonpositive_countdown_never_refits (k : LazyKalman.t obj)
    (calls : list ((obj -> vec3) * obj)) :
  (LazyKalman._calibration_countdown k <= 0)%Z ->
  exists k',
    LazyKalman.apply_all k calls = Return k'
    /\ LazyKalman.refits k' = LazyKalman.refits k
    /\ LazyKalman._filter k' = LazyKalman._filter k
    /\ LazyKalman._calibration_observations k'
       = LazyKalman._calibration_observations k
         ++ (if (LazyKalman._calibration_countdown k =? 0)%Z then [] else map snd calls)
    /\ LazyKalman._calibration_countdown k'
       = (if (LazyKalman._calibration_countdown k =? 0)%Z then 0
          else LazyKalman._calibration_countdown k - Z.of_nat (length calls))%Z.
Proof.
  intros Hle. destruct (Z.eqb_spec (LazyKalman._calibration_countdown k) 0) as [H0|H0].
  - destruct (apply_all_idle k calls H0) as (k' & Ha & Hc & Ho & Hr & Hf).
    exists k'. rewrite app_nil_r. now repeat split.
  - revert k Hle H0. induction calls as [|[read obz] calls IH]; intros k Hle H0.
    + exists k. cbn. rewrite app_nil_r. repeat split; lia.
    + destruct (apply_counting read k obz) as (k1 & Ha & Hc & Ho & Hr & Hf & He); [lia..|].
      destruct (IH k1) as (k' & Ha' & Hr' & Hf' & Ho' & Hc'); [lia..|].
      exists k'. cbn [LazyKalman.apply_all]. rewrite Ha, py_bind_Return.
      split; [exact Ha'|]. rewrite Hr', Hf', Ho', Hc', Hr, Hf, Ho, Hc.
      cbn [map length snd]. rewrite <- app_assoc. repeat split; lia.
Qed.

(** X16.  With learning switched off and no countdown ending among the
    calls, the covariance of the filter never changes: every call filters
    its observation with the same pykalman filter and the same covariance,
    from the mean that the call before left, and the flag stays off. *)
Theorem learning_off_freezes_covariance (k : LazyKalman.t obj)
    (calls : list ((obj -> vec3) * obj)) :
  LazyKalman.do_learning k = false ->
  (LazyKalman._calibration_countdown k <= 0
   \/ Z.of_nat (length calls) < LazyKalman._calibration_countdown k)%Z ->
  exists k',
    LazyKalman.apply_all k calls = Return k'
    /\ LazyKalman._p_now k' = LazyKalman._p_now k
    /\ LazyKalman.do_learning k' = false
    /\ LazyKalman._filter k' = LazyKalman._filter k
    /\ LazyKalman._x_now k'
       = fold_left
           (fun x call =>
              (filter_update (LazyKalman._filter k) x (LazyKalman._p_now k)
                 (call.1 call.2)).1)
           calls (LazyKalman._x_now k).
Proof.
  revert k. induction calls as [|[read obz] calls IH]; intros k Hoff Hc; [now exists k|].
  cbn [length] in Hc.
  destruct (apply_no_refit read k obz) as (k1 & Ha & Hx & Hp & Hl & Hf & Hc1); [lia|].
  rewrite Hoff in Hp, Hl.
  destruct (IH k1) as (k' & Ha' & Hp' & Hl' & Hf' & Hx'); [exact Hl| |].
  { rewrite Hc1. destruct (Z.eqb_spec (LazyKalman._calibration_countdown k) 0); lia. }
  exists k'. cbn [LazyKalman.apply_all fold_left fst snd]. rewrite Ha, py_bind_Return.
  split; [exact Ha'|]. rewrite Hp', Hf', Hx', Hp, Hf, Hx. now repeat split.
Qed.

End KalmanFurther.

(** X15, an instance: a filter built with a negative [train_size], fed
    two observations. *)
Lemma nonpositive_countdown_never_refits_witness :
  let k := LazyKalman.init (K := echo_kalman) (obj := nat) zeros3 eye3 eye3 5 (-1) in
  let calls := [(fun _ : nat => zeros3, 0); (fun _ : nat => zeros3, 1)] in
  (LazyKalman._calibration_countdown k <= 0)%Z
  /\ exists k',
       LazyKalman.apply_all k calls = Return k'
       /\ LazyKalman.refits k' = []
       /\ LazyKalman._calibration_observations k' = [0; 1]
       /\ LazyKalman._calibration_countdown k' = (-3)%Z.
Proof.
  intros k calls.
  assert (Hle : (LazyKalman._calibration_countdown k <= 0)%Z) by (cbn; lia).
  split; [exact Hle|].
  destruct (nonpositive_countdown_never_refits k calls Hle)
    as (k' & Ha & Hr & _ & Ho & Hc).
  exists k'. exact (conj Ha (conj Hr (conj Ho Hc))).
Defined.

(** X16, an instance: a filter without countdown, learning switched off. *)
Lemma learning_off_freezes_covariance_witness :
  let k := set_do_learning
             (LazyKalman.init (K := echo_kalman) (obj := nat) zeros3 eye3 eye3 5 0) false in
  let calls := [(fun _ : nat => zeros3, 0); (fun _ : nat => zeros3, 1)] in
  LazyKalman.do_learning k = false
  /\ (LazyKalman._calibration_countdown k <= 0
      \/ Z.of_nat (length calls) < LazyKalman._calibration_countdown k)%Z
  /\ exists k',
       LazyKalman.apply_all k calls = Return k'
       /\ LazyKalman._p_now k' = Vector [0; 0; 0]%float.
Proof.
  intros k calls.
  assert (Hc : (LazyKalman._calibration_countdown k <= 0
                \/ Z.of_nat (length calls) < LazyKalman._calibration_countdown k)%Z)
    by (left; cbn; lia).
  refine (conj eq_refl (conj Hc _)).
  destruct (learning_off_freezes_covariance k calls eq_refl Hc) as (k' & Ha & Hp & _).
  exists k'. exact (conj Ha Hp).
Defined.

(** ** The tracker: more on its methods *)

Section TrackerFurther.
Context {K : PyKalman}.
Implicit Types (t : BlobTracker) (a : acquisition) (key : nat)
  (rows : list vec3) (filters : list (option (LazyKalman.t nat))).

Lemma set_learning_loop_seq (do_learning : bool) (m : nat) :
  forall i filters,
    i + m <= length filters ->
    exists filters',
      set_learning_loop do_learning (seq i m) filters = Return filters'
      /\ length filters' = length filters
      /\ forall j,
           filters' !! j
           = if decide (i <= j < i + m)
             then set_slot_learning do_learning <$> filters !! j
             else filters !! j.
Proof.
  induction m as [|m IH]; intros i filters Hlen.
  { exists filters. repeat split. intros j. destruct (decide _); [lia|easy]. }
  cbn [seq set_learning_loop]. unfold set_learning_at.
  destruct (lookup_lt_is_Some_2 filters i ltac:(lia)) as [slot Hslot]. rewrite Hslot.
  destruct slot as [k|]; rewrite py_bind_Return.
  - destruct (IH (S i) (<[i := Some (set_do_learning k do_learning)]> filters))
      as (filters' & Hloop & Hl & Hj); [rewrite length_insert; lia|].
    exists filters'. split; [exact Hloop|]. rewrite Hl, length_insert. split; [easy|].
    intros j. rewrite Hj. destruct (decide (i = j)) as [<-|Hne].
    + rewrite list_lookup_insert_eq by lia. rewrite Hslot.
      destruct (decide _); [lia|]. destruct (decide _); [easy|lia].
    + rewrite list_lookup_insert_ne by easy.
      destruct (decide _), (decide _); try easy; lia.
  - destruct (IH (S i) filters) as (filters' & Hloop & Hl & Hj); [lia|].
    exists filters'. split; [exact Hloop|]. split; [easy|].
    intros j. rewrite Hj. destruct (decide (i = j)) as [<-|Hne].
    + rewrite Hslot. destruct (decide _); [lia|]. destruct (decide _); [easy|lia].
    + destruct (decide _), (decide _); try easy; lia.
Qed.

(** X17.  On a tracker with one filter slot per colour mask,
    [set_kalman_learning] returns without an exception; it sets the flag
    of every filter that exists to the value given, creates no filter in
    an empty slot, and changes nothing else of a filter or of the
    tracker. *)
Theorem set_kalman_learning_sets_every_filter t (do_learning : bool) :
  length (kalmanFilterz t) = length (color_masks t) ->
  exists t',
    set_kalman_learning t do_learning = Return t'
    /\ kalmanFilterz t'
       = set_slot_learning do_learning <$> kalmanFilterz t
    /\ (forall key k,
          kalmanFilterz t !! key = Some (Some k) ->
          exists k',
            kalmanFilterz t' !! key = Some (Some k')
            /\ LazyKalman.do_learning k' = do_learning
            /\ LazyKalman._filter k' = LazyKalman._filter k
            /\ LazyKalman._calibration_countdown k' = LazyKalman._calibration_countdown k
            /\ LazyKalman._calibration_observations k'
               = LazyKalman._calibration_observations k
            /\ LazyKalman._x_now k' = LazyKalman._x_now k
            /\ LazyKalman._p_now k' = LazyKalman._p_now k)
    /\ (forall key, kalmanFilterz t !! key = Some None ->
                    kalmanFilterz t' !! key = Some None)
    /\ t' = set_filters t (kalmanFilterz t')
    /\ poses t' = poses t /\ alive t' = alive t /\ can_track t' = can_track t.
Proof.
  intros Hlen. unfold set_kalman_learning.
  destruct (set_learning_loop_seq do_learning (length (color_masks t)) 0 (kalmanFilterz t))
    as (filters' & Hloop & Hl & Hj); [lia|].
  rewrite Hloop, py_bind_Return. eexists. split; [reflexivity|].
  cbn [set_filters kalmanFilterz poses alive can_track].
  assert (Heq : filters' = set_slot_learning do_learning <$> kalmanFilterz t).
  { apply list_eq. intros j. rewrite Hj, list_lookup_fmap.
    destruct (decide _) as [|Hout]; [easy|].
    rewrite (lookup_ge_None_2 (kalmanFilterz t) j) by lia. easy. }
  split; [exact Heq|]. rewrite Heq. repeat split.
  - intros key k Hk. rewrite list_lookup_fmap, Hk. cbn. eexists. now repeat split.
  - intros key Hk. now rewrite list_lookup_fmap, Hk.
Qed.

Lemma solve_channels_app t a (keys1 keys2 : list nat)
    (s : list vec3 * list (option (LazyKalman.t nat))) :
  solve_channels t a (keys1 ++ keys2) s
  = match solve_channels t a keys1 s with
    | (s', Return _) => solve_channels t a keys2 s'
    | (s', r) => (s', r)
    end.
Proof.
  revert s. induction keys1 as [|key keys1 IH]; intros s; [easy|].
  cbn [app solve_channels].
  destruct (solve_channel t a key s) as [s' [[]| |]]; [apply IH|easy|easy].
Qed.

Lemma solve_channels_unseen t a (keys : list nat)
    (s : list vec3 * list (option (LazyKalman.t nat))) :
  (forall key, key ∈ keys -> find_blob a key = Return None) ->
  solve_channels t a keys s = (s, Return tt).
Proof.
  induction keys as [|key keys IH]; intros Hnone; [easy|].
  cbn [solve_channels]. unfold solve_channel. destruct s as [rows filters].
  rewrite (Hnone key) by now left. apply IH. intros key' Hk. apply Hnone. now right.
Qed.

(** X18.  A cycle on a frame in which no detector sees its marker changes
    nothing: the table, the filters and the rest of the tracker are what
    they were, and the cycle ends normally, even before the frame size is
    known. *)
Theorem cycle_without_markers_changes_nothing t (h : heap) a :
  is_Some (h !! poses t) ->
  (forall key, key < length (color_masks t) -> find_blob a key = Return None) ->
  solve_blob_poses t h a = ((t, h), Return tt).
Proof.
  intros [rows Hrows] Hnone. unfold solve_blob_poses.
  rewrite solve_channels_unseen.
  - rewrite (lookup_total_correct _ _ _ Hrows), insert_id by exact Hrows.
    now destruct t.
  - intros key Hk. apply elem_of_seq in Hk. apply Hnone. lia.
Qed.

(** X19.  An exception of a detector ends the cycle at once and comes out
    of [solve_blob_poses]: when the detector of [key] raises and those
    before it return, the cycle raises the same exception, and the rows
    and the filters of [key] and of all later channels are what they were
    before the cycle. *)
Theorem detector_exception_ends_the_cycle t (h : heap) a key (e : exn) rows :
  tracker_inv t h -> h !! poses t = Some rows ->
  is_Some (frame_width t) -> is_Some (frame_height t) ->
  key < length (color_masks t) ->
  (forall key', key' < key -> exists ob, find_blob a key' = Return ob) ->
  find_blob a key = Raise e ->
  exists t' h' rows',
    solve_blob_poses t h a = ((t', h'), Raise e)
    /\ h' !! poses t' = Some rows'
    /\ forall key', key <= key' ->
         rows' !! key' = rows !! key'
         /\ kalmanFilterz t' !! key' = kalmanFilterz t !! key'.
Proof.
  intros (rows0 & Hrows0 & Hlen & Hfl) Hrows Hw Hh Hkey Hdet Hraise.
  assert (rows0 = rows) as -> by congruence.
  unfold solve_blob_poses. rewrite (lookup_total_correct _ _ _ Hrows).
  replace (length (color_masks t)) with (key + S (length (color_masks t) - S key)) by lia.
  rewrite seq_app, solve_channels_app. cbn [seq].
  pose proof (solve_channels_returns t a (seq 0 key) rows (kalmanFilterz t)) as Hret.
  pose proof (fun key' Hk => solve_channels_other t a key' (seq 0 key) rows (kalmanFilterz t) Hk)
    as Hother.
  destruct (solve_channels t a (seq 0 key) (rows, kalmanFilterz t)) as [[rows1 filters1] r].
  cbn [fst snd] in *. rewrite Hret; [|intros key' Hk'; apply elem_of_seq in Hk'|easy|easy].
  2: { split; [lia|]. split; [lia|]. apply Hdet. lia. }
  cbn [solve_channels Nat.add]. unfold solve_channel at 1. rewrite Hraise.
  eexists _, _, rows1. split; [reflexivity|]. cbn [set_filters poses kalmanFilterz].
  rewrite lookup_insert_eq. split; [reflexivity|].
  intros key' Hk'. apply Hother. rewrite elem_of_seq. lia.
Qed.

End TrackerFurther.

(** X17, an instance: a tracker of two channels, the first with a filter. *)
Lemma set_kalman_learning_sets_every_filter_witness :
  let t := set_filters (BlobTracker_init (K := echo_kalman) 490 2 (one_mask ++ one_mask) ∅).1
             [Some (LazyKalman.init zeros3 eye3 eye3 5 15); None] in
  length (kalmanFilterz t) = length (color_masks t)
  /\ exists t',
       set_kalman_learning t false = Return t'
       /\ kalmanFilterz t'
          = [Some (set_do_learning (LazyKalman.init zeros3 eye3 eye3 5 15) false); None].
Proof.
  intros t.
  destruct (set_kalman_learning_sets_every_filter t false eq_refl) as (t' & Hs & Hf & _).
  split; [reflexivity|]. exists t'. exact (conj Hs Hf).
Defined.

(** X18, an instance: a new tracker and a frame without markers. *)
Lemma cycle_without_markers_changes_nothing_witness :
  let t := (BlobTracker_init (K := echo_kalman) 490 2 one_mask ∅).1 in
  let h := (BlobTracker_init (K := echo_kalman) 490 2 one_mask ∅).2 in
  let a := {| frame_shape := Some [480; 640; 3]%float;
              find_blob := fun _ => Return None;
              stop_requested := false |} in
  is_Some (h !! poses t)
  /\ (forall key, key < length (color_masks t) -> find_blob a key = Return None)
  /\ solve_blob_poses t h a = ((t, h), Return tt).
Proof.
  intros t h a.
  assert (Hrows : is_Some (h !! poses t)) by (eexists; reflexivity).
  assert (Hnone : forall key, key < length (color_masks t) -> find_blob a key = Return None)
    by reflexivity.
  exact (conj Hrows (conj Hnone (cycle_without_markers_changes_nothing t h a Hrows Hnone))).
Defined.

(** X19, an instance: the only detector of a started tracker fails. *)
Lemma detector_exception_ends_the_cycle_witness :
  let t := started_tracker.1 in
  let h := started_tracker.2 in
  let a := {| frame_shape := Some [480; 640; 3]%float;
              find_blob := fun _ => Raise DetectorError;
              stop_requested := false |} in
  tracker_inv t h
  /\ h !! poses t = Some [zeros3]
  /\ exists t' h',
       solve_blob_poses t h a = ((t', h'), Raise DetectorError).
Proof.
  intros t h a.
  assert (Hinv : tracker_inv t h) by (exists [zeros3]; now repeat split).
  assert (Hrows : h !! poses t = Some [zeros3]) by reflexivity.
  assert (Hw : is_Some (frame_width t)) by (eexists; reflexivity).
  assert (Hh : is_Some (frame_height t)) by (eexists; reflexivity).
  assert (Hkey : 0 < length (color_masks t)) by (cbn; lia).
  assert (Hdet : forall key', key' < 0 -> exists ob, find_blob a key' = Return ob)
    by (intros key' Hk; lia).
  destruct (detector_exception_ends_the_cycle t h a 0 DetectorError [zeros3]
              Hinv Hrows Hw Hh Hkey Hdet eq_refl) as (t' & h' & rows' & Hs & _).
  refine (conj Hinv (conj Hrows _)). exists t', h'. exact Hs.
Defined.


(** ** The worker thread as a whole *)

Section WorkerFurther.
Context {K : PyKalman}.
Implicit Types (t : BlobTracker) (a : acquisition) (h : heap)
  (script : list acquisition).

Lemma solve_channel_comes_back t a key (s : list vec3 * list (option (LazyKalman.t nat))) :
  detectors_come_back a -> (solve_channel t a key s).2 <> Unfinished.
Proof.
  intros Hback. destruct s as [rows filters]. unfold solve_channel.
  specialize (Hback key). destruct (find_blob a key) as [[b|]| |]; try easy.
  destruct (frame_width t) as [w|], (frame_height t) as [hh|]; try easy.
  destruct (rows !! key); [|easy].
  destruct (has_nan_in_pose _); [easy|]. cbn [negb].
  destruct (filters !! key) as [[k|]|]; try easy.
  destruct (apply_total (fun _ => triangulate (camera_focal_length t) (BALL_RADIUS_CM t) w hh b)
              k key) as [k' ->]. easy.
Qed.

Lemma solve_channels_come_back t a (keys : list nat)
    (s : list vec3 * list (option (LazyKalman.t nat))) :
  detectors_come_back a -> (solve_channels t a keys s).2 <> Unfinished.
Proof.
  intros Hback. revert s. induction keys as [|key keys IH]; intros s; [easy|].
  cbn [solve_channels]. pose proof (solve_channel_comes_back t a key s Hback) as Hs.
  destruct (solve_channel t a key s) as [s' [[]| |]]; cbn [snd] in *; [apply IH|easy|easy].
Qed.

Lemma solve_blob_poses_comes_back t h a :
  detectors_come_back a ->
  (solve_blob_poses t h a).2 <> Unfinished
  /\ can_track (solve_blob_poses t h a).1.1 = can_track t
  /\ alive (solve_blob_poses t h a).1.1 = alive t.
Proof.
  intros Hback. unfold solve_blob_poses.
  pose proof (solve_channels_come_back t a (seq 0 (length (color_masks t)))
                (h !!! poses t, kalmanFilterz t) Hback) as Hs.
  now destruct (solve_channels _ _ _ _) as [[rows filters] r].
Qed.

Lemma tracking_loop_ends script t h :
  Forall detectors_come_back script ->
  Exists (fun a => frame_shape a = None) script ->
  exists t' h',
    tracking_loop script t h = ((t', h'), Return tt)
    /\ alive t' = false /\ can_track t' = false.
Proof.
  intros Hback Hex. revert t h.
  induction Hback as [|a script Ha Hback IH]; intros t h; [now apply Exists_nil in Hex|].
  cbn [tracking_loop].
  destruct (alive t && can_track t); [|now eexists _, _].
  set (t1 := set_flags t (alive t) (bool_decide (is_Some (frame_shape a)))).
  destruct (solve_blob_poses_comes_back t1 h a Ha) as (Hr & Hc & _).
  destruct (solve_blob_poses t1 h a) as [[t2 h2] r]. cbn [fst snd] in *.
  destruct r as [[]|e|]; [|now eexists _, _|easy].
  destruct (can_track (stopped_by a t2)) eqn:Hc3; cbn [negb]; [|now eexists _, _].
  apply IH. apply Exists_cons in Hex as [Hnone|Hex]; [|exact Hex].
  exfalso. unfold stopped_by in Hc3. destruct (stop_requested a); [easy|].
  rewrite Hc in Hc3. subst t1. cbn in Hc3. rewrite Hnone in Hc3.
  apply bool_decide_eq_true in Hc3. now destruct Hc3.
Qed.

(** X20.  The worker ends when the video source expires.  When the first
    acquisition brings a frame of three axes (height, width and colour
    channels), a later one brings none, and the detectors come back on
    every frame, [run] returns, without an exception, and leaves the
    worker marked dead and not tracking; the acquisitions after the one
    that ended the loop play no part. *)
Theorem run_ends_when_the_source_expires script t h (a0 : acquisition)
    (height width channels : float) :
  frame_shape a0 = Some [height; width; channels] ->
  Forall detectors_come_back script ->
  Exists (fun a => frame_shape a = None) script ->
  exists t' h',
    run (a0 :: script) t h = ((t', h'), Return tt)
    /\ alive t' = false /\ can_track t' = false.
Proof.
  intros Hframe Hback Hex. unfold run, at_start. rewrite Hframe. cbv zeta.
  destruct script as [|a1 script]; [now apply Exists_nil in Hex|].
  match goal with |- context [if negb (can_track ?x) then _ else _] => set (t2 := x) end.
  destruct (can_track t2) eqn:Hc; cbn [negb].
  - apply Forall_cons in Hback as [_ Hback].
    apply tracking_loop_ends; [exact Hback|].
    apply Exists_cons in Hex as [Hnone|Hex]; [|exact Hex].
    exfalso. subst t2. unfold stopped_by in Hc.
    destruct (stop_requested a1); [easy|]. cbn in Hc. rewrite Hnone in Hc.
    apply bool_decide_eq_true in Hc. now destruct Hc.
  - eexists _, _. split; [reflexivity|]. now cbn.
Qed.

Lemma tracker_inv_flags t h (alive' can_track' : bool) :
  tracker_inv t h -> tracker_inv (set_flags t alive' can_track') h.
Proof. intros (rows & H1 & H2 & H3). now exists rows. Qed.

Lemma tracker_inv_stopped t h a : tracker_inv t h -> tracker_inv (stopped_by a t) h.
Proof.
  unfold stopped_by. destruct (stop_requested a); [apply tracker_inv_flags|easy].
Qed.

Lemma stopped_by_frame a t :
  poses (stopped_by a t) = poses t /\ color_masks (stopped_by a t) = color_masks t.
Proof. unfold stopped_by. now destruct (stop_requested a). Qed.

Lemma tracking_loop_inv script t h :
  tracker_inv t h ->
  let '((t', h'), _) := tracking_loop script t h in
  tracker_inv t' h'
  /\ poses t' = poses t
  /\ color_masks t' = color_masks t
  /\ forall l, l <> poses t -> h' !! l = h !! l.
Proof.
  revert t h. induction script as [|a script IH]; intros t h Hinv; cbn [tracking_loop].
  - destruct (alive t && can_track t); cbn [finish]; [easy|].
    split; [now apply tracker_inv_flags|easy].
  - destruct (alive t && can_track t); cbn [finish];
      [|split; [now apply tracker_inv_flags|easy]].
    set (t1 := set_flags t (alive t) (bool_decide (is_Some (frame_shape a)))).
    pose proof (solve_blob_poses_inv t1 h a (tracker_inv_flags t h _ _ Hinv)) as Hcycle.
    destruct (solve_blob_poses t1 h a) as [[t2 h2] r].
    destruct Hcycle as (Hinv2 & Hp2 & Hm2 & Hh2). change (poses t1) with (poses t) in *.
    change (color_masks t1) with (color_masks t) in *.
    pose proof (tracker_inv_stopped t2 h2 a Hinv2) as Hinv3.
    destruct (stopped_by_frame a t2) as [Hp3 Hm3].
    assert (Hend : tracker_inv (set_flags (stopped_by a t2) false false) h2
                   /\ poses (set_flags (stopped_by a t2) false false) = poses t
                   /\ color_masks (set_flags (stopped_by a t2) false false) = color_masks t
                   /\ forall l, l <> poses t -> h2 !! l = h !! l).
    { split; [now apply tracker_inv_flags|]. cbn.
      split; [congruence|]. split; [congruence|exact Hh2]. }
    destruct r as [[]|e|]; cbn [finish]; [|exact Hend|].
    + destruct (negb (can_track (stopped_by a t2))); cbn [finish]; [exact Hend|].
      specialize (IH (stopped_by a t2) h2 Hinv3).
      destruct (tracking_loop script (stopped_by a t2) h2) as [[t' h'] r'].
      destruct IH as (I1 & I2 & I3 & I4). repeat split; try congruence.
      intros l Hl. rewrite I4 by congruence. now apply Hh2.
    + repeat split; try congruence. exact Hh2.
Qed.

(** X21.  Whatever the video source delivers and however the thread ends,
    [run] keeps the table of the worker where it is and in its shape, one
    row and one filter slot per colour mask, and writes to no other array
    of the heap: an array that [get_poses] gave out before is not changed
    by the thread. *)
Theorem run_keeps_the_table script t h :
  tracker_inv t h ->
  let '((t', h'), _) := run script t h in
  tracker_inv t' h'
  /\ poses t' = poses t
  /\ color_masks t' = color_masks t
  /\ (forall l, l <> poses t -> h' !! l = h !! l)
  /\ (forall l rows, l <> poses t -> h !! l = Some rows -> h' !! l = Some rows).
Proof.
  intros Hinv.
  assert (Hstart : forall a0,
            tracker_inv (at_start t a0).1 h
            /\ poses (at_start t a0).1 = poses t
            /\ color_masks (at_start t a0).1 = color_masks t).
  { intros a0. unfold at_start. destruct Hinv as (rows & H1 & H2 & H3).
    destruct (frame_shape a0) as [[|hh [|ww [|c [|d shape]]]]|];
      (split; [now exists rows|easy]). }
  unfold run. destruct script as [|a0 script]; [now repeat split|].
  destruct (Hstart a0) as (Hinv1 & Hp1 & Hm1).
  destruct (at_start t a0) as [t1 r]. cbn [fst] in *.
  pose proof (tracker_inv_stopped t1 h a0 Hinv1) as Hinv1'.
  destruct (stopped_by_frame a0 t1) as [Hp1' Hm1'].
  destruct r as [[]|e|]; [|repeat split; congruence|now repeat split].
  cbv zeta. destruct script as [|a1 script]; [repeat split; congruence|].
  match goal with |- context [if negb (can_track ?x) then _ else _] => set (t2 := x) end.
  assert (Hinv2 : tracker_inv t2 h)
    by (subst t2; now apply tracker_inv_stopped, tracker_inv_flags).
  assert (Hp2 : poses t2 = poses t /\ color_masks t2 = color_masks t).
  { subst t2. destruct (stopped_by_frame a1
      (set_flags (stopped_by a0 t1) (alive (stopped_by a0 t1))
         (bool_decide (is_Some (frame_shape a1))))) as [-> ->]. cbn. split; congruence. }
  destruct Hp2 as [Hp2 Hm2].
  destruct (negb (can_track t2)).
  - split; [now apply tracker_inv_flags|]. cbn. repeat split; congruence.
  - pose proof (tracking_loop_inv script t2 h Hinv2) as Hloop.
    destruct (tracking_loop script t2 h) as [[t' h'] r'].
    destruct Hloop as (I1 & I2 & I3 & I4).
    repeat split; try congruence.
    + intros l Hl. apply I4. congruence.
    + intros l rows Hl Hrows. rewrite I4 by congruence. exact Hrows.
Qed.

End WorkerFurther.

(** X20, an instance: a frame for [at_start], a frame for the second
    look, one cycle on a frame with a blob, and then no frame. *)
Lemma run_ends_when_the_source_expires_witness :
  let t := (BlobTracker_init (K := echo_kalman) 490 2 one_mask ∅).1 in
  let h := (BlobTracker_init (K := echo_kalman) 490 2 one_mask ∅).2 in
  let script := [frame_with offset_blob; frame_with offset_blob; no_frame] in
  frame_shape (frame_with offset_blob) = Some [480; 640; 3]%float
  /\ Forall detectors_come_back script
  /\ Exists (fun a => frame_shape a = None) script
  /\ exists t' h',
       run (frame_with offset_blob :: script) t h = ((t', h'), Return tt)
       /\ alive t' = false /\ can_track t' = false.
Proof.
  intros t h script.
  assert (Hframe : frame_shape (frame_with offset_blob) = Some [480; 640; 3]%float)
    by reflexivity.
  assert (Hback : Forall detectors_come_back script).
  { repeat constructor; intros key; cbn; try easy; now destruct key. }
  assert (Hex : Exists (fun a => frame_shape a = None) script)
    by (do 2 apply Exists_cons_tl; now apply Exists_cons_hd).
  exact (conj Hframe (conj Hback (conj Hex
           (run_ends_when_the_source_expires script t h _ _ _ _ Hframe Hback Hex)))).
Defined.

(** X21, an instance: a new tracker and a source that gives two frames. *)
Lemma run_keeps_the_table_witness :
  let t := (BlobTracker_init (K := echo_kalman) 490 2 one_mask ∅).1 in
  let h := (BlobTracker_init (K := echo_kalman) 490 2 one_mask ∅).2 in
  tracker_inv t h
  /\ let '((t', h'), _) := run [frame_with offset_blob; no_frame] t h in
     tracker_inv t' h' /\ poses t' = poses t.
Proof.
  intros t h.
  assert (Hinv : tracker_inv t h) by (exists [zeros3]; now repeat split).
  split; [exact Hinv|].
  pose proof (run_keeps_the_table [frame_with offset_blob; no_frame] t h Hinv) as Hrun.
  destruct (run [frame_with offset_blob; no_frame] t h) as [[t' h'] r].
  destruct Hrun as (H1 & H2 & _). exact (conj H1 H2).
Defined.

(** ** A blob at the centre of the image, in general *)

Lemma eqb_zero (v : float) : (v =? 0)%float = true -> exists s, Prim2SF v = S754_zero s.
Proof.
  rewrite FloatAxioms.eqb_spec. change (Prim2SF 0) with (S754_zero false).
  destruct (Prim2SF v) as [s|s| |s m e]; [now exists s|..]; unfold SFeqb; cbn; try easy;
    now destruct s.
Qed.

Lemma norm2_zero (x y : float) (s1 s2 : bool) :
  Prim2SF x = S754_zero s1 -> Prim2SF y = S754_zero s2 ->
  Prim2SF (norm2 x y) = S754_zero false.
Proof.
  intros Hx Hy. unfold norm2. rewrite FloatAxioms.sqrt_spec, FloatAxioms.add_spec, !FloatAxioms.mul_spec, Hx, Hy.
  now destruct s1, s2.
Qed.

(** *** The long double steps *)

Section LongDoubleFacts.
Import LongDouble.

Lemma mul_zero_or_nan_r (x y : LongDouble.t) : zero_or_nan y -> zero_or_nan (mul x y).
Proof. now destruct x as [[]|[]| |[]], y as [[]|[]| |[]]. Qed.

Lemma mul_zero_or_nan_l (x y : LongDouble.t) : zero_or_nan x -> zero_or_nan (mul x y).
Proof. now destruct x as [[]|[]| |[]], y as [[]|[]| |[]]. Qed.

Lemma add_zero_or_nan (x y : LongDouble.t) :
  zero_or_nan x -> zero_or_nan y -> zero_or_nan (add x y).
Proof. now destruct x as [[]|[]| |[]], y as [[]|[]| |[]]. Qed.

Lemma sub_zero_or_nan (x y : LongDouble.t) :
  zero_or_nan x -> zero_or_nan y -> zero_or_nan (sub x y).
Proof. now destruct x as [[]|[]| |[]], y as [[]|[]| |[]]. Qed.

Lemma div_zero_or_nan_l (x y : LongDouble.t) : zero_or_nan x -> zero_or_nan (div x y).
Proof. now destruct x as [[]|[]| |[]], y as [[]|[]| |[]]. Qed.

Lemma div_by_zero (a : LongDouble.t) (s : bool) :
  zero_or_nan a -> div a (S754_zero s) = S754_nan.
Proof. now destruct a as [[]|[]| |[]]. Qed.

(** Rounding keeps the sign it is given. *)
Lemma binary_round_aux_sign (p em : Z) (s : bool) (m e : Z) (l : location) :
  match binary_round_aux p em s m e l with
  | S754_zero s' | S754_infinity s' | S754_finite s' _ _ => s' = s
  | S754_nan => True
  end.
Proof.
  unfold binary_round_aux. destruct (shr_fexp p em m e l) as [mrs' e'].
  destruct (shr_fexp p em _ e' loc_Exact) as [mrs'' e''].
  destruct (shr_m mrs''); [easy| |easy]. now destruct (_ <=? _)%Z.
Qed.

Lemma mul_self_not_negative (x : LongDouble.t) : not_negative (mul x x).
Proof.
  destruct x as [[]|[]| |s m e]; try easy. unfold mul, SFmul.
  pose proof (binary_round_aux_sign prec emax (xorb s s) (Z.pos (m * m)) (e + e) loc_Exact)
    as H.
  destruct (binary_round_aux _ _ _ _ _ _) as [s'|s'| |s' m' e']; try easy;
    subst s'; now destruct s.
Qed.

Lemma sub_not_negative (x y : LongDouble.t) :
  not_negative x -> zero_or_nan y -> not_negative (sub x y).
Proof. now destruct x as [[]|[]| |[]], y as [[]|[]| |[]]. Qed.

Lemma add_one_not_negative (x : LongDouble.t) :
  not_negative x -> add one x <> S754_infinity true.
Proof.
  change one with (S754_finite false 9223372036854775808 (-63)).
  destruct x as [[]|[]| |[] m e]; try easy. intros _. unfold add, SFadd.
  cbn [cond_Zopp].
  match goal with |- context [(Z.pos ?a + Z.pos ?b)%Z] =>
    change (Z.pos a + Z.pos b)%Z with (Z.pos (a + b)) end.
  unfold binary_normalize, binary_round.
  match goal with |- context [let '(_, _) := ?p in _] => destruct p as [mz ez] end.
  pose proof (binary_round_aux_sign prec emax false (Z.pos mz) ez loc_Exact) as H.
  now destruct (binary_round_aux _ _ _ _ _ _) as [s'|s'| |s' m' e']; subst.
Qed.

(** Where [csqrtl] is modelled. *)
Lemma sqrt_defined (re im : LongDouble.t) :
  zero_or_nan im -> (im = S754_nan -> re <> S754_infinity true) ->
  is_Some (CLongDouble.sqrt (re, im)).
Proof.
  destruct re as [[]|[]| |[]], im as [[]|[]| |[]]; cbn; try easy; eauto.
  intros _ H. now destruct H.
Qed.

(** The quotient of two reals has no imaginary part, or is not a number. *)
Lemma div_real_zero_or_nan (a b : LongDouble.t) :
  zero_or_nan (CLongDouble.div (a, zero) (b, zero)).2.
Proof.
  unfold CLongDouble.div. change (SFabs zero) with zero.
  destruct (SFleb zero (SFabs b)) eqn:Hle.
  - destruct (_ && _); cbn [snd].
    + now apply div_zero_or_nan_l.
    + apply mul_zero_or_nan_l, sub_zero_or_nan; [easy|].
      now apply mul_zero_or_nan_r, div_zero_or_nan_l.
  - destruct b as [[]|[]| |[]]; try discriminate Hle. now destruct a.
Qed.

Lemma pow2_shape (z : CLongDouble.t) :
  zero_or_nan z.2 ->
  not_negative (CLongDouble.pow2 z).1 /\ zero_or_nan (CLongDouble.pow2 z).2.
Proof.
  destruct z as [zr zi]. cbn [snd fst]. intros Hi. unfold CLongDouble.pow2.
  destruct (_ && _); [easy|]. cbn [CLongDouble.mul fst snd]. split.
  - apply sub_not_negative; [apply mul_self_not_negative|now apply mul_zero_or_nan_l].
  - apply add_zero_or_nan; [now apply mul_zero_or_nan_r|now apply mul_zero_or_nan_l].
Qed.

(** Both square roots of [solve_blob_poses] are of numbers whose imaginary
    part is zero or not a number, and the second is not of minus infinity:
    the steps give a row for every blob and every configuration. *)
Lemma triangulate_steps_defined (f r width height : float) (b : blob) :
  is_Some (triangulate_steps f r width height b).
Proof.
  unfold triangulate_steps. destruct (center b) as [x y]. cbv zeta.
  match goal with |- context [CLongDouble.sqrt (CLongDouble.of_float ?v)] =>
    destruct (CLongDouble.sqrt (CLongDouble.of_float v)) as [root|] eqn:Hroot;
    [|destruct (sqrt_defined (of_float v) zero I) as [? Hsome]; [easy|];
      unfold CLongDouble.of_float in Hroot; congruence]
  end.
  match goal with |- context [CLongDouble.pow2 ?z] =>
    destruct (pow2_shape z) as [Hre Him]; [apply div_real_zero_or_nan|];
    destruct (CLongDouble.pow2 z) as [pr pi]
  end.
  cbn [fst snd] in Hre, Him.
  match goal with |- context [CLongDouble.sqrt ?z] =>
    destruct (CLongDouble.sqrt z) as [root'|] eqn:Hroot'; [easy|]
  end.
  destruct (sqrt_defined (add one pr) (add zero pi)) as [? Hsome].
  - now apply add_zero_or_nan.
  - intros _. now apply add_one_not_negative.
  - unfold CLongDouble.add, CLongDouble.of_float in Hroot'. cbn [fst snd] in Hroot'.
    fold one in Hroot'. congruence.
Qed.

(** A product with a zero, over the real zero, is not a number. *)
Lemma zero_over_zero (z : CLongDouble.t) (s : bool) :
  (CLongDouble.div (CLongDouble.mul z (S754_zero s, zero)) (zero, zero)).1 = S754_nan.
Proof.
  destruct z as [zr zi]. cbn [CLongDouble.mul CLongDouble.div].
  cbn [SFabs zero SFleb SFcompare SFeqb andb fst].
  apply div_by_zero, sub_zero_or_nan; now apply mul_zero_or_nan_r.
Qed.

Lemma div_nan (i : LongDouble.t) (b : CLongDouble.t) :
  (CLongDouble.div (S754_nan, i) b).1 = S754_nan.
Proof.
  destruct b as [br bi]. unfold CLongDouble.div.
  destruct (SFleb _ _); [destruct (_ && _)|]; reflexivity.
Qed.

Lemma of_float_zero (v : float) (s : bool) :
  Prim2SF v = S754_zero s -> CLongDouble.of_float v = (S754_zero s, zero).
Proof. intros H. unfold CLongDouble.of_float, of_float. now rewrite H. Qed.

End LongDoubleFacts.

(** The known-value scenario: a blob of radius 20, one hundred pixels to
    the right of the centre of a 640 by 480 image, with the default focal
    length and ball radius, is put a little more than one metre away. *)
Lemma triangulate_offset_blob :
  triangulate 490 2 640 480 offset_blob
  = (0x1.a3cb4f1d4e79bp-3, 0, 0x1.011fba0ec010fp+0)%float.
Proof. vm_compute. reflexivity. Qed.

Lemma triangulate_at_centre (f r width height : float) (b : blob) :
  at_image_centre width height b = true ->
  exists z, triangulate f r width height b = (nan, nan, z).
Proof.
  unfold at_image_centre, triangulate, triangulate_steps. destruct (center b) as [x y].
  intros [Hx Hy]%andb_true_iff.
  apply eqb_zero in Hx as [s1 Hx]. apply eqb_zero in Hy as [s2 Hy].
  pose proof (norm2_zero _ _ s1 s2 Hx Hy) as Hl. cbv zeta.
  rewrite (of_float_zero _ _ Hx), (of_float_zero _ _ Hy), !(of_float_zero _ _ Hl).
  destruct (CLongDouble.sqrt _) as [root|]; [|now eexists].
  destruct (CLongDouble.sqrt _) as [root'|]; [|now eexists].
  eexists. unfold CLongDouble.to_float.
  match goal with
  | |- context [CLongDouble.div (CLongDouble.mul ?z (S754_zero s1, LongDouble.zero)) _] =>
      pose proof (zero_over_zero z s1) as H1; pose proof (zero_over_zero z s2) as H2
  end.
  destruct (CLongDouble.div (CLongDouble.mul _ (S754_zero s1, LongDouble.zero)) _) as [xr xi].
  destruct (CLongDouble.div (CLongDouble.mul _ (S754_zero s2, LongDouble.zero)) _) as [yr yi].
  cbn [fst] in H1, H2. subst xr yr. rewrite !div_nan. reflexivity.
Qed.

(** X22.  Whatever the focal length, the ball radius, the size of the
    frame and the radius of the blob: when a detector reports a blob whose
    centre is the centre of the image, the cycle ends normally with a pose
    for that channel whose first two coordinates are not numbers; this
    pose is in the table, where [get_poses] reads it, and the filter of
    the channel is neither created nor given the observation. *)
Theorem blob_at_centre_gives_no_pose {K : PyKalman} (t : BlobTracker) (h : heap)
    (a : acquisition) (key : nat) (rows : list vec3) (width height : float) (b : blob) :
  tracker_inv t h -> h !! poses t = Some rows ->
  frame_width t = Some width -> frame_height t = Some height ->
  key < length (color_masks t) ->
  (forall key', key' < length (color_masks t) -> exists ob, find_blob a key' = Return ob) ->
  find_blob a key = Return (Some b) ->
  at_image_centre width height b = true ->
  exists t' h' rows' z,
    solve_blob_poses t h a = ((t', h'), Return tt)
    /\ h' !! poses t' = Some rows'
    /\ rows' !! key = Some (nan, nan, z)
    /\ has_nan_in_pose (nan, nan, z) = true
    /\ (get_poses t' h').2 !! (get_poses t' h').1 = Some rows'
    /\ kalmanFilterz t' !! key = kalmanFilterz t !! key.
Proof.
  intros Hinv Hrows Hw Hh Hkey Hdet Hblob Hcentre.
  destruct (triangulate_at_centre (camera_focal_length t) (BALL_RADIUS_CM t)
              width height b Hcentre) as [z Hz].
  destruct (nonfinite_pose_in_table t h a key rows (nan, nan, z) Hinv Hrows
              ltac:(now rewrite Hw) ltac:(now rewrite Hh) Hkey Hdet)
    as (t' & h' & rows' & Hs & Hr' & Hk' & Hf'); [|reflexivity|].
  { unfold observed_pose. now rewrite Hblob, Hw, Hh, Hz. }
  exists t', h', rows', z. repeat split; try easy.
  unfold get_poses. cbn [fst snd]. rewrite lookup_insert_eq.
  now rewrite (lookup_total_correct _ _ _ Hr').
Qed.

(** X22, an instance: the started tracker and the centred blob. *)
Lemma blob_at_centre_gives_no_pose_witness :
  let t := started_tracker.1 in
  let h := started_tracker.2 in
  tracker_inv t h
  /\ at_image_centre 640 480 centred_blob = true
  /\ exists t' h' rows' z,
       solve_blob_poses t h (frame_with centred_blob) = ((t', h'), Return tt)
       /\ h' !! poses t' = Some rows'
       /\ rows' !! 0 = Some (nan, nan, z)
       /\ kalmanFilterz t' !! 0 = Some None.
Proof.
  intros t h.
  assert (Hinv : tracker_inv t h) by (exists [zeros3]; now repeat split).
  assert (Hkey : 0 < length (color_masks t)) by (cbn; lia).
  assert (Hdet : forall key', key' < length (color_masks t) ->
                   exists ob, find_blob (frame_with centred_blob) key' = Return ob).
  { intros [|key'] _; now eexists. }
  destruct (blob_at_centre_gives_no_pose t h (frame_with centred_blob) 0 [zeros3]
              640 480 centred_blob Hinv eq_refl eq_refl eq_refl Hkey Hdet eq_refl eq_refl)
    as (t' & h' & rows' & z & Hs & Hr & Hk & _ & _ & Hf).
  refine (conj Hinv (conj eq_refl _)). exists t', h', rows', z.
  exact (conj Hs (conj Hr (conj Hk Hf))).
Defined.

(** ** What the filter of a channel is given *)

(** X23.  The observation that a channel hands to its filter is a view of
    the channel's row in the table, and the filter buffers the view.  In
    the cycle that ends the countdown of the channel's filter, the re-fit
    therefore finds the observation of this cycle in every buffered view:
    [em] and [filter] are given as many copies of the latest observation
    as there are buffered observations, and none of the earlier ones. *)
Theorem refit_in_the_tracker_sees_one_pose {K : PyKalman} (t : BlobTracker) (h : heap)
    (a : acquisition) (key : nat) (rows : list vec3) (pose : vec3)
    (k : LazyKalman.t nat) :
  tracker_inv t h -> h !! poses t = Some rows ->
  is_Some (frame_width t) -> is_Some (frame_height t) ->
  key < length (color_masks t) ->
  (forall key', key' < length (color_masks t) -> exists ob, find_blob a key' = Return ob) ->
  kalmanFilterz t !! key = Some (Some k) ->
  LazyKalman._calibration_countdown k = 1%Z ->
  observed_pose t a key = Some pose -> has_nan_in_pose pose = false ->
  exists t' h' k',
    solve_blob_poses t h a = ((t', h'), Return tt)
    /\ kalmanFilterz t' !! key = Some (Some k')
    /\ LazyKalman.refits k'
       = LazyKalman.refits k
         ++ [(replicate (S (length (LazyKalman._calibration_observations k))) pose,
              LazyKalman._em_iter k)]
    /\ LazyKalman._calibration_observations k' = [].
Proof.
  intros Hinv Hrows Hw Hh Hkey Hdet Hk Hone Hobs Hfin.
  destruct (solve_blob_poses_key t h a key rows Hinv Hrows Hw Hh Hkey Hdet)
    as (t' & h' & rows' & Hs & _ & _ & Hcase).
  rewrite Hobs, Hfin, Hk in Hcase. destruct Hcase as (k' & Ha & _ & Hk').
  destruct (refit_reads_the_row pose k key Hone) as (k1 & Ha1 & Hr1).
  destruct (apply_refit (fun _ => pose) k key Hone) as (k2 & Ha2 & _ & Ho2 & _).
  assert (k1 = k') as -> by congruence. assert (k2 = k') as -> by congruence.
  exists t', h', k'. now repeat split.
Qed.

(** X23, an instance: the filter of the only channel has buffered two
    views of row 0 and has one observation to go. *)
Lemma refit_in_the_tracker_sees_one_pose_witness :
  let k := {| LazyKalman._filter := KalmanFilter_new (PyKalman := echo_kalman) eye3 eye3 zeros3;
              LazyKalman.do_learning := true;
              LazyKalman._calibration_countdown := 1;
              LazyKalman._calibration_observations := [0; 0];
              LazyKalman._em_iter := 5;
              LazyKalman._x_now := zeros3;
              LazyKalman._p_now := Vector [0; 0; 0]%float;
              LazyKalman.refits := [] |} in
  let t := set_filters started_tracker.1 [Some k] in
  let h := started_tracker.2 in
  let pose := triangulate 490 2 640 480 offset_blob in
  tracker_inv t h
  /\ kalmanFilterz t !! 0 = Some (Some k)
  /\ observed_pose t (frame_with offset_blob) 0 = Some pose
  /\ has_nan_in_pose pose = false
  /\ exists (t' : BlobTracker) (h' : heap) k',
       solve_blob_poses t h (frame_with offset_blob) = ((t', h'), Return tt)
       /\ kalmanFilterz t' !! 0 = Some (Some k')
       /\ LazyKalman.refits k' = [([pose; pose; pose], 5%Z)].
Proof.
  intros k t h pose.
  assert (Hinv : tracker_inv t h) by (exists [zeros3]; now repeat split).
  assert (Hw : is_Some (frame_width t)) by (now eexists).
  assert (Hh : is_Some (frame_height t)) by (now eexists).
  assert (Hkey : 0 < length (color_masks t)) by (cbn; lia).
  assert (Hdet : forall key', key' < length (color_masks t) ->
            exists ob, find_blob (frame_with offset_blob) key' = Return ob).
  { intros [|key'] _; now eexists. }
  assert (Hfin : has_nan_in_pose pose = false) by (vm_compute; reflexivity).
  assert (Hobs : observed_pose t (frame_with offset_blob) 0 = Some pose) by reflexivity.
  destruct (refit_in_the_tracker_sees_one_pose t h (frame_with offset_blob) 0 [zeros3] pose k
              Hinv eq_refl Hw Hh Hkey Hdet eq_refl eq_refl Hobs Hfin)
    as (t' & h' & k' & Hs & Hk' & Hr & _).
  refine (conj Hinv (conj eq_refl (conj Hobs (conj Hfin _)))).
  exists t', h', k'. exact (conj Hs (conj Hk' Hr)).
Defined.

(** ** A first frame that is not a colour image *)

(** X24.  When the first frame that the video source delivers has a shape
    of another length than three, a greyscale frame for instance,
    [at_start] raises [ValueError] where it unpacks the shape, outside
    every [try] of [run]: [run] ends with that exception, the worker still
    says that it is alive unless [stop] was called, the frame size is not
    set, and the table is not touched. *)
Theorem run_on_a_frame_without_channels {K : PyKalman} (script : list acquisition)
    (t : BlobTracker) (h : heap) (a0 : acquisition) (shape : list float) :
  frame_shape a0 = Some shape ->
  length shape <> 3 ->
  exists t',
    run (a0 :: script) t h = ((t', h), Raise ValueError)
    /\ alive t' = alive t && negb (stop_requested a0)
    /\ frame_height t' = frame_height t
    /\ frame_width t' = frame_width t
    /\ poses t' = poses t.
Proof.
  intros Hshape Hlen. unfold run, at_start. rewrite Hshape.
  destruct shape as [|hh [|ww [|c [|d shape]]]]; try (cbn in Hlen; lia);
    (eexists; split; [reflexivity|]); unfold stopped_by;
    destruct (stop_requested a0); cbn; rewrite ?andb_true_r, ?andb_false_r; easy.
Qed.

(** X24, an instance: a new tracker gets a 640 by 480 greyscale frame. *)
Lemma run_on_a_frame_without_channels_witness :
  let t := (BlobTracker_init (K := echo_kalman) 490 2 one_mask ∅).1 in
  let h := (BlobTracker_init (K := echo_kalman) 490 2 one_mask ∅).2 in
  let a0 := {| frame_shape := Some [480; 640]%float;
               find_blob := fun _ => Return None;
               stop_requested := false |} in
  frame_shape a0 = Some [480; 640]%float
  /\ length [480; 640]%float <> 3
  /\ alive t = true
  /\ exists t' : BlobTracker,
       run [a0] t h = ((t', h), Raise ValueError) /\ alive t' = true.
Proof.
  intros t h a0.
  assert (Hlen : length [480; 640]%float <> 3) by (cbn; lia).
  destruct (run_on_a_frame_without_channels [] t h a0 [480; 640]%float eq_refl Hlen)
    as (t' & Hr & Ha & _).
  refine (conj eq_refl (conj Hlen (conj eq_refl _))). exists t'. exact (conj Hr Ha).
Defined.
